(** * GraphSAGE convolution layer ([src/sage.py]): a shallow embedding

    The layer is a PyTorch module driving DGL's message passing.  Scalars are
    exact rationals ([Qc]), so that statements about "the mathematical
    result" are equalities; rounding is outside this development.  Node
    feature tensors are two-dimensional (rows = nodes, columns = features) and
    carry their width explicitly, so a tensor with no rows still has a shape.
    Python exceptions are values of [exn]; every operation that can raise
    returns a [result]. *)

From Stdlib Require Import QArith Qcanon.
From stdpp Require Import gmap strings list fin_maps.

(** ** Exceptions and results *)

Inductive exn : Type :=
| AssertionError
| KeyError (msg : string)
| RuntimeError
| DGLError
| TypeError
| AttributeError
| ValueError.

Inductive result (A : Type) : Type :=
| Ok (a : A)
| Err (e : exn).
Arguments Ok {A} a.
Arguments Err {A} e.

Definition rbind {A B} (r : result A) (k : A -> result B) : result B :=
  match r with Ok a => k a | Err e => Err e end.

(** ** Vectors and tensors over [Qc] *)

Abbreviation Vec := (list Qc).

Record Tensor : Type := mkT { cols : nat; rowsT : list Vec }.

Definition nrows (t : Tensor) : nat := length (rowsT t).

(** Every row has the declared width. *)
Definition wfT (t : Tensor) : Prop := Forall (fun r => length r = cols t) (rowsT t).

Definition zeros (n c : nat) : Tensor := mkT c (replicate n (replicate c 0%Qc)).

(** [t[:n]] *)
Definition t_take (n : nat) (t : Tensor) : Tensor := mkT (cols t) (take n (rowsT t)).

Definition t_map (f : Qc -> Qc) (t : Tensor) : Tensor :=
  mkT (cols t) (map (map f) (rowsT t)).

(** torch broadcasting of one dimension: equal sizes, or one of them is 1. *)
Definition bdim (a b : nat) : option nat :=
  if decide (a = b) then Some a
  else if decide (a = 1) then Some b
  else if decide (b = 1) then Some a
  else None.

(** Expansion of a size-1 dimension to size [n]; other sizes are left alone. *)
Definition stretch {A} (d : A) (n : nat) (l : list A) : list A :=
  if decide (length l = n) then l else replicate n (hd d l).

Definition vec_binop (op : Qc -> Qc -> Qc) (c : nat) (x y : Vec) : Vec :=
  zip_with op (stretch 0%Qc c x) (stretch 0%Qc c y).

(** Elementwise binary operation on 2-D tensors with broadcasting; a shape
    mismatch is torch's [RuntimeError]. *)
Definition t_binop (op : Qc -> Qc -> Qc) (a b : Tensor) : result Tensor :=
  match bdim (nrows a) (nrows b), bdim (cols a) (cols b) with
  | Some r, Some c =>
      Ok (mkT c (zip_with (vec_binop op c)
                   (stretch [] r (rowsT a)) (stretch [] r (rowsT b))))
  | _, _ => Err RuntimeError
  end.

Definition t_add := t_binop Qcplus.
Definition t_div := t_binop Qcdiv.

(** A 1-D tensor used in a 2-D operation is a single row. *)
Definition row_tensor (v : Vec) : Tensor := mkT (length v) [v].
(** [v.unsqueeze(-1)] *)
Definition col_tensor (v : Vec) : Tensor := mkT 1 (map (fun x => [x]) v).

(** Addition of two 1-D tensors. *)
Definition v_add (x y : Vec) : result Vec :=
  match bdim (length x) (length y) with
  | Some c => Ok (vec_binop Qcplus c x y)
  | None => Err RuntimeError
  end.

Definition dot (w x : Vec) : Qc := foldr Qcplus 0%Qc (zip_with Qcmult w x).

Definition relu (x : Qc) : Qc := if Qclt_le_dec x 0 then 0%Qc else x.
Definition qmax (x y : Qc) : Qc := if Qclt_le_dec x y then y else x.

(** ** [nn.Linear] *)

Record Linear : Type := mkLinear {
  in_features : nat;
  out_features : nat;
  weight : list Vec;          (* [out_features] rows of [in_features] entries *)
  lbias : option Vec
}.

Definition wfLinear (L : Linear) : Prop :=
  length (weight L) = out_features L /\
  Forall (fun w => length w = in_features L) (weight L).

Definition matvec (W : list Vec) (x : Vec) : Vec := map (fun w => dot w x) W.

(** [L(x) = x W^T (+ b)]; the last dimension of [x] must be [in_features]. *)
Definition Linear_call (L : Linear) (x : Tensor) : result Tensor :=
  if decide (cols x = in_features L) then
    let y := mkT (out_features L) (map (matvec (weight L)) (rowsT x)) in
    match lbias L with
    | None => Ok y
    | Some b => t_add y (row_tensor b)
    end
  else Err RuntimeError.

Definition set_lbias (b : option Vec) (L : Linear) : Linear :=
  mkLinear (in_features L) (out_features L) (weight L) b.
Definition set_weight (W : list Vec) (L : Linear) : Linear :=
  mkLinear (in_features L) (out_features L) W (lbias L).

(** ** The graph engine (DGL), as far as [forward] uses it

    The engine is an external collaborator: none of its code is part of the
    layer.  Its model follows the contract the layer relies on: node and edge
    counts, keyed per-node and per-edge storage ("frames"), a local scope,
    in-degrees and the message/reduce primitive [update_all]. *)

Inductive graph_kind : Type :=
| Homogeneous      (* one node type: source and destination frames coincide *)
| Bipartite        (* distinct source and destination node types *)
| Block.           (* sampled block: destination nodes are a prefix of the sources *)

(** Modelled from the spec: a directed graph with a node count on each side,
    an edge list, and keyed tensor storage per node side and per edge.  On a
    homogeneous graph the source and the destination side are one store. *)
Record DGLGraph : Type := mkGraph {
  gkind : graph_kind;
  n_src : nat;
  n_dst : nat;                          (* unused when [gkind = Homogeneous] *)
  edge_list : list (nat * nat);         (* (source, destination), by edge id *)
  src_frame : gmap string Tensor;
  dst_frame : gmap string Tensor;       (* unused when [gkind = Homogeneous] *)
  edge_frame : gmap string Tensor
}.

Definition is_block (g : DGLGraph) : bool :=
  match gkind g with Block => true | _ => false end.

Definition number_of_src_nodes (g : DGLGraph) : nat := n_src g.
Definition number_of_dst_nodes (g : DGLGraph) : nat :=
  match gkind g with Homogeneous => n_src g | _ => n_dst g end.
Definition number_of_edges (g : DGLGraph) : nat := length (edge_list g).

Definition srcdata (g : DGLGraph) : gmap string Tensor := src_frame g.
Definition dstdata (g : DGLGraph) : gmap string Tensor :=
  match gkind g with Homogeneous => src_frame g | _ => dst_frame g end.
Definition edata (g : DGLGraph) : gmap string Tensor := edge_frame g.

Definition with_src_frame (f : gmap string Tensor) (g : DGLGraph) : DGLGraph :=
  mkGraph (gkind g) (n_src g) (n_dst g) (edge_list g) f (dst_frame g) (edge_frame g).
Definition with_dst_frame (f : gmap string Tensor) (g : DGLGraph) : DGLGraph :=
  match gkind g with
  | Homogeneous => with_src_frame f g
  | _ => mkGraph (gkind g) (n_src g) (n_dst g) (edge_list g) (src_frame g) f (edge_frame g)
  end.
Definition with_edge_frame (f : gmap string Tensor) (g : DGLGraph) : DGLGraph :=
  mkGraph (gkind g) (n_src g) (n_dst g) (edge_list g) (src_frame g) (dst_frame g) f.

(** In-degree of destination node [v]. *)
Definition in_degree (g : DGLGraph) (v : nat) : nat :=
  length (filter (fun e => e.2 = v) (edge_list g)).
Definition in_degrees (g : DGLGraph) : list nat :=
  map (in_degree g) (seq 0 (number_of_dst_nodes g)).

(** *** Computations on a mutable object: state and exceptions

    An exception leaves the state as it was when raised. *)

Definition ST (S A : Type) : Type := S -> result A * S.

Definition ret {S A} (a : A) : ST S A := fun s => (Ok a, s).
Definition raise {S A} (e : exn) : ST S A := fun s => (Err e, s).
Definition bind {S A B} (m : ST S A) (k : A -> ST S B) : ST S B :=
  fun s => match m s with
           | (Ok a, s') => k a s'
           | (Err e, s') => (Err e, s')
           end.
Definition lift {S A} (r : result A) : ST S A := fun s => (r, s).
Definition gets {S A} (f : S -> A) : ST S A := fun s => (Ok (f s), s).
Definition modify {S} (f : S -> S) : ST S unit := fun s => (Ok tt, f s).
(** Reading an attribute that may not exist. *)
Definition attr {S A} (f : S -> option A) : ST S A :=
  fun s => match f s with Some a => (Ok a, s) | None => (Err AttributeError, s) end.

Notation "'let*' x ':=' m 'in' k" := (bind m (fun x => k))
  (at level 10, x binder, m at level 100, k at level 200).

(** Computations on a graph. *)
Abbreviation M := (ST DGLGraph).

(** Modelled from the spec: [graph.srcdata[key] = t] and its siblings; the
    row count must be the node (edge) count. *)
Definition set_srcdata (key : string) (t : Tensor) : M unit :=
  fun g => if decide (nrows t = number_of_src_nodes g)
           then (Ok tt, with_src_frame (<[key := t]> (srcdata g)) g)
           else (Err DGLError, g).
Definition set_dstdata (key : string) (t : Tensor) : M unit :=
  fun g => if decide (nrows t = number_of_dst_nodes g)
           then (Ok tt, with_dst_frame (<[key := t]> (dstdata g)) g)
           else (Err DGLError, g).
Definition set_edata (key : string) (t : Tensor) : M unit :=
  fun g => if decide (nrows t = number_of_edges g)
           then (Ok tt, with_edge_frame (<[key := t]> (edata g)) g)
           else (Err DGLError, g).

Definition get_frame (f : DGLGraph -> gmap string Tensor) (key : string) : M Tensor :=
  fun g => match f g !! key with
           | Some t => (Ok t, g)
           | None => (Err (KeyError key), g)
           end.
Definition get_srcdata := get_frame srcdata.
Definition get_dstdata := get_frame dstdata.
Definition get_edata := get_frame edata.

(** Modelled from the spec: the engine's local scope.  Keys written inside
    the scope are discarded when it is left, on every exit path: the frames
    the graph had on entry are the ones it has afterwards. *)
Definition local_scope {A} (body : M A) : M A :=
  fun g => (fst (body g), g).

(** *** Messages and reducers *)

Inductive message_fn : Type :=
| copy_src (src out : string)
| u_mul_e (lhs rhs out : string).

Inductive reduce_fn : Type :=
| fn_mean (msg out : string)
| fn_sum (msg out : string)
| fn_max (msg out : string)
| udf (out : string) (f : list Vec -> result Vec).

Definition reduce_out (r : reduce_fn) : string :=
  match r with
  | fn_mean _ o | fn_sum _ o | fn_max _ o => o
  | udf o _ => o
  end.

(** Modelled from the spec: the message rule.  One message per edge, as a
    tensor with one row per edge id: the source node's stored feature, or its
    elementwise product with the edge's stored value. *)
Definition messages (mf : message_fn) : M Tensor :=
  match mf with
  | copy_src src _ =>
      let* h := get_srcdata src in
      let* es := gets edge_list in
      ret (mkT (cols h) (map (fun e => default [] (rowsT h !! e.1)) es))
  | u_mul_e lhs rhs _ =>
      let* h := get_srcdata lhs in
      let* w := get_edata rhs in
      let* es := gets edge_list in
      match bdim (cols h) (cols w) with
      | Some c =>
          ret (mkT c (zip_with (vec_binop Qcmult c)
                        (map (fun e => default [] (rowsT h !! e.1)) es) (rowsT w)))
      | None => raise DGLError
      end
  end.

(** The messages arriving at destination [v], in edge order. *)
Definition mailbox (es : list (nat * nat)) (m : Tensor) (v : nat) : list Vec :=
  map snd (filter (fun p => p.1.2 = v) (zip es (rowsT m))).

Definition vsum (c : nat) (ms : list Vec) : Vec :=
  foldr (zip_with Qcplus) (replicate c 0%Qc) ms.
Definition vmax (c : nat) (ms : list Vec) : Vec :=
  match ms with
  | [] => replicate c 0%Qc
  | m :: ms' => foldl (zip_with qmax) m ms'
  end.
Definition vscale (k : Qc) (v : Vec) : Vec := map (fun x => (x / k)%Qc) v.
Definition Qc_of_nat (n : nat) : Qc := Qc_of_Z (Z.of_nat n).

(** Modelled from the spec: the built-in reducers mean, sum and max over the
    messages of one destination; a destination without incoming edges gets
    zeros. *)
Definition reduce_builtin (r : reduce_fn) (c : nat) (ms : list Vec) : Vec :=
  match r with
  | fn_mean _ _ => vscale (Qc_of_nat (Nat.max (length ms) 1)) (vsum c ms)
  | fn_sum _ _ => vsum c ms
  | fn_max _ _ => vmax c ms
  | udf _ _ => replicate c 0%Qc
  end.

(** Modelled from the spec: a custom reducer runs on the destinations that
    received messages; the others are filled with zeros of the width it
    produced. *)
Fixpoint reduce_udf (f : list Vec -> result Vec) (boxes : list (list Vec))
  : result (list (option Vec)) :=
  match boxes with
  | [] => Ok []
  | [] :: bs => rbind (reduce_udf f bs) (fun rs => Ok (None :: rs))
  | ms :: bs => rbind (f ms) (fun r => rbind (reduce_udf f bs) (fun rs => Ok (Some r :: rs)))
  end.

Definition udf_width (rs : list (option Vec)) : nat :=
  match omap id rs with r :: _ => length r | [] => 0 end.

(** The message/reduce primitive [graph.update_all(message_func,
    reduce_func)] stores the reduced value of every destination under the
    reducer's output key.  With a built-in reducer every destination gets a
    row of the width of the messages, zeros when it received none: on a
    graph without edges the value stored is the zero tensor of that width.
    A custom reducer runs on the destinations that received messages only,
    and the engine writes nothing when there is none (a graph without
    edges): this is the case the fallback of [forward] (lines 104-107) is
    there for. *)
Definition update_all (mf : message_fn) (rf : reduce_fn) : M unit :=
  let* m := messages mf in
  let* es := gets edge_list in
  let* nd := gets number_of_dst_nodes in
  let boxes := map (mailbox es m) (seq 0 nd) in
  match rf with
  | udf out f =>
      let* ne := gets number_of_edges in
      if decide (ne = 0) then ret tt
      else
        let* rs := lift (reduce_udf f boxes) in
        let c := udf_width rs in
        set_dstdata out (mkT c (map (default (replicate c 0%Qc)) rs))
  | _ =>
      set_dstdata (reduce_out rf) (mkT (cols m) (map (reduce_builtin rf (cols m)) boxes))
  end.

(** ** The tensor substrate's random and recurrent primitives

    Modelled from the spec: dropout, weight initialisation and the recurrent
    unit are primitives of the external tensor substrate.  Sampling (dropout
    masks, weight initialisation) threads a generator state.  The recurrent
    unit uses transcendental functions and stays abstract:
    [LSTM_call c ms h0 c0] is the final hidden state after the unit [c] has
    consumed the sequence [ms] from the initial state [(h0, c0)]. *)

Class Torch : Type := {
  Generator : Type;
  LSTM : Type;
  (* [nn.Dropout(p)(t)] *)
  Dropout_call : Qc -> Tensor -> Generator -> Tensor * Generator;
  (* the default initialisation [nn.Linear] gives its weight and bias *)
  init_weight : nat -> nat -> Generator -> list Vec * Generator;
  init_bias : nat -> nat -> Generator -> Vec * Generator;
  (* [nn.init.xavier_uniform_(w, gain=calculate_gain('relu'))] *)
  xavier_uniform_ : list Vec -> Generator -> list Vec * Generator;
  nn_LSTM : nat -> nat -> Generator -> LSTM * Generator;
  LSTM_reset_parameters : LSTM -> Generator -> LSTM * Generator;
  LSTM_call : LSTM -> list Vec -> Vec -> Vec -> result Vec
}.

Section SAGEConv.
Context `{Torch}.

(** [nn.Linear(i, o, bias=b)] *)
Definition nn_Linear (i o : nat) (b : bool) (gen : Generator) : Linear * Generator :=
  let '(W, g1) := init_weight o i gen in
  if b then let '(bv, g2) := init_bias o i g1 in (mkLinear i o W (Some bv), g2)
  else (mkLinear i o W None, g1).

(** [nn.Dropout(p)]: a rate outside [0, 1] is a [ValueError]. *)
Definition nn_Dropout (p : Qc) : result Qc :=
  if Qclt_le_dec p 0 then Err ValueError
  else if Qclt_le_dec 1 p then Err ValueError
  else Ok p.

(** The argument check of [nn.LSTM(i, h, batch_first=True)]: a hidden size
    of zero is a [ValueError]. *)
Definition LSTM_check (h : nat) : result unit :=
  if decide (h = 0) then Err ValueError else Ok tt.

(** ** The layer object

    An attribute that may be missing from the object is an [option]; [bias]
    is [None] when the object has no such attribute (the older layout),
    [Some None] when the attribute is Python's [None]. *)

Record SAGEConv : Type := mkSAGEConv {
  _in_src_feats : nat;
  _in_dst_feats : nat;
  _out_feats : nat;
  _aggre_type : string;
  norm : option (Tensor -> Qc -> result Tensor);
  feat_drop : Qc;
  activation : option (Tensor -> result Tensor);
  fc_pool : option Linear;
  lstm : option LSTM;
  fc_self : option Linear;
  fc_neigh : Linear;
  bias : option (option Vec)
}.

Definition set_fc_pool (x : option Linear) (s : SAGEConv) : SAGEConv :=
  mkSAGEConv (_in_src_feats s) (_in_dst_feats s) (_out_feats s) (_aggre_type s) (norm s)
    (feat_drop s) (activation s) x (lstm s) (fc_self s) (fc_neigh s) (bias s).
Definition set_lstm (x : option LSTM) (s : SAGEConv) : SAGEConv :=
  mkSAGEConv (_in_src_feats s) (_in_dst_feats s) (_out_feats s) (_aggre_type s) (norm s)
    (feat_drop s) (activation s) (fc_pool s) x (fc_self s) (fc_neigh s) (bias s).
Definition set_fc_self (x : option Linear) (s : SAGEConv) : SAGEConv :=
  mkSAGEConv (_in_src_feats s) (_in_dst_feats s) (_out_feats s) (_aggre_type s) (norm s)
    (feat_drop s) (activation s) (fc_pool s) (lstm s) x (fc_neigh s) (bias s).
Definition set_fc_neigh (x : Linear) (s : SAGEConv) : SAGEConv :=
  mkSAGEConv (_in_src_feats s) (_in_dst_feats s) (_out_feats s) (_aggre_type s) (norm s)
    (feat_drop s) (activation s) (fc_pool s) (lstm s) (fc_self s) x (bias s).
Definition set_bias (x : option (option Vec)) (s : SAGEConv) : SAGEConv :=
  mkSAGEConv (_in_src_feats s) (_in_dst_feats s) (_out_feats s) (_aggre_type s) (norm s)
    (feat_drop s) (activation s) (fc_pool s) (lstm s) (fc_self s) (fc_neigh s) x.

(** [dgl.utils.expand_as_pair] on the [in_feats] argument. *)
Definition expand_as_pair (in_feats : nat + nat * nat) : nat * nat :=
  match in_feats with inl n => (n, n) | inr p => p end.

(** ** [reset_parameters] (lines 48-57)

    The state is the layer together with the generator the samplers draw
    from.  [xavier_uniform_] refills a weight in place. *)

Definition sample {A} (f : Generator -> A * Generator) : ST (SAGEConv * Generator) A :=
  fun s => let '(a, g) := f s.2 in (Ok a, (s.1, g)).
Definition update (f : SAGEConv -> SAGEConv) : ST (SAGEConv * Generator) unit :=
  modify (fun s => (f s.1, s.2)).

Definition reset_parameters : ST (SAGEConv * Generator) unit :=
  let* tag := gets (fun s => _aggre_type s.1) in
  let* _ :=
    if decide (tag = "pool") then
      let* L := attr (fun s => fc_pool s.1) in
      let* W := sample (xavier_uniform_ (weight L)) in
      update (set_fc_pool (Some (set_weight W L)))
    else ret tt in
  let* _ :=
    if decide (tag = "lstm") then
      let* c := attr (fun s => lstm s.1) in
      let* c' := sample (LSTM_reset_parameters c) in
      update (set_lstm (Some c'))
    else ret tt in
  let* _ :=
    if decide (tag <> "gcn") then
      let* L := attr (fun s => fc_self s.1) in
      let* W := sample (xavier_uniform_ (weight L)) in
      update (set_fc_self (Some (set_weight W L)))
    else ret tt in
  let* L := gets (fun s => fc_neigh s.1) in
  let* W := sample (xavier_uniform_ (weight L)) in
  update (set_fc_neigh (set_weight W L)).

(** ** [__init__] (lines 15-44)

    Construction raises where a sub-module rejects its arguments: the
    dropout rate (line 29) and, for the lstm variant, the hidden size of the
    recurrent unit (line 35).  The samplers cannot fail, so the fields are
    assembled first and the two checks are made on them in the order of the
    source.  When construction raises the caller gets no object: the layer
    returned beside the exception is not to be read as one. *)

Definition __init__ (in_feats : nat + nat * nat) (out_feats : nat)
    (aggregator_type : string) (feat_drop : Qc) (bias : bool)
    (norm : option (Tensor -> Qc -> result Tensor))
    (activation : option (Tensor -> result Tensor))
    (gen : Generator) : result unit * (SAGEConv * Generator) :=
  let '(in_src, in_dst) := expand_as_pair in_feats in
  let '(pool, g1) :=
    if decide (aggregator_type = "pool")
    then let '(L, g) := nn_Linear in_src in_src true gen in (Some L, g)
    else (None, gen) in
  let '(cell, g2) :=
    if decide (aggregator_type = "lstm")
    then let '(c, g) := nn_LSTM in_src in_src g1 in (Some c, g)
    else (None, g1) in
  let '(self_, g3) :=
    if decide (aggregator_type <> "gcn")
    then let '(L, g) := nn_Linear in_dst out_feats false g2 in (Some L, g)
    else (None, g2) in
  let '(neigh, g4) := nn_Linear in_src out_feats false g3 in
  let b := if bias then Some (replicate out_feats 0%Qc) else None in
  (let* _ := lift (nn_Dropout feat_drop) in
   let* _ := lift (if decide (aggregator_type = "lstm") then LSTM_check in_src else Ok tt) in
   reset_parameters)
    (mkSAGEConv in_src in_dst out_feats aggregator_type norm feat_drop activation
       pool cell self_ neigh (Some b), g4).

(** ** [_compatibility_check] (lines 59-70)

    The warning it prints is not modelled. *)

Definition _compatibility_check : ST SAGEConv unit :=
  let* b := gets bias in
  match b with
  | Some _ => ret tt                                (* hasattr(self, 'bias') *)
  | None =>
      let* bias := gets (fun s => lbias (fc_neigh s)) in
      let* _ := modify (fun s => set_fc_neigh (set_lbias None (fc_neigh s)) s) in
      let* fs := gets fc_self in
      let* bias :=
        match fs with
        | Some L =>                                 (* hasattr(self, 'fc_self') *)
            match bias with
            | Some bv =>                            (* bias is not None *)
                match lbias L with
                | Some sv =>
                    let* sum := lift (v_add bv sv) in
                    let* _ := modify (set_fc_self (Some (set_lbias None L))) in
                    ret (Some sum)
                | None => raise TypeError           (* tensor + None *)
                end
            | None => ret None
            end
        | None => ret bias
        end in
      modify (set_bias (Some bias))
  end.

(** ** [_lstm_reducer] (lines 72-82)

    The engine hands the reducer the messages of destinations of equal
    degree in one batch; the unit treats the batch entries independently, so
    the reducer is given per destination: zero initial hidden and cell state
    of width [_in_src_feats], final hidden state returned. *)

Definition _lstm_reducer (self : SAGEConv) (m : list Vec) : result Vec :=
  match lstm self with
  | Some cell =>
      LSTM_call cell m (replicate (_in_src_feats self) 0%Qc)
                       (replicate (_in_src_feats self) 0%Qc)
  | None => Err AttributeError
  end.

(** ** [forward] (lines 85-170) *)

(** The [feat] argument: one tensor, or a (source, destination) pair. *)
Inductive feat_t : Type :=
| FeatTensor (t : Tensor)
| FeatPair (src dst : Tensor).

(** [dgl.utils.check_eq_shape]: the feature shapes of both sides agree. *)
Definition check_eq_shape (feat : feat_t) : result unit :=
  match feat with
  | FeatTensor _ => Ok tt
  | FeatPair s d => if decide (cols s = cols d) then Ok tt else Err DGLError
  end.

(** Lines 89-95: dropout and the split into source and destination features.
    Nothing is written to the graph here. *)
Definition prepare (self : SAGEConv) (graph : DGLGraph) (feat : feat_t) (gen : Generator)
  : (Tensor * Tensor) * Generator :=
  match feat with
  | FeatPair f0 f1 =>
      let '(feat_src, g1) := Dropout_call (feat_drop self) f0 gen in
      let '(feat_dst, g2) := Dropout_call (feat_drop self) f1 g1 in
      ((feat_src, feat_dst), g2)
  | FeatTensor f =>
      let '(feat_src, g1) := Dropout_call (feat_drop self) f gen in
      if is_block graph
      then ((feat_src, t_take (number_of_dst_nodes graph) feat_src), g1)
      else ((feat_src, feat_src), g1)
  end.

(** Lines 96-100: the message function, and the edge weights stored on the
    graph. *)
Definition edge_setup (edge_weight : option Tensor) : M message_fn :=
  match edge_weight with
  | None => ret (copy_src "h" "m")
  | Some w =>
      let* ne := gets number_of_edges in
      if decide (nrows w = ne) then
        let* _ := set_edata "_edge_weight" w in
        ret (u_mul_e "h" "_edge_weight" "m")
      else raise AssertionError
  end.

(** Lines 113-118, with [lin_before_mp] as computed on line 110. *)
Definition mean_branch (self : SAGEConv) (lin_before_mp : bool) (msg_fn : message_fn)
    (feat_src : Tensor) : M Tensor :=
  let* h := (if lin_before_mp then lift (Linear_call (fc_neigh self) feat_src)
             else ret feat_src) in
  let* _ := set_srcdata "h" h in
  let* _ := update_all msg_fn (fn_mean "m" "neigh") in
  let* h_neigh := get_dstdata "neigh" in
  if negb lin_before_mp then lift (Linear_call (fc_neigh self) h_neigh) else ret h_neigh.

(** Lines 120-128 of the gcn branch: the shape check and the features
    stored on the source and on the destination side. *)
Definition gcn_store (self : SAGEConv) (lin_before_mp : bool) (feat : feat_t)
    (feat_src feat_dst : Tensor) : M unit :=
  let* _ := lift (check_eq_shape feat) in
  let* h := (if lin_before_mp then lift (Linear_call (fc_neigh self) feat_src)
             else ret feat_src) in
  let* _ := set_srcdata "h" h in
  match feat with
  | FeatPair _ _ =>                                 (* heterogeneous *)
      let* hd := (if lin_before_mp then lift (Linear_call (fc_neigh self) feat_dst)
                  else ret feat_dst) in
      set_dstdata "h" hd
  | FeatTensor _ =>
      let* blk := gets is_block in
      if blk then
        let* hs := get_srcdata "h" in
        let* nd := gets number_of_dst_nodes in
        set_dstdata "h" (t_take nd hs)
      else
        let* hs := get_srcdata "h" in
        set_dstdata "h" hs
  end.

(** Lines 129-134 of the gcn branch: sum over the incoming edges, add the
    destination's own feature, divide by in-degree + 1. *)
Definition gcn_reduce (self : SAGEConv) (lin_before_mp : bool) (msg_fn : message_fn)
  : M Tensor :=
  let* _ := update_all msg_fn (fn_sum "m" "neigh") in
  (* divide in_degrees *)
  let* degs := gets in_degrees in
  let* neigh := get_dstdata "neigh" in
  let* hdst := get_dstdata "h" in
  let* s := lift (t_add neigh hdst) in
  let* h_neigh := lift (t_div s (col_tensor (map (fun d => (Qc_of_nat d + 1)%Qc) degs))) in
  if negb lin_before_mp then lift (Linear_call (fc_neigh self) h_neigh) else ret h_neigh.

(** Lines 119-134. *)
Definition gcn_branch (self : SAGEConv) (lin_before_mp : bool) (msg_fn : message_fn)
    (feat : feat_t) (feat_src feat_dst : Tensor) : M Tensor :=
  let* _ := gcn_store self lin_before_mp feat feat_src feat_dst in
  gcn_reduce self lin_before_mp msg_fn.

(** Lines 135-138. *)
Definition pool_branch (self : SAGEConv) (msg_fn : message_fn) (feat_src : Tensor)
  : M Tensor :=
  match fc_pool self with
  | Some pool =>
      let* h := lift (Linear_call pool feat_src) in
      let* _ := set_srcdata "h" (t_map relu h) in
      let* _ := update_all msg_fn (fn_max "m" "neigh") in
      let* neigh := get_dstdata "neigh" in
      lift (Linear_call (fc_neigh self) neigh)
  | None => raise AttributeError
  end.

(** Lines 140-143. *)
Definition lstm_branch (self : SAGEConv) (msg_fn : message_fn) (feat_src : Tensor)
  : M Tensor :=
  let* _ := set_srcdata "h" feat_src in
  let* _ := update_all msg_fn (udf "neigh" (_lstm_reducer self)) in
  let* neigh := get_dstdata "neigh" in
  lift (Linear_call (fc_neigh self) neigh).

Definition not_recognized (tag : string) : string :=
  "Aggregator type " ++ tag ++ " not recognized.".

(** Lines 104-145: the neighbour aggregate [h_neigh]. *)
Definition message_passing (self : SAGEConv) (msg_fn : message_fn) (feat : feat_t)
    (feat_src feat_dst : Tensor) : M Tensor :=
  let* ne := gets number_of_edges in
  (* Handle the case of graphs without edges *)
  let* _ :=
    if decide (ne = 0)
    then set_dstdata "neigh" (zeros (nrows feat_dst) (_in_src_feats self))
    else ret tt in
  (* lin_before_mp = self._in_src_feats > self._out_feats *)
  let lin_before_mp := bool_decide (_out_feats self < _in_src_feats self) in
  if decide (_aggre_type self = "mean") then
    mean_branch self lin_before_mp msg_fn feat_src
  else if decide (_aggre_type self = "gcn") then
    gcn_branch self lin_before_mp msg_fn feat feat_src feat_dst
  else if decide (_aggre_type self = "pool") then
    pool_branch self msg_fn feat_src
  else if decide (_aggre_type self = "lstm") then
    lstm_branch self msg_fn feat_src
  else raise (KeyError (not_recognized (_aggre_type self))).

(** Lines 147-170: self term, bias, activation, normalisation. *)
Definition combine (self : SAGEConv) (h_self h_neigh : Tensor) : result Tensor :=
  rbind (if decide (_aggre_type self = "gcn") then Ok h_neigh
         else match fc_self self with
              | Some L => rbind (Linear_call L h_self) (fun a => t_add a h_neigh)
              | None => Err AttributeError
              end) (fun rst =>
  rbind (match bias self with
         | Some (Some b) => t_add rst (row_tensor b)
         | Some None => Ok rst
         | None => Err AttributeError
         end) (fun rst =>
  rbind (match activation self with
         | Some act => act rst
         | None => Ok rst
         end) (fun rst =>
  match norm self with
  | Some nm => nm rst 2%Qc
  | None => Ok rst
  end))).

(** The body of the [with graph.local_scope()] block after the dropout. *)
Definition forward_scope (self : SAGEConv) (feat : feat_t) (feat_src feat_dst : Tensor)
    (edge_weight : option Tensor) : M Tensor :=
  let* msg_fn := edge_setup edge_weight in
  let h_self := feat_dst in
  let* h_neigh := message_passing self msg_fn feat feat_src feat_dst in
  lift (combine self h_self h_neigh).

(** A call of [forward] may change the layer (by the compatibility check),
    the graph and the generator; all three are returned with the result. *)
Definition forward (self : SAGEConv) (graph : DGLGraph) (feat : feat_t)
    (edge_weight : option Tensor) (gen : Generator)
  : result Tensor * (SAGEConv * DGLGraph * Generator) :=
  match _compatibility_check self with
  | (Err e, self') => (Err e, (self', graph, gen))
  | (Ok _, self') =>
      let '((feat_src, feat_dst), gen') := prepare self' graph feat gen in
      let '(rst, graph') :=
        local_scope (forward_scope self' feat feat_src feat_dst edge_weight) graph in
      (rst, (self', graph', gen'))
  end.

End SAGEConv.

(** ** A deterministic substrate for evaluating the model

    Evaluation mode: dropout is the identity; the initialisers fill with
    constants and count the draws; the recurrent unit adds the messages to
    the initial hidden state. *)

#[export] Instance det_torch : Torch := {|
  Generator := nat;
  LSTM := unit;
  Dropout_call _ t g := (t, g);
  init_weight o i g := (replicate o (replicate i 0%Qc), S g);
  init_bias o _ g := (replicate o 0%Qc, S g);
  xavier_uniform_ W g := (map (map (fun _ => 1%Qc)) W, S g);
  nn_LSTM _ _ g := (tt, S g);
  LSTM_reset_parameters c g := (c, S g);
  LSTM_call _ ms h0 _ := Ok (foldr (zip_with Qcplus) h0 ms)
|}.

(** Integer-valued tensors. *)
Definition tensorZ (c : nat) (rows : list (list Z)) : Tensor :=
  mkT c (map (map Qc_of_Z) rows).

(** ** Spec-side notions used in the statements *)

Section Notions.
Context `{Torch}.

(** The parameters [reset_parameters] and [forward] look up for the
    configured variant are present on the object. *)
Definition allocated (self : SAGEConv) : Prop :=
  (_aggre_type self = "pool" -> is_Some (fc_pool self)) /\
  (_aggre_type self = "lstm" -> is_Some (lstm self)) /\
  (_aggre_type self <> "gcn" -> is_Some (fc_self self)).

(** [n] calls of [reset_parameters] in a row. *)
Fixpoint reset_times (n : nat) : ST (SAGEConv * Generator) unit :=
  match n with
  | O => ret tt
  | S k => let* _ := reset_parameters in reset_times k
  end.

(** What [reset_parameters] leaves alone. *)
Definition reset_frame (self self' : SAGEConv) : Prop :=
  bias self' = bias self /\
  _aggre_type self' = _aggre_type self /\
  (_in_src_feats self', _in_dst_feats self', _out_feats self') =
    (_in_src_feats self, _in_dst_feats self, _out_feats self) /\
  (_aggre_type self <> "pool" -> fc_pool self' = fc_pool self) /\
  (_aggre_type self <> "lstm" -> lstm self' = lstm self) /\
  (_aggre_type self = "gcn" -> fc_self self' = fc_self self) /\
  lbias (fc_neigh self') = lbias (fc_neigh self) /\
  (lbias <$> fc_pool self') = (lbias <$> fc_pool self) /\
  (lbias <$> fc_self self') = (lbias <$> fc_self self) /\
  (is_Some (fc_pool self') <-> is_Some (fc_pool self)) /\
  (is_Some (lstm self') <-> is_Some (lstm self)) /\
  (is_Some (fc_self self') <-> is_Some (fc_self self)).

(** What [reset_parameters] draws anew: the weights of the projections of
    the configured variant, each from the initialiser at some generator
    state. *)
Definition reset_refills (self self' : SAGEConv) : Prop :=
  (exists g, fc_neigh self' =
             set_weight (xavier_uniform_ (weight (fc_neigh self)) g).1 (fc_neigh self)) /\
  (_aggre_type self <> "gcn" -> forall L, fc_self self = Some L ->
     exists g, fc_self self' = Some (set_weight (xavier_uniform_ (weight L) g).1 L)) /\
  (_aggre_type self = "pool" -> forall L, fc_pool self = Some L ->
     exists g, fc_pool self' = Some (set_weight (xavier_uniform_ (weight L) g).1 L)) /\
  (_aggre_type self = "lstm" -> forall c, lstm self = Some c ->
     exists g, lstm self' = Some (LSTM_reset_parameters c g).1).

(** The output combiner as the spec words it: the merged tensor is the
    aggregate alone for gcn and selfProjection(h_self) + aggregate otherwise;
    then the stages that are configured run in the order bias, activation,
    normalisation (with order parameter 2). *)
Definition apply_if_present (stage : option (Tensor -> result Tensor)) (t : Tensor)
  : result Tensor :=
  match stage with Some f => f t | None => Ok t end.

Definition output_combiner (self : SAGEConv) (h_self h_neigh : Tensor) : result Tensor :=
  let merged :=
    if decide (_aggre_type self = "gcn") then Ok h_neigh
    else match fc_self self with
         | Some L => rbind (Linear_call L h_self) (fun a => t_add a h_neigh)
         | None => Err AttributeError
         end in
  foldl (fun acc stage => rbind acc (apply_if_present stage)) merged
    [ (fun b t => t_add t (row_tensor b)) <$> (bias self ≫= id);
      activation self;
      (fun nm t => nm t 2%Qc) <$> norm self ].

(** The spec's wording of the migration.  "The neighbour-projection bias
    plus (when a self projection exists) the self-projection bias"; a bias
    that is not there contributes nothing. *)
Definition sum_of_source_biases (self : SAGEConv) : option Vec :=
  match lbias (fc_neigh self), fc_self self ≫= lbias with
  | Some bv, Some sv => Some (zip_with Qcplus bv sv)
  | Some bv, None => Some bv
  | None, Some sv => Some sv
  | None, None => None
  end.

Definition source_biases_cleared (self : SAGEConv) : Prop :=
  lbias (fc_neigh self) = None /\ fc_self self ≫= lbias = None.

(** The migration as the spec words it, for a layer without a bias field. *)
Definition migrates_as_worded (self : SAGEConv) : Prop :=
  bias self = None ->
  let self' := (_compatibility_check self).2 in
  bias self' = Some (sum_of_source_biases self) /\ source_biases_cleared self'.

(** The four recognised aggregator tags. *)
Definition recognized (tag : string) : Prop :=
  tag = "mean" \/ tag = "gcn" \/ tag = "pool" \/ tag = "lstm".

(** The edge order of a graph refers to existing source nodes. *)
Definition edges_in_range (g : DGLGraph) : Prop :=
  Forall (fun e => e.1 < number_of_src_nodes g) (edge_list g).

(** The source rows the edges read, in edge order. *)
Definition gathered (es : list (nat * nat)) (hrows : list Vec) : list Vec :=
  map (fun e => default [] (hrows !! e.1)) es.

Definition edge_messages (es : list (nat * nat)) (ew : option Tensor) (c : nat)
    (hrows : list Vec) : list Vec :=
  match ew with
  | None => gathered es hrows
  | Some w => zip_with (vec_binop Qcmult c) (gathered es hrows) (rowsT w)
  end.

(** The message function agrees with the edge weights stored on the graph,
    which are one scalar per edge. *)
Definition scalar_weighting (g : DGLGraph) (msg_fn : message_fn) (ew : option Tensor)
  : Prop :=
  match ew with
  | None => msg_fn = copy_src "h" "m"
  | Some w => msg_fn = u_mul_e "h" "_edge_weight" "m" /\
              edata g !! "_edge_weight" = Some w /\ cols w = 1
  end.

(** The message function agrees with the edge weights stored on the graph;
    [c] is the width of the messages formed from the stored feature [h]. *)
Definition weighting (g : DGLGraph) (msg_fn : message_fn) (ew : option Tensor)
    (h : Tensor) (c : nat) : Prop :=
  match ew with
  | None => msg_fn = copy_src "h" "m" /\ c = cols h
  | Some w => msg_fn = u_mul_e "h" "_edge_weight" "m" /\
              edata g !! "_edge_weight" = Some w /\ bdim (cols h) (cols w) = Some c
  end.

(** What a built-in reducer stores: one row per destination, reduced from
    the messages that arrive there. *)
Definition reduced_messages (rf : reduce_fn) (g : DGLGraph) (ew : option Tensor)
    (c : nat) (hrows : list Vec) : Tensor :=
  mkT c (map (fun v => reduce_builtin rf c
                         (mailbox (edge_list g)
                            (mkT c (edge_messages (edge_list g) ew c hrows)) v))
           (seq 0 (number_of_dst_nodes g))).

Definition mean_rows (g : DGLGraph) (ew : option Tensor) (c : nat) (hrows : list Vec)
  : list Vec :=
  map (fun v => reduce_builtin (fn_mean "m" "neigh") c
                  (mailbox (edge_list g) (mkT c (edge_messages (edge_list g) ew c hrows)) v))
      (seq 0 (number_of_dst_nodes g)).

Definition scalar_rows (ew : option Tensor) : Prop :=
  match ew with
  | None => True
  | Some w => Forall (fun r => length r = 1) (rowsT w)
  end.

Definition scalar_edge_weight (g : DGLGraph) (ew : option Tensor) : Prop :=
  match ew with
  | None => True
  | Some w => nrows w = number_of_edges g /\ cols w = 1 /\ wfT w
  end.

(** The topology of a graph: everything but the frames. *)
Definition same_topology (g g' : DGLGraph) : Prop :=
  gkind g' = gkind g /\ n_src g' = n_src g /\ n_dst g' = n_dst g /\
  edge_list g' = edge_list g.

(** The edges that arrive at destination [v], in edge order. *)
Definition in_neighbours (g : DGLGraph) (v : nat) : list (nat * nat) :=
  filter (fun e => e.2 = v) (edge_list g).

(** The features as stored for message passing: projected first when
    [lin_before_mp] holds. *)
Definition projected (L : Linear) (lin : bool) (t : Tensor) : Tensor :=
  if lin then mkT (out_features L) (map (matvec (weight L)) (rowsT t)) else t.

(** The aggregate of one destination as the spec words it: (sum of the
    incoming neighbours' features + the destination's own feature) divided
    by in-degree + 1, the projection being applied to both terms before the
    sum, or once to the quotient. *)
Definition gcn_aggregate_row (W : list Vec) (lin_before_mp : bool) (n_in : nat)
    (neighbours : list Vec) (own : Vec) (d : nat) : Vec :=
  if lin_before_mp
  then vscale (Qc_of_nat d + 1)
         (zip_with Qcplus (vsum (length W) (map (matvec W) neighbours)) (matvec W own))
  else matvec W (vscale (Qc_of_nat d + 1) (zip_with Qcplus (vsum n_in neighbours) own)).

(** The neighbour aggregate [h_neigh] a call of [forward] computes (lines
    87-145), on the features [prepare] yields. *)
Definition neighbour_aggregate (self : SAGEConv) (graph : DGLGraph) (feat : feat_t)
    (edge_weight : option Tensor) (gen : Generator) : result Tensor :=
  match _compatibility_check self with
  | (Ok _, self') =>
      let fs := (prepare self' graph feat gen).1 in
      match edge_setup edge_weight graph with
      | (Ok msg_fn, g1) => (message_passing self' msg_fn feat fs.1 fs.2 g1).1
      | (Err e, _) => Err e
      end
  | (Err e, _) => Err e
  end.

(** A feature pair is given for a graph with separate source and destination
    nodes. *)
Definition pair_on_separate_sides (g : DGLGraph) (feat : feat_t) : Prop :=
  match feat with
  | FeatPair _ _ => gkind g <> Homogeneous
  | FeatTensor _ => True
  end.

(** The gcn aggregate as the spec words it, for the features [prepare]
    yields: one row per destination node. *)
Definition gcn_aggregate_as_worded (self : SAGEConv) (graph : DGLGraph) (feat : feat_t)
    (edge_weight : option Tensor) (gen : Generator) : Prop :=
  let L := fc_neigh self in
  let lin_before_mp := bool_decide (_out_feats self < _in_src_feats self) in
  let fs := (prepare self graph feat gen).1 in
  neighbour_aggregate self graph feat edge_weight gen =
    Ok (mkT (out_features L)
          (map (fun v => gcn_aggregate_row (weight L) lin_before_mp (in_features L)
                           (gathered (in_neighbours graph v) (rowsT fs.1))
                           (default [] (rowsT fs.2 !! v))
                           (in_degree graph v))
             (seq 0 (number_of_dst_nodes graph)))).

End Notions.

(** ** Notions for the closed forms of the variants and for graphs without edges *)

Section VariantNotions.
Context `{Torch}.

(** The mean aggregate of one destination: the neighbour projection of the
    sum of the incoming neighbours' features divided by their number (by 1
    when there is none). *)
Definition mean_aggregate_row (W : list Vec) (n_in : nat) (neighbours : list Vec) : Vec :=
  matvec W (vscale (Qc_of_nat (Nat.max (length neighbours) 1)) (vsum n_in neighbours)).

(** Edge weights, when given, have one row per edge (the assert of line 98
    passes). *)
Definition one_weight_per_edge (g : DGLGraph) (edge_weight : option Tensor) : Prop :=
  match edge_weight with
  | Some w => nrows w = number_of_edges g
  | None => True
  end.

(** The signature of a projection: input width, output width, and whether it
    carries a bias of its own. *)
Definition signature (L : Linear) : nat * nat * bool :=
  (in_features L, out_features L, bool_decide (is_Some (lbias L))).

(** The configuration of a layer and the signatures of its projections. *)
Definition layout (self : SAGEConv)
  : (nat * nat * nat * string) *
    ((nat * nat * bool) * option (nat * nat * bool) * option (nat * nat * bool)) :=
  ((_in_src_feats self, _in_dst_feats self, _out_feats self, _aggre_type self),
   (signature (fc_neigh self), signature <$> fc_self self, signature <$> fc_pool self)).

(** The pool aggregate of one destination: the neighbour projection of the
    elementwise maximum of the messages it received (zeros when it received
    none). *)
Definition pool_aggregate_row (W : list Vec) (c : nat) (neighbours : list Vec) : Vec :=
  matvec W (vmax c neighbours).

(** The row of the output for one destination under the mean variant:
    self projection of its own feature plus the mean aggregate of its
    incoming neighbours, plus the bias when there is one. *)
Definition sage_mean_row (Ws Wn : list Vec) (b : option Vec) (n_in : nat)
    (x_self : Vec) (neighbours : list Vec) : Vec :=
  let r := zip_with Qcplus (matvec Ws x_self) (mean_aggregate_row Wn n_in neighbours) in
  match b with
  | Some bv => zip_with Qcplus r bv
  | None => r
  end.

(** The messages arriving at destination [v] when every edge carries one
    scalar weight: the source's feature times the weight of the edge, in
    edge order. *)
Definition weighted_neighbours (g : DGLGraph) (w : Tensor) (hrows : list Vec) (v : nat)
  : list Vec :=
  map (fun p => map (fun a => (a * hd 0%Qc p.2)%Qc) (default [] (hrows !! p.1.1)))
      (filter (fun p => p.1.2 = v) (zip (edge_list g) (rowsT w))).

(** The graph with an edge from every node to itself added after the edges
    it has. *)
Definition add_self_loop (g : DGLGraph) : DGLGraph :=
  mkGraph (gkind g) (n_src g) (n_dst g)
    (edge_list g ++ map (fun v => (v, v)) (seq 0 (n_src g)))
    (src_frame g) (dst_frame g) (edge_frame g).

(** A layer of the current layout whose projections have the shapes the
    constructor gives them. *)
Definition well_formed (self : SAGEConv) : Prop :=
  let L := fc_neigh self in
  bias self <> None /\
  (forall b, bias self = Some (Some b) -> length b = _out_feats self) /\
  (in_features L = _in_src_feats self /\ out_features L = _out_feats self /\
   length (weight L) = _out_feats self /\ lbias L = None) /\
  (_aggre_type self <> "gcn" ->
   exists S, fc_self self = Some S /\ in_features S = _in_dst_feats self /\
             out_features S = _out_feats self /\ lbias S = None) /\
  (_aggre_type self = "pool" ->
   exists P, fc_pool self = Some P /\ in_features P = _in_src_feats self /\
             out_features P = _in_src_feats self /\
             forall b, lbias P = Some b -> length b = _in_src_feats self).

(** The activation and the normaliser, when given, return on every input. *)
Definition epilogue_returns (self : SAGEConv) : Prop :=
  (forall act, activation self = Some act -> forall t, exists t', act t = Ok t') /\
  (forall nm, norm self = Some nm -> forall t, exists t', nm t 2%Qc = Ok t').

(** Working features of the widths the layer was built for, one row per
    node on each side; for the gcn variant both sides have one width and a
    feature pair comes with a graph that has separate sides. *)
Definition well_shaped (self : SAGEConv) (g : DGLGraph) (feat : feat_t)
    (fs fd : Tensor) : Prop :=
  nrows fs = number_of_src_nodes g /\ cols fs = _in_src_feats self /\
  nrows fd = number_of_dst_nodes g /\ cols fd = _in_dst_feats self /\
  (_aggre_type self = "gcn" ->
   _in_dst_feats self = _in_src_feats self /\ check_eq_shape feat = Ok tt /\
   pair_on_separate_sides g feat).

(** Lines 110-145: the dispatch on the aggregator tag. *)
Definition variant_branch (self : SAGEConv) (msg_fn : message_fn) (feat : feat_t)
    (feat_src feat_dst : Tensor) : M Tensor :=
  let lin_before_mp := bool_decide (_out_feats self < _in_src_feats self) in
  if decide (_aggre_type self = "mean") then
    mean_branch self lin_before_mp msg_fn feat_src
  else if decide (_aggre_type self = "gcn") then
    gcn_branch self lin_before_mp msg_fn feat feat_src feat_dst
  else if decide (_aggre_type self = "pool") then
    pool_branch self msg_fn feat_src
  else if decide (_aggre_type self = "lstm") then
    lstm_branch self msg_fn feat_src
  else raise (KeyError (not_recognized (_aggre_type self))).

End VariantNotions.

(** ** Reasoning about stateful computations

    [wp m Q s]: running [m] from state [s] ends in a result and a state that
    satisfy [Q].  Computations are total functions, so this is a statement
    about the run, whether it raises or not. *)

Definition wp {S A} (m : ST S A) (Q : result A -> S -> Prop) (s : S) : Prop :=
  Q (m s).1 (m s).2.

(** ** Concrete layers, graphs and features

    Layers built by [__init__] over the deterministic substrate (their
    weights are all ones), or written out field by field. *)

(** One node, no edge. *)
Definition isolated_node : DGLGraph := mkGraph Homogeneous 1 0 [] ∅ ∅ ∅.
(** Two nodes, one edge 0 -> 1. *)
Definition one_edge : DGLGraph := mkGraph Homogeneous 2 0 [(0, 1)] ∅ ∅ ∅.
(** A star: the leaves 1 and 2 point to the centre 0. *)
Definition star : DGLGraph := mkGraph Homogeneous 3 0 [(1, 0); (2, 0)] ∅ ∅ ∅.

Definition mean_3_2 : SAGEConv :=
  (__init__ (inl 3) 2 "mean" 0%Qc false None None 0).2.1.
Definition mean_2_3 : SAGEConv :=
  (__init__ (inl 2) 3 "mean" 0%Qc false None None 0).2.1.
Definition gcn_3_2 : SAGEConv :=
  (__init__ (inl 3) 2 "gcn" 0%Qc false None None 0).2.1.
Definition gcn_2_3 : SAGEConv :=
  (__init__ (inl 2) 3 "gcn" 0%Qc false None None 0).2.1.
(** With a bias, relu as activation and a normaliser that returns its input. *)
Definition mean_3_2_full : SAGEConv :=
  (__init__ (inl 3) 2 "mean" 0%Qc true (Some (fun t _ => Ok t))
     (Some (fun t => Ok (t_map relu t))) 0).2.1.
Definition gcn_1_1 : SAGEConv :=
  (__init__ (inl 1) 1 "gcn" 0%Qc false None None 0).2.1.
(** A tag that is none of the four. *)
Definition sum_3_2 : SAGEConv :=
  (__init__ (inl 3) 2 "sum" 0%Qc false None None 0).2.1.

(** An old-layout object whose self projection alone carries a bias. *)
Definition legacy_self_bias_only : SAGEConv :=
  mkSAGEConv 1 1 1 "mean" None 0%Qc None None None
    (Some (mkLinear 1 1 [[1%Qc]] (Some [1%Qc])))
    (mkLinear 1 1 [[1%Qc]] None)
    None.

(** An old-layout object with a bias on both projections. *)
Definition legacy_both_biases : SAGEConv :=
  mkSAGEConv 1 1 1 "mean" None 0%Qc None None None
    (Some (mkLinear 1 1 [[1%Qc]] (Some [1%Qc])))
    (mkLinear 1 1 [[1%Qc]] (Some [2%Qc]))
    None.

Definition x_1x3 : Tensor := tensorZ 3 [[1; 2; 3]]%Z.
Definition x_1x2 : Tensor := tensorZ 2 [[1; 2]]%Z.
Definition x_2x2 : Tensor := tensorZ 2 [[1; 1]; [0; 0]]%Z.
Definition x_3x1 : Tensor := tensorZ 1 [[1]; [4]; [7]]%Z.
Definition x_3x3 : Tensor := tensorZ 3 [[1; 2; 3]; [4; 5; 6]; [7; 8; 10]]%Z.
(** Edge weights: two scalars, one scalar. *)
Definition w_2x1 : Tensor := tensorZ 1 [[2]; [3]]%Z.
Definition w_1x1 : Tensor := tensorZ 1 [[2]]%Z.

(** The entries of a result, as fractions, for comparing computed tensors. *)
Definition values (r : result Tensor) : option (list (list (Z * positive))) :=
  match r with
  | Ok t => Some (map (map (fun x => (Qnum (this x), Qden (this x)))) (rowsT t))
  | Err _ => None
  end.

(** An old-layout object whose neighbour projection alone carries a bias. *)
Definition legacy_neigh_bias_only : SAGEConv :=
  mkSAGEConv 1 1 1 "mean" None 0%Qc None None None
    (Some (mkLinear 1 1 [[1%Qc]] None))
    (mkLinear 1 1 [[1%Qc]] (Some [2%Qc]))
    None.

(** A mean layer with a bias and neither activation nor normalisation. *)
Definition mean_3_2_bias : SAGEConv :=
  (__init__ (inl 3) 2 "mean" 0%Qc true None None 0).2.1.
(** The pool and the lstm variant. *)
Definition pool_2_3 : SAGEConv :=
  (__init__ (inl 2) 3 "pool" 0%Qc false None None 0).2.1.
Definition lstm_2_3 : SAGEConv :=
  (__init__ (inl 2) 3 "lstm" 0%Qc false None None 0).2.1.
Definition x_3x2 : Tensor := tensorZ 2 [[1; -2]; [3; 4]; [-5; 6]]%Z.
Definition y_2x2 : Tensor := tensorZ 2 [[5; 6]; [7; 8]]%Z.

Section WP.
Context {S : Type}.

Lemma wp_bind {A B} (m : ST S A) (k : A -> ST S B) Q s :
  wp m (fun r s' => match r with Ok a => wp (k a) Q s' | Err e => Q (Err e) s' end) s ->
  wp (bind m k) Q s.
Proof. unfold wp, bind. destruct (m s) as [[a|e] s']; simpl; auto. Qed.

Lemma wp_ret {A} (a : A) (Q : result A -> S -> Prop) s : Q (Ok a) s -> wp (ret a) Q s.
Proof. auto. Qed.

Lemma wp_raise {A} e (Q : result A -> S -> Prop) s : Q (Err e) s -> wp (raise e) Q s.
Proof. auto. Qed.

Lemma wp_lift {A} (r : result A) (Q : result A -> S -> Prop) s : Q r s -> wp (lift r) Q s.
Proof. auto. Qed.

Lemma wp_gets {A} (f : S -> A) (Q : result A -> S -> Prop) s :
  Q (Ok (f s)) s -> wp (gets f) Q s.
Proof. auto. Qed.

Lemma wp_modify (f : S -> S) (Q : result unit -> S -> Prop) s :
  Q (Ok tt) (f s) -> wp (modify f) Q s.
Proof. auto. Qed.

Lemma wp_attr {A} (f : S -> option A) (Q : result A -> S -> Prop) s :
  match f s with Some a => Q (Ok a) s | None => Q (Err AttributeError) s end ->
  wp (attr f) Q s.
Proof. unfold wp, attr. destruct (f s); auto. Qed.

End WP.

Ltac wp_step :=
  first
    [ apply wp_bind
    | apply wp_ret
    | apply wp_raise
    | apply wp_lift
    | apply wp_gets
    | apply wp_modify
    | apply wp_attr ];
  cbv beta iota; cbn [fst snd].

(** ** Parameter store: construction and re-initialisation *)

Section ParameterStore.
Context `{Torch}.

Lemma wp_sample {A} (f : Generator -> A * Generator) Q s :
  (forall a g, f s.2 = (a, g) -> Q (Ok a) (s.1, g)) -> wp (sample f) Q s.
Proof. unfold wp, sample. intros HQ. destruct (f s.2) as [a g] eqn:E. simpl. auto. Qed.

Lemma wp_update (f : SAGEConv -> SAGEConv) Q (s : SAGEConv * Generator) :
  Q (Ok tt) (f s.1, s.2) -> wp (update f) Q s.
Proof. auto. Qed.

Lemma reset_parameters_wp (self : SAGEConv) (gen : Generator) :
  wp reset_parameters
     (fun r s' => reset_frame self s'.1 /\
                  (allocated self -> r = Ok tt /\ reset_refills self s'.1))
     (self, gen).
Proof.
  unfold reset_parameters.
  repeat first
    [ wp_step
    | apply wp_sample; intros ? ? ?; cbn [fst snd]
    | apply wp_update; cbn [fst snd]
    | case_decide
    | match goal with
      | |- match ?o with Some _ => _ | None => _ end => destruct o eqn:?
      end ].
  all: unfold reset_frame, reset_refills, allocated; simpl.
  all: repeat match goal with
         | E : ?f ?g = (?a, _) |- _ =>
             assert (a = (f g).1) by (rewrite E; reflexivity); clear E; subst a
         end.
  all: split; [| intros (Hp & Hl & Hs) ].
  all: repeat split; intros; simpl in *; try congruence; try done.
  all: repeat match goal with
         | E1 : ?o = Some _, E2 : ?o = Some _ |- _ => rewrite E1 in E2; injection E2 as <-
         end.
  all: try (eexists; reflexivity).
  all: repeat match goal with E : _ = Some _ |- _ => rewrite E; clear E end; try done.
  all: try match goal with
       | E : _ = None |- _ =>
           first [ solve [destruct Hp as [? Hx]; [assumption | rewrite E in Hx; discriminate]]
                 | solve [destruct Hl as [? Hx]; [assumption | rewrite E in Hx; discriminate]]
                 | solve [destruct Hs as [? Hx]; [assumption | rewrite E in Hx; discriminate]] ]
       end.
Qed.

Lemma reset_frame_refl (self : SAGEConv) : reset_frame self self.
Proof. unfold reset_frame; repeat split; auto. Qed.

Lemma reset_frame_trans (a b c : SAGEConv) :
  reset_frame a b -> reset_frame b c -> reset_frame a c.
Proof.
  unfold reset_frame.
  intros (Hb & Ht & Hd & Hp & Hl & Hs & Hn & Hbp & Hbs & Hip & Hil & His)
         (Hb' & Ht' & Hd' & Hp' & Hl' & Hs' & Hn' & Hbp' & Hbs' & Hip' & Hil' & His').
  rewrite Ht in *.
  repeat split; try congruence; try tauto.
  - intros Hx. rewrite Hp', Hp; auto.
  - intros Hx. rewrite Hl', Hl; auto.
  - intros Hx. rewrite Hs', Hs; auto.
Qed.

Lemma reset_frame_allocated (a b : SAGEConv) :
  reset_frame a b -> allocated a -> allocated b.
Proof.
  unfold reset_frame, allocated.
  intros (_ & Ht & _ & _ & _ & _ & _ & _ & _ & Hip & Hil & His) (Hp & Hl & Hs).
  rewrite Ht, Hip, Hil, His. auto.
Qed.

Lemma reset_times_spec (n : nat) (self : SAGEConv) (gen : Generator) :
  reset_frame self (reset_times n (self, gen)).2.1 /\
  (allocated self -> (reset_times n (self, gen)).1 = Ok tt).
Proof.
  revert self gen. induction n as [|n IH]; intros self gen; simpl.
  - split; [apply reset_frame_refl | reflexivity].
  - unfold bind. pose proof (reset_parameters_wp self gen) as Hw. unfold wp in Hw.
    destruct (reset_parameters (self, gen)) as [[[]|e] [s' g']]; simpl in *.
    + destruct Hw as [Hf _]. destruct (IH s' g') as [Hf' Hok]. split.
      * eapply reset_frame_trans; eauto.
      * intros Ha. apply Hok. eapply reset_frame_allocated; eauto.
    + destruct Hw as [Hf Hok]. split; [exact Hf |].
      intros Ha. destruct (Hok Ha) as [Hx _]. discriminate Hx.
Qed.

(** Construction returns or raises [ValueError]; the object it has
    assembled has the parameters of its variant, and no others. *)
Lemma init_spec (in_feats : nat + nat * nat) (out_feats : nat) (tag : string)
    (p : Qc) (b : bool) nm act (gen : Generator) :
  let r := __init__ in_feats out_feats tag p b nm act gen in
  (r.1 = Ok tt \/ r.1 = Err ValueError) /\
  allocated r.2.1 /\
  _aggre_type r.2.1 = tag /\
  (is_Some (fc_pool r.2.1) <-> tag = "pool") /\
  (is_Some (lstm r.2.1) <-> tag = "lstm") /\
  (is_Some (fc_self r.2.1) <-> tag <> "gcn") /\
  in_features (fc_neigh r.2.1) = (expand_as_pair in_feats).1 /\
  out_features (fc_neigh r.2.1) = out_feats /\
  bias r.2.1 = Some (if b then Some (replicate out_feats 0%Qc) else None).
Proof.
  unfold __init__. destruct (expand_as_pair in_feats) as [in_src in_dst]. simpl.
  set (pool := if decide (tag = "pool") then _ else _).
  assert (Hpool : is_Some pool.1 <-> tag = "pool").
  { subst pool. case_decide.
    - destruct (nn_Linear _ _ _ _); simpl. split; eauto.
    - simpl. split; [intros [? ?]; discriminate | tauto]. }
  destruct pool as [pool g1]. simpl in Hpool.
  set (cell := if decide (tag = "lstm") then _ else _).
  assert (Hcell : is_Some cell.1 <-> tag = "lstm").
  { subst cell. case_decide.
    - destruct (nn_LSTM _ _ _); simpl. split; eauto.
    - simpl. split; [intros [? ?]; discriminate | tauto]. }
  destruct cell as [cell g2]. simpl in Hcell.
  set (fself := if decide (tag <> "gcn") then _ else _).
  assert (Hself : is_Some fself.1 <-> tag <> "gcn").
  { subst fself. case_decide.
    - destruct (nn_Linear _ _ _ _); simpl. split; eauto.
    - simpl. split; [intros [? ?]; discriminate | tauto]. }
  destruct fself as [fself g3]. simpl in Hself.
  assert (Hn : in_features (nn_Linear in_src out_feats false g3).1 = in_src /\
               out_features (nn_Linear in_src out_feats false g3).1 = out_feats).
  { unfold nn_Linear. destruct (init_weight _ _ _). simpl. auto. }
  destruct (nn_Linear in_src out_feats false g3) as [neigh g4]. simpl in Hn.
  set (self0 := mkSAGEConv _ _ _ _ _ _ _ _ _ _ _ _).
  assert (Ha : allocated self0).
  { unfold allocated; subst self0; simpl. tauto. }
  match goal with
  | |- context [bind ?m ?k (self0, g4)] => set (run := bind m k (self0, g4))
  end.
  assert (Hrun : run = reset_parameters (self0, g4) \/
                 run = (Err ValueError, (self0, g4))).
  { subst run. unfold bind, lift, nn_Dropout, LSTM_check.
    repeat destruct (Qclt_le_dec _ _); repeat case_decide; auto. }
  destruct Hrun as [-> | ->].
  2: { cbn [fst snd]. split; [right; reflexivity |]. split; [exact Ha |].
       subst self0; simpl. repeat split; tauto. }
  pose proof (reset_parameters_wp self0 g4) as Hw. unfold wp in Hw.
  destruct Hw as [Hf Hok]. destruct (Hok Ha) as [Hr (Hrn & _)].
  pose proof (reset_frame_allocated _ _ Hf Ha) as Ha'.
  destruct Hf as (Hb & Ht & _ & _ & _ & _ & _ & _ & _ & Hip & Hil & His).
  destruct Hrn as [g Hrn].
  split; [left; exact Hr |]. split; [exact Ha' |].
  rewrite Hb, Ht, Hip, Hil, His, Hrn. subst self0; simpl.
  repeat split; try tauto.
Qed.

(** C8.  After construction, that is when [__init__] returns (it raises
    [ValueError] where the dropout layer or the recurrent unit rejects its
    arguments), exactly the parameters of the configured variant exist: the
    pooling projection iff the variant is pool, the recurrent unit iff it is
    lstm, the self projection iff it is not gcn; the neighbour projection
    maps [in_src_feats] to [out_feats]; the bias is a zero vector of length
    [out_feats] when enabled and [None] otherwise. *)
Theorem init_allocates_variant_parameters (in_feats : nat + nat * nat) (out_feats : nat)
    (tag : string) (p : Qc) (b : bool) nm act (gen : Generator) :
  let r := __init__ in_feats out_feats tag p b nm act gen in
  let self := r.2.1 in
  r.1 = Ok tt ->
  (is_Some (fc_pool self) <-> tag = "pool") /\
  (is_Some (lstm self) <-> tag = "lstm") /\
  (is_Some (fc_self self) <-> tag <> "gcn") /\
  in_features (fc_neigh self) = (expand_as_pair in_feats).1 /\
  out_features (fc_neigh self) = out_feats /\
  bias self = Some (if b then Some (replicate out_feats 0%Qc) else None).
Proof.
  intros r self _.
  destruct (init_spec in_feats out_feats tag p b nm act gen)
    as (_ & _ & _ & Hp & Hl & Hs & Hi & Ho & Hb).
  repeat split; try assumption; try apply Hp; try apply Hl; try apply Hs.
Qed.

(** C10.  [reset_parameters] leaves the bias, the configuration and the
    parameters of the other variants as they are; on a layer that has the
    parameters of its variant it succeeds and redraws exactly their weights.
    So after any number of calls the bias is what it was, and on a layer
    constructed with [bias=True] it is still the zero vector. *)
Theorem reset_parameters_keeps_bias :
  (forall self gen,
     let self' := (reset_parameters (self, gen)).2.1 in
     bias self' = bias self /\ reset_frame self self' /\
     (allocated self ->
      (reset_parameters (self, gen)).1 = Ok tt /\ reset_refills self self')) /\
  (forall n self gen, bias (reset_times n (self, gen)).2.1 = bias self) /\
  (forall n in_feats out_feats tag p nm act gen,
     let s0 := (__init__ in_feats out_feats tag p true nm act gen).2 in
     (reset_times n s0).1 = Ok tt /\
     bias (reset_times n s0).2.1 = Some (Some (replicate out_feats 0%Qc))).
Proof.
  split; [| split].
  - intros self gen self'. pose proof (reset_parameters_wp self gen) as Hw.
    unfold wp in Hw. destruct Hw as [Hf Hok]. split; [apply Hf | split; assumption].
  - intros n self gen. apply (reset_times_spec n self gen).
  - intros n in_feats out_feats tag p nm act gen s0.
    destruct (init_spec in_feats out_feats tag p true nm act gen)
      as (_ & Ha & _ & _ & _ & _ & _ & _ & Hb).
    fold s0 in Ha, Hb. destruct s0 as [self0 g0]. simpl in *.
    destruct (reset_times_spec n self0 g0) as [Hf Hok]. split; [auto |].
    destruct Hf as [Hf _]. congruence.
Qed.

End ParameterStore.

(** ** Compatibility shim *)

Section Compatibility.
Context `{Torch}.

Lemma set_lbias_None_id (L : Linear) : lbias L = None -> set_lbias None L = L.
Proof. destruct L; simpl; intros ->; reflexivity. Qed.

Lemma set_fc_neigh_id (self : SAGEConv) : set_fc_neigh (fc_neigh self) self = self.
Proof. destruct self; reflexivity. Qed.

Lemma compatibility_check_has_bias (self : SAGEConv) :
  bias self <> None -> _compatibility_check self = (Ok tt, self).
Proof.
  unfold _compatibility_check, bind, gets, ret; simpl.
  destruct (bias self); [reflexivity | congruence].
Qed.

Lemma compatibility_check_sets_bias (self self' : SAGEConv) :
  _compatibility_check self = (Ok tt, self') -> bias self' <> None.
Proof.
  unfold _compatibility_check, bind, gets, ret, modify, lift, raise; simpl.
  destruct (bias self) as [b|] eqn:Hb.
  - intros [= <-]. congruence.
  - destruct (fc_self self) as [L|]; [destruct (lbias (fc_neigh self)) as [bv|];
      [destruct (lbias L) as [sv|]; [destruct (v_add bv sv) |] |] |];
      simpl; intros [= <-]; simpl; congruence.
Qed.

(** C5 (as the code has it).  The check leaves a layer with a bias field
    alone.  On a layer without one: if the neighbour projection carries a
    bias, the unified bias is that bias, plus the self projection's bias when
    a self projection exists, and the source biases are cleared; if the
    neighbour projection carries none, the unified bias is [None] and the
    self projection is not touched.  A successful check is idempotent, and
    [forward] changes the layer by this check only. *)
Theorem compatibility_check_migrates (self : SAGEConv) :
  (bias self <> None -> _compatibility_check self = (Ok tt, self)) /\
  (forall bv, bias self = None -> lbias (fc_neigh self) = Some bv ->
     match fc_self self with
     | None =>
         _compatibility_check self =
           (Ok tt, set_bias (Some (Some bv))
                     (set_fc_neigh (set_lbias None (fc_neigh self)) self))
     | Some L =>
         forall sv sum, lbias L = Some sv -> v_add bv sv = Ok sum ->
           _compatibility_check self =
             (Ok tt, set_bias (Some (Some sum))
                       (set_fc_self (Some (set_lbias None L))
                          (set_fc_neigh (set_lbias None (fc_neigh self)) self)))
     end) /\
  (bias self = None -> lbias (fc_neigh self) = None ->
     _compatibility_check self = (Ok tt, set_bias (Some None) self)) /\
  (forall self', _compatibility_check self = (Ok tt, self') ->
     _compatibility_check self' = (Ok tt, self')) /\
  (forall graph feat edge_weight gen,
     (forward self graph feat edge_weight gen).2.1.1 = (_compatibility_check self).2) /\
  (forall self' graph feat edge_weight gen,
     _compatibility_check self = (Ok tt, self') ->
     (forward self' graph feat edge_weight gen).2.1.1 = self').
Proof.
  assert (Hfw : forall s graph feat edge_weight gen,
            (forward s graph feat edge_weight gen).2.1.1 = (_compatibility_check s).2).
  { intros s graph feat edge_weight gen. unfold forward.
    destruct (_compatibility_check s) as [[[]|e] s']; simpl; [| reflexivity].
    destruct (prepare s' graph feat gen) as [[fs fd] gen']. reflexivity. }
  split; [apply compatibility_check_has_bias |].
  split; [| split; [| split; [| split]]].
  - intros bv Hb Hn. unfold _compatibility_check, bind, gets, ret, modify, lift; simpl.
    rewrite Hb, Hn. destruct (fc_self self) as [L|]; [| reflexivity].
    intros sv sum Hs Hsum. rewrite Hs, Hsum. reflexivity.
  - intros Hb Hn. unfold _compatibility_check, bind, gets, ret, modify, lift; simpl.
    rewrite Hb, Hn, (set_lbias_None_id _ Hn), set_fc_neigh_id.
    destruct (fc_self self); reflexivity.
  - intros self' Hc. apply compatibility_check_has_bias.
    eapply compatibility_check_sets_bias; eauto.
  - intros. apply Hfw.
  - intros self' graph feat edge_weight gen Hc. rewrite Hfw.
    rewrite compatibility_check_has_bias; [reflexivity |].
    eapply compatibility_check_sets_bias; eauto.
Qed.

(** The check rewrites biases only. *)
Lemma compatibility_check_config (self : SAGEConv) :
  let self' := (_compatibility_check self).2 in
  _aggre_type self' = _aggre_type self /\
  _in_src_feats self' = _in_src_feats self /\
  _out_feats self' = _out_feats self /\
  weight (fc_neigh self') = weight (fc_neigh self).
Proof.
  unfold _compatibility_check, bind, gets, ret, modify, lift, raise; simpl.
  destruct (bias self) as [b|]; simpl; [auto |].
  destruct (fc_self self) as [L|]; [destruct (lbias (fc_neigh self)) as [bv|];
    [destruct (lbias L) as [sv|]; [destruct (v_add bv sv) |] |] |]; simpl; auto.
Qed.

End Compatibility.

(** ** The forward pass *)

Section Forward.
Context `{Torch}.

(** C9.  Whatever [forward] writes on the graph is written inside the local
    scope: after the call, on the returning path and on every raising path,
    the graph is the graph it was given. *)
Theorem forward_leaves_graph (self : SAGEConv) (graph : DGLGraph) (feat : feat_t)
    (edge_weight : option Tensor) (gen : Generator) :
  (forward self graph feat edge_weight gen).2.1.2 = graph.
Proof.
  unfold forward.
  destruct (_compatibility_check self) as [[[]|e] self']; [| reflexivity].
  destruct (prepare self' graph feat gen) as [[feat_src feat_dst] gen'].
  reflexivity.
Qed.

Lemma nrows_zeros (n c : nat) : nrows (zeros n c) = n.
Proof. unfold nrows, zeros; simpl. apply length_replicate. Qed.

Lemma message_passing_unrecognized (self : SAGEConv) msg_fn feat feat_src feat_dst g :
  ~ recognized (_aggre_type self) ->
  (exists e, (message_passing self msg_fn feat feat_src feat_dst g).1 = Err e) /\
  (number_of_edges g <> 0 \/ nrows feat_dst = number_of_dst_nodes g ->
   (message_passing self msg_fn feat feat_src feat_dst g).1 =
     Err (KeyError (not_recognized (_aggre_type self)))).
Proof.
  unfold recognized. intros Hn.
  unfold message_passing, bind, gets; simpl.
  repeat case_decide; try tauto; simpl.
  - unfold set_dstdata. rewrite nrows_zeros. case_decide; simpl.
    + repeat case_decide; try tauto. simpl. split; [eauto |]. reflexivity.
    + split; [eauto |]. intros [? | ?]; congruence.
  - repeat case_decide; try tauto. simpl. split; [eauto |]. reflexivity.
Qed.

Lemma edge_setup_spec (edge_weight : option Tensor) (g : DGLGraph) :
  edge_setup edge_weight g =
  match edge_weight with
  | None => (Ok (copy_src "h" "m"), g)
  | Some w =>
      if decide (nrows w = number_of_edges g)
      then (Ok (u_mul_e "h" "_edge_weight" "m"),
            with_edge_frame (<["_edge_weight" := w]> (edata g)) g)
      else (Err AssertionError, g)
  end.
Proof.
  destruct edge_weight as [w|]; [| reflexivity].
  unfold edge_setup, bind, gets, set_edata, ret, raise.
  destruct (decide (nrows w = number_of_edges g)) as [Hw|Hw]; [| reflexivity].
  rewrite decide_True by exact Hw. reflexivity.
Qed.

Lemma forward_scope_unfold (self : SAGEConv) feat feat_src feat_dst edge_weight g :
  forward_scope self feat feat_src feat_dst edge_weight g =
  match edge_setup edge_weight g with
  | (Ok msg_fn, g1) =>
      match message_passing self msg_fn feat feat_src feat_dst g1 with
      | (Ok h_neigh, g2) => (combine self feat_dst h_neigh, g2)
      | (Err e, g2) => (Err e, g2)
      end
  | (Err e, g1) => (Err e, g1)
  end.
Proof. reflexivity. Qed.

Lemma forward_unfold (self : SAGEConv) graph feat edge_weight gen :
  (forward self graph feat edge_weight gen).1 =
  match _compatibility_check self with
  | (Ok _, self') =>
      let fs := (prepare self' graph feat gen).1 in
      (forward_scope self' feat fs.1 fs.2 edge_weight graph).1
  | (Err e, _) => Err e
  end.
Proof.
  unfold forward.
  destruct (_compatibility_check self) as [[[]|e] self']; [| reflexivity].
  destruct (prepare self' graph feat gen) as [[feat_src feat_dst] gen'].
  reflexivity.
Qed.

(** C7.  With an aggregator tag outside mean/gcn/pool/lstm no call of
    [forward] returns a tensor.  When the call gets as far as the dispatch
    (the compatibility check passes, the edge weights, if any, are one per
    edge, and on a graph without edges the destination features are one row
    per destination node), the exception is the [KeyError] whose message
    names the tag. *)
Theorem forward_unrecognized_tag (self : SAGEConv) (graph : DGLGraph) (feat : feat_t)
    (edge_weight : option Tensor) (gen : Generator) :
  ~ recognized (_aggre_type self) ->
  (exists e, (forward self graph feat edge_weight gen).1 = Err e) /\
  ((_compatibility_check self).1 = Ok tt ->
   match edge_weight with Some w => nrows w = number_of_edges graph | None => True end ->
   (number_of_edges graph <> 0 \/
    nrows (prepare (_compatibility_check self).2 graph feat gen).1.2
      = number_of_dst_nodes graph) ->
   (forward self graph feat edge_weight gen).1 =
     Err (KeyError ("Aggregator type " ++ _aggre_type self ++ " not recognized."))).
Proof.
  intros Hn. rewrite forward_unfold.
  destruct (compatibility_check_config self) as (Ht & _).
  destruct (_compatibility_check self) as [[[]|e] self']; cbn [fst snd] in *;
    [| split; [eauto | intros; discriminate]].
  rewrite <- Ht in Hn. rewrite <- Ht. cbv zeta.
  destruct (prepare self' graph feat gen) as [[feat_src feat_dst] gen']; cbn [fst snd].
  rewrite forward_scope_unfold, edge_setup_spec.
  assert (Hmp : forall msg_fn g1,
             number_of_edges g1 = number_of_edges graph ->
             number_of_dst_nodes g1 = number_of_dst_nodes graph ->
             (exists e, (match message_passing self' msg_fn feat feat_src feat_dst g1 with
                         | (Ok h_neigh, g2) => (combine self' feat_dst h_neigh, g2)
                         | (Err e, g2) => (Err e, g2)
                         end).1 = Err e) /\
             (number_of_edges graph <> 0 \/ nrows feat_dst = number_of_dst_nodes graph ->
              (match message_passing self' msg_fn feat feat_src feat_dst g1 with
               | (Ok h_neigh, g2) => (combine self' feat_dst h_neigh, g2)
               | (Err e, g2) => (Err e, g2)
               end).1 = Err (KeyError (not_recognized (_aggre_type self'))))).
  { intros msg_fn g1 He Hd.
    destruct (message_passing_unrecognized self' msg_fn feat feat_src feat_dst g1 Hn)
      as [[e Hx] Hk]. rewrite He, Hd in Hk.
    destruct (message_passing _ _ _ _ _ g1) as [[t|e'] g2]; cbn [fst snd] in *;
      [discriminate |].
    split; [eauto |]. intros Hrows. rewrite <- Hk by exact Hrows. reflexivity. }
  destruct edge_weight as [w|].
  - destruct (decide (nrows w = number_of_edges graph)) as [Hw|Hw].
    + destruct (Hmp (u_mul_e "h" "_edge_weight" "m")
                  (with_edge_frame (<["_edge_weight" := w]> (edata graph)) graph))
        as [Hx Hk]; [reflexivity | reflexivity |].
      split; [exact Hx |]. intros _ _ Hrows. apply Hk, Hrows.
    + split; [eauto |]. intros _ Hw'. contradiction.
  - destruct (Hmp (copy_src "h" "m") graph) as [Hx Hk]; [reflexivity | reflexivity |].
    split; [exact Hx |]. intros _ _ Hrows. apply Hk, Hrows.
Qed.

Lemma map_fmap {A B} (f : A -> B) (l : list A) : map f l = f <$> l.
Proof. reflexivity. Qed.

Lemma set_srcdata_edges (key : string) (t : Tensor) (g : DGLGraph) :
  let g' := (set_srcdata key t g).2 in
  edata g' = edata g /\ edge_list g' = edge_list g.
Proof. unfold set_srcdata. case_decide; simpl; auto. Qed.

Lemma set_dstdata_edges (key : string) (t : Tensor) (g : DGLGraph) :
  let g' := (set_dstdata key t g).2 in
  edata g' = edata g /\ edge_list g' = edge_list g.
Proof.
  unfold set_dstdata, with_dst_frame. case_decide; simpl; auto.
  destruct (gkind g); simpl; auto.
Qed.

Lemma combine_output_combiner (self : SAGEConv) (h_self h_neigh : Tensor) :
  bias self <> None ->
  combine self h_self h_neigh = output_combiner self h_self h_neigh.
Proof.
  intros Hb. unfold combine, output_combiner. simpl.
  destruct (bias self) as [[b|]|]; [| | congruence]; simpl;
    destruct (activation self), (norm self); simpl;
    match goal with
    | |- context [rbind ?m _] => destruct m; simpl; try reflexivity
    end;
    repeat match goal with
    | |- context [rbind ?m _] => destruct m; simpl; try reflexivity
    end.
Qed.

(** C4.  The output of [forward] is the output combiner's, applied to the
    neighbour aggregate: for a variant other than gcn
    selfProjection(h_self) + aggregate, for gcn the aggregate alone; then the
    bias is added if there is one, then the activation is applied if
    configured, then the normalisation if configured. *)
Theorem forward_output_order (self : SAGEConv) (graph : DGLGraph) (feat : feat_t)
    (edge_weight : option Tensor) (gen : Generator) :
  let self' := (_compatibility_check self).2 in
  let fs := (prepare self' graph feat gen).1 in
  (forward self graph feat edge_weight gen).1 =
    rbind (neighbour_aggregate self graph feat edge_weight gen)
          (output_combiner self' fs.2) /\
  (forall h_self h_neigh L b act nm,
     _aggre_type self' <> "gcn" -> fc_self self' = Some L ->
     bias self' = Some (Some b) -> activation self' = Some act -> norm self' = Some nm ->
     output_combiner self' h_self h_neigh =
       rbind (rbind (rbind (rbind (Linear_call L h_self) (fun a => t_add a h_neigh))
                       (fun rst => t_add rst (row_tensor b)))
                act)
         (fun rst => nm rst 2%Qc)) /\
  (forall h_self h_neigh,
     _aggre_type self' = "gcn" ->
     bias self' = Some None -> activation self' = None -> norm self' = None ->
     output_combiner self' h_self h_neigh = Ok h_neigh).
Proof.
  intros self' fs. split; [| split].
  - rewrite forward_unfold. unfold neighbour_aggregate. subst fs self'.
    destruct (_compatibility_check self) as [[[]|e] self'] eqn:E; cbn [fst snd];
      [| reflexivity]. cbv zeta.
    rewrite forward_scope_unfold.
    destruct (edge_setup edge_weight graph) as [[msg_fn|e] g1]; [| reflexivity].
    destruct (message_passing _ _ _ _ _ _) as [[h_neigh|e] g2]; [| reflexivity].
    cbn [fst rbind]. apply combine_output_combiner.
    eapply compatibility_check_sets_bias; eauto.
  - intros h_self h_neigh L b act nm Ht HL Hbias Hact Hnm.
    unfold output_combiner. rewrite HL, Hbias, Hact, Hnm.
    rewrite decide_False by exact Ht. reflexivity.
  - intros h_self h_neigh Ht Hbias Hact Hnm.
    unfold output_combiner. rewrite Hbias, Hact, Hnm.
    rewrite decide_True by exact Ht. reflexivity.
Qed.

End Forward.

(** ** The neighbour projection and the mean reduction *)

Section LinearMaps.

Lemma dot_add (w x y : Vec) :
  length x = length y -> dot w (zip_with Qcplus x y) = (dot w x + dot w y)%Qc.
Proof.
  revert x y. induction w as [|a w IH]; intros [|b x] [|c y] Hl; simpl in *;
    try discriminate; try (unfold dot; simpl; ring).
  injection Hl as Hl. unfold dot in *. simpl. rewrite IH by exact Hl. ring.
Qed.

Lemma dot_scale_r (k : Qc) (w x : Vec) :
  dot w (map (fun a => a * k)%Qc x) = (dot w x * k)%Qc.
Proof.
  revert x. induction w as [|a w IH]; intros [|b x]; unfold dot in *; simpl;
    try ring. rewrite IH. ring.
Qed.

Lemma dot_div_r (k : Qc) (w x : Vec) :
  dot w (map (fun a => a / k)%Qc x) = (dot w x / k)%Qc.
Proof.
  revert x. induction w as [|a w IH]; intros [|b x]; unfold dot in *; simpl;
    unfold Qcdiv in *; try ring. rewrite IH. ring.
Qed.

Lemma dot_zeros (w : Vec) (n : nat) : dot w (replicate n 0%Qc) = 0%Qc.
Proof.
  revert n. induction w as [|a w IH]; intros [|n]; unfold dot in *; simpl; try ring.
  rewrite IH. ring.
Qed.

Lemma matvec_length (W : list Vec) (x : Vec) : length (matvec W x) = length W.
Proof. unfold matvec. apply length_map. Qed.

Lemma matvec_add (W : list Vec) (x y : Vec) :
  length x = length y ->
  matvec W (zip_with Qcplus x y) = zip_with Qcplus (matvec W x) (matvec W y).
Proof.
  intros Hl. unfold matvec. induction W as [|w W IH]; simpl; [reflexivity |].
  rewrite dot_add by exact Hl. rewrite IH. reflexivity.
Qed.

Lemma matvec_scale (W : list Vec) (k : Qc) (x : Vec) :
  matvec W (map (fun a => a * k)%Qc x) = map (fun a => a * k)%Qc (matvec W x).
Proof.
  unfold matvec. induction W as [|w W IH]; simpl; [reflexivity |].
  rewrite dot_scale_r, IH. reflexivity.
Qed.

Lemma matvec_vscale (W : list Vec) (k : Qc) (x : Vec) :
  matvec W (vscale k x) = vscale k (matvec W x).
Proof.
  unfold matvec, vscale. induction W as [|w W IH]; simpl; [reflexivity |].
  rewrite dot_div_r, IH. reflexivity.
Qed.

Lemma matvec_zeros (W : list Vec) (n : nat) :
  matvec W (replicate n 0%Qc) = replicate (length W) 0%Qc.
Proof.
  unfold matvec. induction W as [|w W IH]; simpl; [reflexivity |].
  rewrite dot_zeros, IH. reflexivity.
Qed.

Lemma vsum_length (c : nat) (ms : list Vec) :
  Forall (fun x => length x = c) ms -> length (vsum c ms) = c.
Proof.
  induction 1 as [|x ms Hx _ IH]; simpl.
  - apply length_replicate.
  - rewrite length_zip_with, IH, Hx. lia.
Qed.

Lemma vsum_matvec (W : list Vec) (c : nat) (ms : list Vec) :
  Forall (fun x => length x = c) ms ->
  vsum (length W) (map (matvec W) ms) = matvec W (vsum c ms).
Proof.
  induction 1 as [|x ms Hx Hms IH]; simpl.
  - symmetry. apply matvec_zeros.
  - rewrite IH. symmetry. apply matvec_add.
    rewrite vsum_length by exact Hms. exact Hx.
Qed.

Lemma mailbox_map (f : Vec -> Vec) (es : list (nat * nat)) (c c' : nat) (rows : list Vec)
    (v : nat) :
  mailbox es (mkT c' (map f rows)) v = map f (mailbox es (mkT c rows) v).
Proof.
  unfold mailbox; simpl. revert rows.
  induction es as [|e es IH]; intros [|r rows]; simpl; try reflexivity.
  rewrite !filter_cons. simpl. destruct (decide (e.2 = v)); simpl; rewrite IH; reflexivity.
Qed.

Lemma mailbox_Forall (P : Vec -> Prop) (es : list (nat * nat)) (m : Tensor) (v : nat) :
  Forall P (rowsT m) -> Forall P (mailbox es m v).
Proof.
  unfold mailbox. intros HP. apply Forall_forall. intros x Hx.
  rewrite map_fmap in Hx. apply list_elem_of_fmap in Hx as [[e y] [-> Hin]].
  apply list_elem_of_filter in Hin as [_ Hin].
  apply elem_of_zip_r in Hin.
  rewrite Forall_forall in HP. apply HP. exact Hin.
Qed.


Lemma bdim_1_r (c : nat) : bdim c 1 = Some c.
Proof. unfold bdim. repeat case_decide; congruence. Qed.

Lemma dstdata_set_dstdata key t g :
  dstdata (with_dst_frame (<[key := t]> (dstdata g)) g) !! key = Some t.
Proof.
  unfold dstdata, with_dst_frame, with_src_frame.
  destruct (gkind g) eqn:E; simpl; rewrite ?E; apply lookup_insert_eq.
Qed.

Lemma scalar_weighting_weighting (g : DGLGraph) (msg_fn : message_fn)
    (ew : option Tensor) (h : Tensor) :
  scalar_weighting g msg_fn ew -> weighting g msg_fn ew h (cols h).
Proof.
  destruct ew as [w|]; simpl.
  - intros (-> & Hw & Hc). rewrite Hc, bdim_1_r. auto.
  - intros ->. auto.
Qed.

(** The messages the engine forms: the stored feature of the edge's source,
    times the edge's stored weight when there is one. *)
Lemma messages_weighting (g : DGLGraph) (msg_fn : message_fn) (ew : option Tensor)
    (h : Tensor) (c : nat) :
  srcdata g !! "h" = Some h -> weighting g msg_fn ew h c ->
  messages msg_fn g = (Ok (mkT c (edge_messages (edge_list g) ew c (rowsT h))), g).
Proof.
  intros Hs Hw. destruct ew as [w|]; simpl in Hw.
  - destruct Hw as (-> & Hw & Hc).
    unfold messages, bind, get_srcdata, get_edata, get_frame, gets, ret.
    rewrite Hs, Hw, Hc. reflexivity.
  - destruct Hw as (-> & ->).
    unfold messages, bind, get_srcdata, get_frame, gets, ret.
    rewrite Hs. reflexivity.
Qed.

(** A built-in reducer stores the reduced messages, on every graph. *)
Lemma update_all_builtin (rf : reduce_fn) (g : DGLGraph) (msg_fn : message_fn)
    (ew : option Tensor) (h : Tensor) (c : nat) :
  match rf with udf _ _ => False | _ => True end ->
  srcdata g !! "h" = Some h -> weighting g msg_fn ew h c ->
  update_all msg_fn rf g =
    (Ok tt, with_dst_frame
              (<[reduce_out rf := reduced_messages rf g ew c (rowsT h)]> (dstdata g)) g).
Proof.
  intros Hrf Hs Hw. unfold update_all.
  unfold bind at 1. rewrite (messages_weighting g msg_fn ew h c Hs Hw).
  unfold bind at 1. unfold gets at 1. unfold bind at 1. unfold gets at 1.
  destruct rf; try contradiction; cbn [reduce_out cols];
    unfold set_dstdata;
    (rewrite decide_True;
     [unfold reduced_messages; rewrite map_map; reflexivity |]);
    unfold nrows; cbn [rowsT]; rewrite !length_map, length_seq; reflexivity.
Qed.

Lemma mean_core (g : DGLGraph) (msg_fn : message_fn) (ew : option Tensor) (h : Tensor) :
  nrows h = number_of_src_nodes g ->
  scalar_weighting g msg_fn ew ->
  ((let* _ := set_srcdata "h" h in
    let* _ := update_all msg_fn (fn_mean "m" "neigh") in
    get_dstdata "neigh") g).1 = Ok (mkT (cols h) (mean_rows g ew (cols h) (rowsT h))).
Proof.
  intros Hn Hw.
  unfold bind at 1. unfold set_srcdata. rewrite decide_True by exact Hn.
  set (g1 := with_src_frame _ g).
  assert (Hs : srcdata g1 !! "h" = Some h) by apply lookup_insert_eq.
  assert (Hw1 : weighting g1 msg_fn ew h (cols h)).
  { apply scalar_weighting_weighting. exact Hw. }
  unfold bind at 1.
  rewrite (update_all_builtin (fn_mean "m" "neigh") g1 msg_fn ew h (cols h) I Hs Hw1).
  unfold get_dstdata, get_frame. cbn [reduce_out]. rewrite dstdata_set_dstdata.
  reflexivity.
Qed.

Lemma vec_binop_scalar (op : Qc -> Qc -> Qc) (c : nat) (x : Vec) (k : Qc) :
  length x = c -> vec_binop op c x [k] = map (fun a => op a k) x.
Proof.
  intros Hx. unfold vec_binop, stretch. rewrite decide_True by exact Hx.
  simpl. destruct (decide (1 = c)) as [<-|Hc].
  - destruct x as [|a [|b x]]; try discriminate. reflexivity.
  - rewrite zip_with_replicate_r_eq by exact Hx. reflexivity.
Qed.

Section MeanLinear.
Variables (W : list Vec) (n_in : nat).
Variable es : list (nat * nat).
Variable rows : list Vec.
Hypothesis rows_wf : Forall (fun r => length r = n_in) rows.
Hypothesis es_wf : Forall (fun e => e.1 < length rows) es.

Lemma gathered_map :
  gathered es (map (matvec W) rows) = map (matvec W) (gathered es rows).
Proof.
  unfold gathered. rewrite map_map. apply map_ext_Forall.
  eapply Forall_impl; [exact es_wf |]. intros e He. simpl in He.
  rewrite map_fmap, list_lookup_fmap.
  destruct (lookup_lt_is_Some_2 rows e.1 He) as [x ->]. reflexivity.
Qed.

Lemma gathered_wf : Forall (fun r => length r = n_in) (gathered es rows).
Proof.
  unfold gathered. apply Forall_forall. intros x Hx.
  rewrite map_fmap in Hx. apply list_elem_of_fmap in Hx as [e [-> He]].
  rewrite Forall_forall in es_wf. specialize (es_wf e He). simpl in es_wf.
  destruct (lookup_lt_is_Some_2 rows e.1 es_wf) as [x Hx]. rewrite Hx. simpl.
  rewrite Forall_forall in rows_wf. apply rows_wf.
  eapply list_elem_of_lookup_2; eauto.
Qed.

Lemma edge_messages_map (ew : option Tensor) :
  scalar_rows ew ->
  edge_messages es ew (length W) (map (matvec W) rows) =
  map (matvec W) (edge_messages es ew n_in rows) /\
  Forall (fun r => length r = n_in) (edge_messages es ew n_in rows).
Proof.
  intros Hw. unfold edge_messages.
  rewrite gathered_map. pose proof gathered_wf as Hs. destruct ew as [w|]; [| auto].
  simpl in Hw. revert Hs Hw. generalize (gathered es rows) as xs. generalize (rowsT w) as ws.
  intros ws xs. revert ws. induction xs as [|x xs IH]; intros [|r ws] Hs Hw; simpl;
    try (split; [reflexivity | constructor]).
  inversion Hs as [|? ? Hx Hxs]; subst. inversion Hw as [|? ? Hr Hws]; subst.
  destruct r as [|k [|? ?]]; try discriminate.
  destruct (IH ws Hxs Hws) as [IH1 IH2]. rewrite IH1.
  rewrite !vec_binop_scalar by (rewrite ?matvec_length; reflexivity).
  split.
  - f_equal. symmetry. apply matvec_scale.
  - constructor; [| exact IH2]. rewrite length_map. reflexivity.
Qed.

End MeanLinear.

Lemma mean_rows_map (W : list Vec) (n_in : nat) (g : DGLGraph) (ew : option Tensor)
    (rows : list Vec) :
  Forall (fun r => length r = n_in) rows ->
  Forall (fun e => e.1 < length rows) (edge_list g) ->
  scalar_rows ew ->
  mean_rows g ew (length W) (map (matvec W) rows) =
  map (matvec W) (mean_rows g ew n_in rows).
Proof.
  intros Hr He Hw. unfold mean_rows. rewrite map_map. apply map_ext. intros v.
  destruct (edge_messages_map W n_in (edge_list g) rows Hr He ew Hw) as [-> Hm].
  rewrite (mailbox_map (matvec W) (edge_list g) n_in).
  simpl. rewrite length_map.
  rewrite vsum_matvec with (c := n_in).
  - symmetry. apply matvec_vscale.
  - apply mailbox_Forall. exact Hm.
Qed.

Lemma bind_fst_tail {S A B C D} (m1 : ST S A) (m2 : ST S B) (m3 : ST S C)
    (k : C -> result D) (s : S) (c : C) :
  ((let* _ := m1 in let* _ := m2 in m3) s).1 = Ok c ->
  ((let* _ := m1 in let* _ := m2 in let* x := m3 in lift (k x)) s).1 = k c.
Proof.
  unfold bind, lift.
  destruct (m1 s) as [[a|e] s1]; simpl; [| discriminate].
  destruct (m2 s1) as [[b|e] s2]; simpl; [| discriminate].
  destruct (m3 s2) as [[c'|e] s3]; simpl; [| discriminate].
  intros [= ->]. reflexivity.
Qed.

Lemma Linear_call_nobias (L : Linear) (x : Tensor) :
  lbias L = None -> cols x = in_features L ->
  Linear_call L x = Ok (mkT (out_features L) (map (matvec (weight L)) (rowsT x))).
Proof.
  intros Hb Hc. unfold Linear_call. rewrite decide_True by exact Hc. rewrite Hb. reflexivity.
Qed.

End LinearMaps.

Section MeanVariant.
Context `{Torch}.

(** C2.  For the mean variant, on every graph (edge sources being nodes of
    the graph), with a bias-free neighbour projection, source features of the
    projection's input width and edge weights that are absent or one weight
    per edge: projecting the source features before the mean reduction and
    projecting the reduced mean afterwards both succeed and give the same
    tensor. *)
Theorem mean_projection_commutes (self : SAGEConv) (g : DGLGraph) (feat_src : Tensor)
    (edge_weight : option Tensor) :
  wfLinear (fc_neigh self) -> lbias (fc_neigh self) = None ->
  wfT feat_src -> cols feat_src = in_features (fc_neigh self) ->
  nrows feat_src = number_of_src_nodes g ->
  edges_in_range g ->
  scalar_edge_weight g edge_weight ->
  exists msg_fn g1 t,
    edge_setup edge_weight g = (Ok msg_fn, g1) /\
    (mean_branch self true msg_fn feat_src g1).1 = Ok t /\
    (mean_branch self false msg_fn feat_src g1).1 = Ok t.
Proof.
  intros [HWl HWr] Hb Hx Hc Hn Hes Hw.
  set (L := fc_neigh self) in *.
  assert (Hsetup : exists msg_fn g1,
             edge_setup edge_weight g = (Ok msg_fn, g1) /\
             scalar_weighting g1 msg_fn edge_weight /\
             edge_list g1 = edge_list g /\
             number_of_src_nodes g1 = number_of_src_nodes g /\
             number_of_edges g1 = number_of_edges g).
  { rewrite edge_setup_spec. destruct edge_weight as [w|].
    - destruct Hw as (Hwn & Hwc & _). rewrite decide_True by exact Hwn.
      do 2 eexists. split; [reflexivity |]. split; [| auto].
      split; [reflexivity |]. split; [| exact Hwc].
      unfold edata, with_edge_frame; simpl. apply lookup_insert_eq.
    - do 2 eexists. split; [reflexivity |]. split; [reflexivity | auto]. }
  destruct Hsetup as (msg_fn & g1 & Hsetup & Hsw & Hel & Hns & Hne).
  assert (Hsr : scalar_rows edge_weight).
  { destruct edge_weight as [w|]; [| exact I]. destruct Hw as (_ & Hwc & Hwf).
    simpl. unfold wfT in Hwf. rewrite Hwc in Hwf. exact Hwf. }
  assert (Hrows : Forall (fun r => length r = in_features L) (rowsT feat_src)).
  { unfold wfT in Hx. rewrite Hc in Hx. exact Hx. }
  assert (Hes' : Forall (fun e => e.1 < length (rowsT feat_src)) (edge_list g1)).
  { rewrite Hel. fold (nrows feat_src). rewrite Hn. exact Hes. }
  exists msg_fn, g1,
    (mkT (out_features L)
       (map (matvec (weight L)) (mean_rows g1 edge_weight (in_features L) (rowsT feat_src)))).
  assert (Hcore1 := mean_core g1 msg_fn edge_weight
            (mkT (out_features L) (map (matvec (weight L)) (rowsT feat_src)))).
  assert (Hcore2 := mean_core g1 msg_fn edge_weight feat_src).
  unfold nrows in Hcore1, Hcore2, Hn. cbn [rowsT cols] in Hcore1.
  rewrite length_map in Hcore1.
  specialize (Hcore1 ltac:(congruence) Hsw).
  specialize (Hcore2 ltac:(congruence) Hsw).
  split; [exact Hsetup |]. split.
  - unfold mean_branch. fold L. rewrite (Linear_call_nobias L feat_src Hb Hc).
    change (bind (lift (Ok ?h)) ?k g1) with (k h g1). cbv beta. cbn [negb].
    change (fun h_neigh : Tensor => ret h_neigh)
      with (fun h_neigh : Tensor => @lift DGLGraph _ (Ok h_neigh)).
    rewrite (bind_fst_tail _ _ _ Ok g1 _ Hcore1).
    rewrite <- HWl.
    rewrite (mean_rows_map (weight L) (in_features L) g1 edge_weight _ Hrows Hes' Hsr).
    reflexivity.
  - unfold mean_branch. fold L.
    change (bind (ret ?h) ?k g1) with (k h g1). cbv beta. cbn [negb].
    rewrite (bind_fst_tail _ _ _ (Linear_call L) g1 _ Hcore2).
    rewrite Linear_call_nobias by (try exact Hb; cbn [cols]; exact Hc).
    cbn [rowsT]. rewrite Hc. reflexivity.
Qed.

End MeanVariant.

(** ** The gcn variant *)

Section Shapes.

Lemma vec_binop_same (op : Qc -> Qc -> Qc) (c : nat) (x y : Vec) :
  length x = c -> length y = c -> vec_binop op c x y = zip_with op x y.
Proof.
  intros Hx Hy. unfold vec_binop, stretch. rewrite !decide_True by assumption. reflexivity.
Qed.

Lemma bdim_same (a : nat) : bdim a a = Some a.
Proof. unfold bdim. rewrite decide_True; reflexivity. Qed.

Lemma stretch_same {A} (d : A) (n : nat) (l : list A) : length l = n -> stretch d n l = l.
Proof. intros Hl. unfold stretch. rewrite decide_True by exact Hl. reflexivity. Qed.

Lemma t_binop_same (op : Qc -> Qc -> Qc) (a b : Tensor) :
  nrows a = nrows b -> cols a = cols b -> wfT a -> wfT b ->
  t_binop op a b = Ok (mkT (cols a) (zip_with (zip_with op) (rowsT a) (rowsT b))).
Proof.
  intros Hr Hc Ha Hb. unfold t_binop. rewrite <- Hr, <- Hc, !bdim_same.
  rewrite !stretch_same by (unfold nrows in *; congruence).
  do 2 f_equal. unfold wfT in *. rewrite <- Hc in Hb.
  unfold nrows in Hr. revert Hr Ha Hb.
  generalize (rowsT a) as ra. generalize (rowsT b) as rb. generalize (cols a) as c.
  intros c rb ra. revert rb. induction ra as [|x ra IH]; intros [|y rb] Hr Ha Hb;
    simpl in *; try discriminate; [reflexivity |].
  apply Forall_cons in Ha as [Hx Ha]. apply Forall_cons in Hb as [Hy Hb].
  rewrite vec_binop_same by assumption.
  f_equal. apply IH; auto.
Qed.

Lemma t_div_col (s : Tensor) (dens : list Qc) :
  nrows s = length dens -> wfT s ->
  t_div s (col_tensor dens) =
    Ok (mkT (cols s) (zip_with (fun row d => vscale d row) (rowsT s) dens)).
Proof.
  intros Hr Hs. unfold t_div, t_binop.
  assert (Hn : nrows (col_tensor dens) = length dens).
  { unfold nrows, col_tensor; simpl. apply length_map. }
  rewrite Hn, <- Hr, bdim_same. cbn [cols col_tensor]. rewrite bdim_1_r.
  rewrite !stretch_same by (unfold nrows in *; cbn [rowsT]; rewrite ?length_map; congruence).
  do 2 f_equal. cbn [rowsT]. clear Hn. unfold wfT, nrows in *. revert Hr Hs.
  generalize (rowsT s) as rs. generalize (cols s) as c. intros c rs. revert dens.
  induction rs as [|x rs IH]; intros [|d dens] Hr Hs; simpl in *; try discriminate;
    [reflexivity |].
  apply Forall_cons in Hs as [Hx Hs]. rewrite vec_binop_scalar by exact Hx.
  f_equal. apply IH; auto.
Qed.

Lemma zip_with_map_seq {A B C D} (f : A -> B -> C) (g : D -> A) (h : D -> B) (l : list D) :
  zip_with f (map g l) (map h l) = map (fun x => f (g x) (h x)) l.
Proof. induction l; simpl; congruence. Qed.

Lemma list_as_map_seq {A} (d : A) (l : list A) :
  l = map (fun i => default d (l !! i)) (seq 0 (length l)).
Proof.
  induction l as [|x l IH]; simpl; [reflexivity |]. f_equal.
  rewrite <- seq_shift, map_map. simpl. exact IH.
Qed.

Lemma mailbox_gathered (es : list (nat * nat)) (c : nat) (rows : list Vec) (v : nat) :
  mailbox es (mkT c (gathered es rows)) v = gathered (filter (fun e => e.2 = v) es) rows.
Proof.
  unfold mailbox, gathered; simpl.
  induction es as [|e es IH]; simpl; [reflexivity |].
  rewrite !filter_cons. simpl. destruct (decide (e.2 = v)); simpl; rewrite IH; reflexivity.
Qed.

Lemma replicate_as_map_seq {A} (x : A) (n : nat) :
  replicate n x = map (fun _ => x) (seq 0 n).
Proof.
  induction n as [|n IH]; [reflexivity |]. simpl. f_equal.
  rewrite <- seq_shift, map_map. exact IH.
Qed.

Lemma gcn_quotient (c n : nat) (Nf : nat -> Vec) (hd : Tensor) (D : nat -> nat) :
  (forall v, length (Nf v) = c) -> wfT hd -> cols hd = c -> nrows hd = n ->
  rbind (t_add (mkT c (map Nf (seq 0 n))) hd)
        (fun s => t_div s (col_tensor (map (fun d => (Qc_of_nat d + 1)%Qc)
                                         (map D (seq 0 n))))) =
  Ok (mkT c (map (fun v => vscale (Qc_of_nat (D v) + 1)
                             (zip_with Qcplus (Nf v) (default [] (rowsT hd !! v))))
               (seq 0 n))).
Proof.
  intros HN Hwf Hc Hn. unfold t_add.
  rewrite t_binop_same; cbn [cols rowsT].
  - cbn [rbind].
    assert (Hrows : rowsT hd = map (fun v => default [] (rowsT hd !! v)) (seq 0 n)).
    { rewrite <- Hn. apply list_as_map_seq. }
    rewrite Hrows at 1. rewrite zip_with_map_seq.
    rewrite t_div_col; cbn [cols rowsT].
    + rewrite map_map, zip_with_map_seq. reflexivity.
    + unfold nrows; cbn [rowsT]. rewrite !length_map. reflexivity.
    + unfold wfT; cbn [cols rowsT]. apply Forall_forall. intros r Hr.
      rewrite map_fmap in Hr. apply list_elem_of_fmap in Hr as [v [-> Hv]].
      rewrite length_zip_with, HN.
      apply elem_of_seq in Hv. simpl in Hv.
      destruct (lookup_lt_is_Some_2 (rowsT hd) v ltac:(fold (nrows hd); lia)) as [x Hx].
      rewrite Hx. simpl. unfold wfT in Hwf. rewrite Forall_forall in Hwf.
      rewrite (Hwf x (list_elem_of_lookup_2 _ _ _ Hx)). lia.
  - unfold nrows; cbn [rowsT]. rewrite length_map, length_seq. symmetry. exact Hn.
  - symmetry. exact Hc.
  - unfold wfT; cbn [cols rowsT]. apply Forall_forall. intros r Hr.
    rewrite map_fmap in Hr. apply list_elem_of_fmap in Hr as [v [-> Hv]]. apply HN.
  - exact Hwf.
Qed.

End Shapes.

Section Frames.

Lemma bind_ok {S A B} (m : ST S A) (k : A -> ST S B) (s s' : S) (a : A) :
  m s = (Ok a, s') -> bind m k s = k a s'.
Proof. unfold bind. intros ->. reflexivity. Qed.

Lemma set_srcdata_ok (key : string) (t : Tensor) (g : DGLGraph) :
  nrows t = number_of_src_nodes g ->
  set_srcdata key t g = (Ok tt, with_src_frame (<[key := t]> (srcdata g)) g).
Proof. intros Hn. unfold set_srcdata. rewrite decide_True by exact Hn. reflexivity. Qed.

Lemma set_dstdata_ok (key : string) (t : Tensor) (g : DGLGraph) :
  nrows t = number_of_dst_nodes g ->
  set_dstdata key t g = (Ok tt, with_dst_frame (<[key := t]> (dstdata g)) g).
Proof. intros Hn. unfold set_dstdata. rewrite decide_True by exact Hn. reflexivity. Qed.

Lemma get_frame_ok (f : DGLGraph -> gmap string Tensor) (key : string) (t : Tensor)
    (g : DGLGraph) :
  f g !! key = Some t -> get_frame f key g = (Ok t, g).
Proof. intros Hk. unfold get_frame. rewrite Hk. reflexivity. Qed.

Lemma same_topology_counts (g g' : DGLGraph) :
  same_topology g g' ->
  number_of_src_nodes g' = number_of_src_nodes g /\
  number_of_dst_nodes g' = number_of_dst_nodes g /\
  number_of_edges g' = number_of_edges g /\
  in_degrees g' = in_degrees g.
Proof.
  intros (Hk & Hs & Hd & He).
  unfold number_of_src_nodes, number_of_dst_nodes, number_of_edges, in_degrees,
    in_degree, number_of_dst_nodes.
  rewrite Hk, Hs, Hd, He. auto.
Qed.

Lemma dstdata_with_dst_frame f g : dstdata (with_dst_frame f g) = f.
Proof.
  unfold dstdata, with_dst_frame, with_src_frame.
  destruct (gkind g) eqn:K; simpl; rewrite ?K; reflexivity.
Qed.

Lemma dstdata_with_src_frame f g :
  dstdata (with_src_frame f g) = match gkind g with Homogeneous => f | _ => dst_frame g end.
Proof. reflexivity. Qed.

Lemma srcdata_with_dst_frame f g :
  srcdata (with_dst_frame f g) = match gkind g with Homogeneous => f | _ => src_frame g end.
Proof. unfold srcdata, with_dst_frame, with_src_frame. destruct (gkind g); reflexivity. Qed.

Lemma same_topology_refl g : same_topology g g.
Proof. repeat split. Qed.

Lemma same_topology_trans a b c : same_topology a b -> same_topology b c -> same_topology a c.
Proof. unfold same_topology. intros (?&?&?&?) (?&?&?&?). repeat split; congruence. Qed.

Lemma same_topology_src f g : same_topology g (with_src_frame f g).
Proof. repeat split. Qed.

Lemma same_topology_dst f g : same_topology g (with_dst_frame f g).
Proof.
  unfold with_dst_frame, with_src_frame.
  destruct (gkind g) eqn:K; repeat split; simpl; auto.
Qed.

Lemma update_all_sum (g : DGLGraph) (hs : Tensor) :
  srcdata g !! "h" = Some hs ->
  update_all (copy_src "h" "m") (fn_sum "m" "neigh") g =
    (Ok tt,
     with_dst_frame
       (<["neigh" :=
            mkT (cols hs)
              (map (fun v => vsum (cols hs)
                               (mailbox (edge_list g)
                                  (mkT (cols hs) (gathered (edge_list g) (rowsT hs))) v))
                 (seq 0 (number_of_dst_nodes g)))]> (dstdata g)) g).
Proof.
  intros Hs.
  exact (update_all_builtin (fn_sum "m" "neigh") g (copy_src "h" "m") None hs (cols hs)
           I Hs (conj eq_refl eq_refl)).
Qed.

End Frames.

Section GCN.
Context `{Torch}.

Lemma gcn_store_spec (self : SAGEConv) (lin : bool) (g g1 : DGLGraph) (feat : feat_t)
    (fs fd : Tensor) :
  lbias (fc_neigh self) = None ->
  cols fs = in_features (fc_neigh self) -> nrows fs = number_of_src_nodes g ->
  cols fd = in_features (fc_neigh self) -> nrows fd = number_of_dst_nodes g ->
  check_eq_shape feat = Ok tt ->
  match feat with
  | FeatTensor _ => fd = if is_block g then t_take (number_of_dst_nodes g) fs else fs
  | FeatPair _ _ => gkind g <> Homogeneous
  end ->
  same_topology g g1 ->
  exists g3,
    gcn_store self lin feat fs fd g1 = (Ok tt, g3) /\
    same_topology g g3 /\
    srcdata g3 !! "h" = Some (projected (fc_neigh self) lin fs) /\
    dstdata g3 !! "h" = Some (projected (fc_neigh self) lin fd) /\
    (forall k, k <> "h" -> dstdata g3 !! k = dstdata g1 !! k).
Proof.
  intros Hb Hcs Hns Hcd Hnd Hchk Hsp Htop.
  destruct (same_topology_counts _ _ Htop) as (Hs1 & Hd1 & _ & _).
  set (L := fc_neigh self) in *.
  assert (Hps : (if lin then lift (Linear_call L fs) else ret fs) =
                (@ret DGLGraph _ (projected L lin fs))).
  { unfold projected. destruct lin; [| reflexivity].
    rewrite Linear_call_nobias by assumption. reflexivity. }
  assert (Hpd : (if lin then lift (Linear_call L fd) else ret fd) =
                (@ret DGLGraph _ (projected L lin fd))).
  { unfold projected. destruct lin; [| reflexivity].
    rewrite Linear_call_nobias by assumption. reflexivity. }
  assert (Hrs : nrows (projected L lin fs) = nrows fs).
  { unfold projected, nrows. destruct lin; [| reflexivity]. cbn [rowsT]. apply length_map. }
  assert (Hrd : nrows (projected L lin fd) = nrows fd).
  { unfold projected, nrows. destruct lin; [| reflexivity]. cbn [rowsT]. apply length_map. }
  unfold gcn_store. fold L. rewrite Hps.
  rewrite Hchk.
  change (bind (lift (Ok tt)) ?k g1) with (k tt g1). cbv beta.
  change (bind (ret ?a) ?k g1) with (k a g1). cbv beta.
  assert (Hn1 : nrows (projected L lin fs) = number_of_src_nodes g1) by congruence.
  rewrite (bind_ok _ _ _ _ _ (set_srcdata_ok "h" _ g1 Hn1)).
  set (g2 := with_src_frame _ g1).
  assert (Htop2 : same_topology g g2).
  { eapply same_topology_trans; [exact Htop | apply same_topology_src]. }
  destruct (same_topology_counts _ _ Htop2) as (Hs2 & Hd2 & _ & _).
  assert (Hk2 : gkind g2 = gkind g) by apply Htop2.
  assert (Hk1 : gkind g1 = gkind g) by apply Htop.
  destruct feat as [t|s d].
  - (* one tensor *)
    unfold bind at 1. unfold gets at 1.
    assert (Hget : get_srcdata "h" g2 = (Ok (projected L lin fs), g2)).
    { apply get_frame_ok. apply lookup_insert_eq. }
    assert (Hblk : is_block g2 = is_block g) by (unfold is_block; rewrite Hk2; reflexivity).
    rewrite Hblk.
    assert (Hwr : (if is_block g then t_take (number_of_dst_nodes g2) (projected L lin fs)
                   else projected L lin fs) = projected L lin fd).
    { rewrite Hd2, Hsp. destruct (is_block g); [| reflexivity].
      unfold projected, t_take. destruct lin; [| reflexivity]. cbn [cols rowsT].
      f_equal. rewrite !map_fmap. symmetry. apply fmap_take. }
    assert (Hset : set_dstdata "h" (projected L lin fd) g2 =
                   (Ok tt, with_dst_frame (<["h" := projected L lin fd]> (dstdata g2)) g2)).
    { apply set_dstdata_ok. congruence. }
    exists (with_dst_frame (<["h" := projected L lin fd]> (dstdata g2)) g2).
    split.
    { destruct (is_block g) eqn:Eb.
      - rewrite (bind_ok _ _ _ _ _ Hget). unfold bind at 1. unfold gets at 1.
        rewrite Hwr. exact Hset.
      - rewrite (bind_ok _ _ _ _ _ Hget). rewrite Hwr. exact Hset. }
    split; [eapply same_topology_trans; [exact Htop2 | apply same_topology_dst] |].
    split; [| split].
    + rewrite srcdata_with_dst_frame, Hk2.
      destruct (gkind g) eqn:K.
      * (* homogeneous: the destination write lands on the source frame *)
        assert (Hb' : is_block g = false) by (unfold is_block; rewrite K; reflexivity).
        rewrite Hb' in Hsp. subst fd. apply lookup_insert_eq.
      * subst g2. apply lookup_insert_eq.
      * subst g2. apply lookup_insert_eq.
    + rewrite dstdata_with_dst_frame. apply lookup_insert_eq.
    + intros k Hk. rewrite dstdata_with_dst_frame, lookup_insert_ne by congruence.
      subst g2. rewrite dstdata_with_src_frame. unfold dstdata. rewrite Hk1.
      destruct (gkind g); [| reflexivity | reflexivity].
      rewrite lookup_insert_ne by congruence. reflexivity.
  - (* a pair *)
    rename Hsp into Hkind. rewrite Hpd.
    change (bind (ret ?a) ?k g2) with (k a g2). cbv beta.
    exists (with_dst_frame (<["h" := projected L lin fd]> (dstdata g2)) g2).
    split; [apply set_dstdata_ok; congruence |].
    split; [eapply same_topology_trans; [exact Htop2 | apply same_topology_dst] |].
    split; [| split].
    + rewrite srcdata_with_dst_frame, Hk2.
      destruct (gkind g) eqn:K; [congruence | |]; subst g2; apply lookup_insert_eq.
    + rewrite dstdata_with_dst_frame. apply lookup_insert_eq.
    + intros k Hk. rewrite dstdata_with_dst_frame, lookup_insert_ne by congruence.
      subst g2. rewrite dstdata_with_src_frame. unfold dstdata. rewrite Hk1.
      destruct (gkind g); [congruence | reflexivity | reflexivity].
Qed.

Lemma gcn_reduce_spec (self : SAGEConv) (lin : bool) (g g3 : DGLGraph) (hs hd : Tensor) :
  same_topology g g3 ->
  srcdata g3 !! "h" = Some hs -> dstdata g3 !! "h" = Some hd ->
  Forall (fun r => length r = cols hs) (gathered (edge_list g) (rowsT hs)) ->
  wfT hd -> cols hd = cols hs -> nrows hd = number_of_dst_nodes g ->
  (gcn_reduce self lin (copy_src "h" "m") g3).1 =
    let X := mkT (cols hs)
               (map (fun v => vscale (Qc_of_nat (in_degree g v) + 1)
                                (zip_with Qcplus
                                   (vsum (cols hs) (gathered (in_neighbours g v) (rowsT hs)))
                                   (default [] (rowsT hd !! v))))
                  (seq 0 (number_of_dst_nodes g))) in
    if negb lin then Linear_call (fc_neigh self) X else Ok X.
Proof.
  intros Htop Hs Hd Hmsg Hwf Hc Hn.
  destruct (same_topology_counts _ _ Htop) as (Hs3 & Hd3 & He3 & Hdeg3).
  assert (Hel : edge_list g3 = edge_list g) by apply Htop.
  set (Nf := fun v => vsum (cols hs) (gathered (in_neighbours g v) (rowsT hs))).
  assert (Hupd : exists g4,
             update_all (copy_src "h" "m") (fn_sum "m" "neigh") g3 = (Ok tt, g4) /\
             in_degrees g4 = in_degrees g /\
             dstdata g4 !! "neigh" =
               Some (mkT (cols hs) (map Nf (seq 0 (number_of_dst_nodes g)))) /\
             dstdata g4 !! "h" = Some hd).
  { eexists. split; [apply (update_all_sum g3 hs Hs) |].
    split; [| split].
    - rewrite <- Hdeg3. apply same_topology_counts, same_topology_dst.
    - rewrite dstdata_with_dst_frame, lookup_insert_eq, Hel, Hd3.
      do 2 f_equal. apply map_ext. intros v. subst Nf. cbv beta.
      rewrite mailbox_gathered. reflexivity.
    - rewrite dstdata_with_dst_frame, lookup_insert_ne by discriminate. exact Hd. }
  destruct Hupd as (g4 & Hupd & Hdeg4 & Hneigh & Hh).
  unfold gcn_reduce.
  rewrite (bind_ok _ _ _ _ _ Hupd).
  unfold bind at 1. unfold gets at 1. rewrite Hdeg4.
  rewrite (bind_ok _ _ _ _ _ (get_frame_ok dstdata "neigh" _ g4 Hneigh)).
  rewrite (bind_ok _ _ _ _ _ (get_frame_ok dstdata "h" _ g4 Hh)).
  assert (HNf : forall v, length (Nf v) = cols hs).
  { intros v. subst Nf. cbv beta. apply vsum_length.
    unfold in_neighbours, gathered in *. rewrite Forall_forall in *. intros r Hr.
    rewrite map_fmap in Hr. apply list_elem_of_fmap in Hr as [e [-> He]].
    apply list_elem_of_filter in He as [_ He].
    apply Hmsg. rewrite map_fmap. apply list_elem_of_fmap. eauto. }
  pose proof (gcn_quotient (cols hs) (number_of_dst_nodes g) Nf hd (in_degree g)
                HNf Hwf Hc Hn) as Hq.
  unfold in_degrees.
  destruct (t_add _ hd) as [s|e]; cbn [rbind] in Hq; [| discriminate].
  change (bind (lift (Ok ?a)) ?k g4) with (k a g4). cbv beta.
  rewrite Hq.
  change (bind (lift (Ok ?a)) ?k g4) with (k a g4). cbv beta zeta.
  destruct lin; reflexivity.
Qed.

Lemma message_passing_gcn (self : SAGEConv) (g : DGLGraph) (feat : feat_t)
    (fs fd : Tensor) :
  let L := fc_neigh self in
  let lin := bool_decide (_out_feats self < _in_src_feats self) in
  _aggre_type self = "gcn" ->
  wfLinear L -> lbias L = None ->
  _in_src_feats self = in_features L ->
  wfT fs -> cols fs = in_features L -> nrows fs = number_of_src_nodes g ->
  wfT fd -> cols fd = in_features L -> nrows fd = number_of_dst_nodes g ->
  edges_in_range g ->
  check_eq_shape feat = Ok tt ->
  match feat with
  | FeatTensor _ => fd = if is_block g then t_take (number_of_dst_nodes g) fs else fs
  | FeatPair _ _ => gkind g <> Homogeneous
  end ->
  (message_passing self (copy_src "h" "m") feat fs fd g).1 =
    Ok (mkT (out_features L)
          (map (fun v => gcn_aggregate_row (weight L) lin (in_features L)
                           (gathered (in_neighbours g v) (rowsT fs))
                           (default [] (rowsT fd !! v))
                           (in_degree g v))
             (seq 0 (number_of_dst_nodes g)))).
Proof.
  intros L lin Htag [HWl HWr] Hb Hin Hwfs Hcs Hns Hwfd Hcd Hnd Hrange Hchk Hsp.
  unfold message_passing. fold lin. fold L.
  unfold bind at 1. unfold gets at 1.
  (* the fallback for graphs without edges *)
  assert (Hpre : exists g1,
            (if decide (number_of_edges g = 0)
             then set_dstdata "neigh" (zeros (nrows fd) (_in_src_feats self))
             else ret tt) g = (Ok tt, g1) /\
            same_topology g g1).
  { destruct (decide (number_of_edges g = 0)) as [He|He].
    - eexists. split; [apply set_dstdata_ok; rewrite nrows_zeros; exact Hnd |].
      apply same_topology_dst.
    - exists g. split; [reflexivity | apply same_topology_refl]. }
  destruct Hpre as (g1 & Hpre & Htop1).
  rewrite (bind_ok _ _ _ _ _ Hpre).
  rewrite decide_False by (rewrite Htag; discriminate).
  rewrite decide_True by exact Htag.
  unfold gcn_branch.
  destruct (gcn_store_spec self lin g g1 feat fs fd Hb Hcs Hns Hcd Hnd Hchk Hsp Htop1)
    as (g3 & Hst & Htop3 & Hsrc & Hdst & Hother).
  rewrite (bind_ok _ _ _ _ _ Hst). fold L in Hsrc, Hdst.
  assert (Hrows_s : Forall (fun r => length r = in_features L) (rowsT fs)).
  { unfold wfT in Hwfs. rewrite Hcs in Hwfs. exact Hwfs. }
  assert (Hrows_d : Forall (fun r => length r = in_features L) (rowsT fd)).
  { unfold wfT in Hwfd. rewrite Hcd in Hwfd. exact Hwfd. }
  assert (Hrange' : forall es, es ⊆ edge_list g ->
            Forall (fun e => e.1 < length (rowsT fs)) es).
  { intros es Hes. apply Forall_forall. intros e He.
    unfold edges_in_range in Hrange. rewrite Forall_forall in Hrange.
    fold (nrows fs). rewrite Hns. apply Hrange, Hes, He. }
  rewrite (gcn_reduce_spec self lin g g3 (projected L lin fs) (projected L lin fd)
             Htop3 Hsrc Hdst).
  - (* the two orders of projection *)
    cbv zeta. unfold projected. destruct lin eqn:Elin; cbn [negb cols rowsT].
    + f_equal. f_equal. apply map_ext_in. intros v Hv.
      apply in_seq in Hv. simpl in Hv.
      unfold gcn_aggregate_row. rewrite HWl.
      rewrite (gathered_map (weight L) (in_neighbours g v) (rowsT fs)).
      2:{ apply Hrange'. unfold in_neighbours. intros e He.
          apply list_elem_of_filter in He. apply He. }
      rewrite map_fmap, list_lookup_fmap.
      destruct (lookup_lt_is_Some_2 (rowsT fd) v ltac:(fold (nrows fd); lia)) as [x ->].
      reflexivity.
    + rewrite Linear_call_nobias by (try exact Hb; cbn [cols]; exact Hcs).
      cbn [rowsT]. rewrite map_map. rewrite Hcs. reflexivity.
  - unfold projected. destruct lin; cbn [cols rowsT].
    + rewrite (gathered_map (weight L) (edge_list g) (rowsT fs)) by (apply Hrange'; done).
      apply Forall_forall. intros r Hr. rewrite map_fmap in Hr.
      apply list_elem_of_fmap in Hr as [x [-> _]]. rewrite matvec_length. exact HWl.
    + rewrite Hcs. apply (gathered_wf (in_features L) (edge_list g) (rowsT fs) Hrows_s).
      apply Hrange'. done.
  - unfold projected, wfT. destruct lin; cbn [cols rowsT]; [| exact Hwfd].
    apply Forall_forall. intros r Hr. rewrite map_fmap in Hr.
    apply list_elem_of_fmap in Hr as [x [-> _]]. rewrite matvec_length. exact HWl.
  - unfold projected. destruct lin; cbn [cols]; congruence.
  - unfold projected, nrows. destruct lin; cbn [rowsT]; rewrite ?length_map; exact Hnd.
Qed.

Lemma prepare_single (self : SAGEConv) (g : DGLGraph) (t : Tensor) (gen : Generator) :
  let fs := (prepare self g (FeatTensor t) gen).1 in
  fs.2 = if is_block g then t_take (number_of_dst_nodes g) fs.1 else fs.1.
Proof.
  unfold prepare. destruct (Dropout_call _ _ _) as [x g1].
  destruct (is_block g); reflexivity.
Qed.

(** C1 (as the code has it).  For the gcn variant called without edge
    weights, on a layer of the current layout with a bias-free neighbour
    projection, with working features of the projection's input width and
    one row per node on each side, a feature pair being given only for a
    graph with separate source and destination nodes: on every graph, with
    or without edges, the neighbour aggregate of every destination node with
    in-degree d is (sum of the incoming neighbours' features + the node's
    own feature) / (d + 1), the projection being applied to both terms
    before the sum when [in_src_feats > out_feats] and once to the quotient
    otherwise. *)
Theorem gcn_neighbour_aggregate (self : SAGEConv) (graph : DGLGraph) (feat : feat_t)
    (gen : Generator) :
  let L := fc_neigh self in
  let fs := (prepare self graph feat gen).1 in
  _aggre_type self = "gcn" -> bias self <> None ->
  wfLinear L -> lbias L = None -> _in_src_feats self = in_features L ->
  wfT fs.1 -> cols fs.1 = in_features L -> nrows fs.1 = number_of_src_nodes graph ->
  wfT fs.2 -> cols fs.2 = in_features L -> nrows fs.2 = number_of_dst_nodes graph ->
  edges_in_range graph ->
  check_eq_shape feat = Ok tt ->
  pair_on_separate_sides graph feat ->
  gcn_aggregate_as_worded self graph feat None gen.
Proof.
  intros L fs Htag Hbias HW Hb Hin Hwfs Hcs Hns Hwfd Hcd Hnd Hrange Hchk Hpair.
  unfold gcn_aggregate_as_worded, neighbour_aggregate.
  rewrite (compatibility_check_has_bias self Hbias).
  rewrite edge_setup_spec. fold fs. fold L. cbv zeta.
  apply (message_passing_gcn self graph feat fs.1 fs.2); try assumption.
  destruct feat as [t|s d]; [| exact Hpair]. apply prepare_single.
Qed.

End GCN.

(** ** Closed forms and edge cases of the forward pass *)

Section MeanFormula.
Context `{Torch}.

Lemma mean_rows_unweighted (g : DGLGraph) (c : nat) (rows : list Vec) :
  mean_rows g None c rows =
  map (fun v => vscale (Qc_of_nat (Nat.max (length (gathered (in_neighbours g v) rows)) 1))
                  (vsum c (gathered (in_neighbours g v) rows)))
      (seq 0 (number_of_dst_nodes g)).
Proof.
  unfold mean_rows. apply map_ext. intros v. unfold edge_messages.
  rewrite mailbox_gathered. reflexivity.
Qed.

Lemma message_passing_mean (self : SAGEConv) (g : DGLGraph) (feat : feat_t)
    (fs fd : Tensor) :
  let L := fc_neigh self in
  _aggre_type self = "mean" ->
  wfLinear L -> lbias L = None ->
  wfT fs -> cols fs = in_features L -> nrows fs = number_of_src_nodes g ->
  edges_in_range g ->
  number_of_edges g <> 0 ->
  (message_passing self (copy_src "h" "m") feat fs fd g).1 =
    Ok (mkT (out_features L)
          (map (fun v => mean_aggregate_row (weight L) (in_features L)
                           (gathered (in_neighbours g v) (rowsT fs)))
             (seq 0 (number_of_dst_nodes g)))).
Proof.
  intros L Htag [HWl HWr] Hb Hwf Hc Hn Hrange He.
  unfold message_passing. fold L.
  unfold bind at 1. unfold gets at 1.
  rewrite decide_False by exact He.
  change (bind (ret tt) ?k g) with (k tt g). cbv beta zeta.
  rewrite decide_True by exact Htag.
  assert (Hrows : Forall (fun r => length r = in_features L) (rowsT fs)).
  { unfold wfT in Hwf. rewrite Hc in Hwf. exact Hwf. }
  assert (Hes : Forall (fun e => e.1 < length (rowsT fs)) (edge_list g)).
  { fold (nrows fs). rewrite Hn. exact Hrange. }
  assert (Hcore1 := mean_core g (copy_src "h" "m") None
            (mkT (out_features L) (map (matvec (weight L)) (rowsT fs)))).
  assert (Hcore2 := mean_core g (copy_src "h" "m") None fs).
  unfold nrows in Hcore1, Hcore2, Hn. cbn [rowsT cols] in Hcore1.
  rewrite length_map in Hcore1.
  specialize (Hcore1 Hn eq_refl). specialize (Hcore2 Hn eq_refl).
  assert (Hgoal : mean_rows g None (in_features L) (rowsT fs) =
                  map (fun v => vscale (Qc_of_nat (Nat.max
                                  (length (gathered (in_neighbours g v) (rowsT fs))) 1))
                                  (vsum (in_features L)
                                     (gathered (in_neighbours g v) (rowsT fs))))
                    (seq 0 (number_of_dst_nodes g))) by apply mean_rows_unweighted.
  unfold mean_branch. fold L.
  destruct (bool_decide (_out_feats self < _in_src_feats self)).
  - rewrite (Linear_call_nobias L fs Hb Hc).
    change (bind (lift (Ok ?h)) ?k g) with (k h g). cbv beta. cbn [negb].
    change (fun h_neigh : Tensor => ret h_neigh)
      with (fun h_neigh : Tensor => @lift DGLGraph _ (Ok h_neigh)).
    rewrite (bind_fst_tail _ _ _ Ok g _ Hcore1).
    rewrite <- HWl.
    rewrite (mean_rows_map (weight L) (in_features L) g None _ Hrows Hes I).
    rewrite Hgoal, map_map. reflexivity.
  - change (bind (ret ?h) ?k g) with (k h g). cbv beta. cbn [negb].
    rewrite (bind_fst_tail _ _ _ (Linear_call L) g _ Hcore2).
    rewrite Linear_call_nobias by (try exact Hb; cbn [cols]; exact Hc).
    cbn [rowsT]. rewrite Hc, Hgoal, map_map. reflexivity.
Qed.

(** X1.  The mean variant in closed form, without edge weights, on a graph
    with at least one edge: the aggregate of every destination node is the
    neighbour projection of the mean of its incoming neighbours' features
    (of the zero vector for a node without incoming edges), whichever side
    of the reduction the projection is applied on. *)
Theorem mean_neighbour_aggregate (self : SAGEConv) (graph : DGLGraph) (feat : feat_t)
    (gen : Generator) :
  let L := fc_neigh self in
  let fs := (prepare self graph feat gen).1 in
  _aggre_type self = "mean" -> bias self <> None ->
  wfLinear L -> lbias L = None ->
  wfT fs.1 -> cols fs.1 = in_features L -> nrows fs.1 = number_of_src_nodes graph ->
  edges_in_range graph ->
  number_of_edges graph <> 0 ->
  neighbour_aggregate self graph feat None gen =
    Ok (mkT (out_features L)
          (map (fun v => mean_aggregate_row (weight L) (in_features L)
                           (gathered (in_neighbours graph v) (rowsT fs.1)))
             (seq 0 (number_of_dst_nodes graph)))).
Proof.
  intros L fs Htag Hbias HW Hb Hwf Hc Hn Hrange He.
  unfold neighbour_aggregate.
  rewrite (compatibility_check_has_bias self Hbias).
  rewrite edge_setup_spec. fold fs. cbv zeta.
  apply (message_passing_mean self graph feat fs.1 fs.2); assumption.
Qed.
End MeanFormula.

Section ShapesOfResults.

Lemma length_stretch {A} (d : A) (n : nat) (l : list A) : length (stretch d n l) = n.
Proof. unfold stretch. case_decide; [assumption | apply length_replicate]. Qed.

Lemma t_binop_ok (op : Qc -> Qc -> Qc) (a b : Tensor) (r c : nat) :
  bdim (nrows a) (nrows b) = Some r -> bdim (cols a) (cols b) = Some c ->
  t_binop op a b =
    Ok (mkT c (zip_with (vec_binop op c) (stretch [] r (rowsT a)) (stretch [] r (rowsT b)))).
Proof. unfold t_binop. intros -> ->. reflexivity. Qed.

Lemma t_binop_shape (op : Qc -> Qc -> Qc) (a b t : Tensor) :
  t_binop op a b = Ok t ->
  bdim (nrows a) (nrows b) = Some (nrows t) /\ bdim (cols a) (cols b) = Some (cols t).
Proof.
  unfold t_binop.
  destruct (bdim (nrows a) (nrows b)) as [r|] eqn:Er;
    destruct (bdim (cols a) (cols b)) as [c|] eqn:Ec; try (intros [=]; fail).
  intros [= <-]. cbn [cols]. split; [| reflexivity]. f_equal.
  unfold nrows. cbn [rowsT].
  rewrite length_zip_with, !length_stretch, Nat.min_id. reflexivity.
Qed.

Lemma t_binop_err (op : Qc -> Qc -> Qc) (a b : Tensor) (e : exn) :
  t_binop op a b = Err e -> e = RuntimeError.
Proof.
  unfold t_binop. destruct (bdim _ _); [destruct (bdim _ _) |]; intros [=]; auto.
Qed.

Lemma nrows_Linear_call (L : Linear) (x h : Tensor) :
  Linear_call L x = Ok h -> nrows h = nrows x.
Proof.
  unfold Linear_call. case_decide; [| intros [=]].
  destruct (lbias L) as [b|].
  - intros Ht. apply t_binop_shape in Ht as (Hr & _).
    unfold nrows at 1 in Hr. cbn [rowsT] in Hr. rewrite length_map in Hr.
    change (nrows (row_tensor b)) with 1 in Hr. rewrite bdim_1_r in Hr.
    injection Hr as Hr. symmetry. exact Hr.
  - intros [= <-]. unfold nrows; cbn [rowsT]. apply length_map.
Qed.

Lemma Linear_call_zeros (L : Linear) (n : nat) :
  lbias L = None -> length (weight L) = out_features L ->
  Linear_call L (zeros n (in_features L)) = Ok (zeros n (out_features L)).
Proof.
  intros Hb HW. rewrite Linear_call_nobias by (try exact Hb; reflexivity).
  unfold zeros. cbn [rowsT]. rewrite map_fmap, fmap_replicate, matvec_zeros, HW.
  reflexivity.
Qed.

End ShapesOfResults.

Section NoEdges.
Context `{Torch}.

Lemma message_passing_no_edges (self : SAGEConv) msg_fn feat fs fd (g : DGLGraph) :
  number_of_edges g = 0 -> nrows fd = number_of_dst_nodes g ->
  exists g1,
    same_topology g g1 /\
    dstdata g1 !! "neigh" = Some (zeros (number_of_dst_nodes g) (_in_src_feats self)) /\
    message_passing self msg_fn feat fs fd g =
      (if decide (_aggre_type self = "mean") then
         mean_branch self (bool_decide (_out_feats self < _in_src_feats self)) msg_fn fs
       else if decide (_aggre_type self = "gcn") then
         gcn_branch self (bool_decide (_out_feats self < _in_src_feats self)) msg_fn feat fs fd
       else if decide (_aggre_type self = "pool") then pool_branch self msg_fn fs
       else if decide (_aggre_type self = "lstm") then lstm_branch self msg_fn fs
       else raise (KeyError (not_recognized (_aggre_type self)))) g1.
Proof.
  intros He Hn.
  exists (with_dst_frame
            (<["neigh" := zeros (nrows fd) (_in_src_feats self)]> (dstdata g)) g).
  split; [apply same_topology_dst |]. split.
  - rewrite dstdata_with_dst_frame, lookup_insert_eq, Hn. reflexivity.
  - unfold message_passing. unfold bind at 1. unfold gets at 1.
    rewrite decide_True by exact He.
    rewrite (bind_ok _ _ _ _ _ (set_dstdata_ok "neigh" _ g
               ltac:(rewrite nrows_zeros; exact Hn))).
    reflexivity.
Qed.

Lemma edge_setup_topology (g : DGLGraph) (ew : option Tensor) :
  one_weight_per_edge g ew ->
  exists msg_fn g1, edge_setup ew g = (Ok msg_fn, g1) /\ same_topology g g1 /\
                    dstdata g1 = dstdata g /\ srcdata g1 = srcdata g.
Proof.
  intros Hw. rewrite edge_setup_spec. destruct ew as [w|].
  - simpl in Hw. rewrite decide_True by exact Hw.
    do 2 eexists. split; [reflexivity |]. repeat split.
  - do 2 eexists. split; [reflexivity |]. repeat split.
Qed.

End NoEdges.

Section ForwardResult.
Context `{Torch}.

Lemma forward_result (self : SAGEConv) (graph : DGLGraph) (feat : feat_t)
    (edge_weight : option Tensor) (gen : Generator) :
  bias self <> None ->
  (forward self graph feat edge_weight gen).1 =
    rbind (neighbour_aggregate self graph feat edge_weight gen)
          (combine self (prepare self graph feat gen).1.2).
Proof.
  intros Hb. rewrite forward_unfold. unfold neighbour_aggregate.
  rewrite (compatibility_check_has_bias self Hb). cbv zeta.
  rewrite forward_scope_unfold.
  destruct (edge_setup edge_weight graph) as [[msg_fn|e] g1]; [| reflexivity].
  destruct (message_passing _ _ _ _ _ _) as [[h|e] g2]; reflexivity.
Qed.

End ForwardResult.

Section ShapeCheck.
Context `{Torch}.

(** X6.  The gcn variant rejects a feature pair whose two tensors differ in
    width with [DGLError], whatever the graph. *)
Theorem gcn_pair_width_mismatch (self : SAGEConv) (graph : DGLGraph) (s d : Tensor)
    (edge_weight : option Tensor) (gen : Generator) :
  _aggre_type self = "gcn" -> bias self <> None ->
  one_weight_per_edge graph edge_weight ->
  cols s <> cols d ->
  (forward self graph (FeatPair s d) edge_weight gen).1 = Err DGLError.
Proof.
  intros Htag Hbias Hw Hc.
  rewrite forward_unfold, (compatibility_check_has_bias self Hbias). cbv zeta.
  rewrite forward_scope_unfold.
  destruct (edge_setup_topology graph edge_weight Hw) as (msg_fn & g1 & -> & _).
  set (fs := (prepare self graph (FeatPair s d) gen).1).
  assert (Hmp : (message_passing self msg_fn (FeatPair s d) fs.1 fs.2 g1).1 = Err DGLError).
  { unfold message_passing. unfold bind at 1. unfold gets at 1.
    unfold bind at 1.
    assert (Hstore : forall lin g,
              (gcn_branch self lin msg_fn (FeatPair s d) fs.1 fs.2 g).1 = Err DGLError).
    { intros lin g. unfold gcn_branch, gcn_store. unfold bind at 1. unfold bind at 1.
      unfold check_eq_shape, lift. rewrite decide_False by exact Hc. reflexivity. }
    case_decide.
    - unfold set_dstdata. case_decide; [| reflexivity].
      rewrite decide_False by (rewrite Htag; discriminate).
      rewrite decide_True by exact Htag. apply Hstore.
    - unfold ret. rewrite decide_False by (rewrite Htag; discriminate).
      rewrite decide_True by exact Htag. apply Hstore. }
  destruct (message_passing _ _ _ _ _ _) as [[h|e] g2]; cbn [fst] in *; congruence.
Qed.

End ShapeCheck.

Section FailedMigration.
Context `{Torch}.

(** X7.  An old-layout layer whose neighbour projection carries a bias while
    its self projection carries none: the check raises [TypeError] after it
    has cleared the neighbour projection's bias, [forward] raises with it and
    leaves the layer in that state, and the next check succeeds with the
    unified bias [None], so the neighbour bias is lost. *)
Theorem compatibility_check_half_migrates (self : SAGEConv) (bv : Vec) (S : Linear) :
  let self1 := set_fc_neigh (set_lbias None (fc_neigh self)) self in
  bias self = None -> lbias (fc_neigh self) = Some bv ->
  fc_self self = Some S -> lbias S = None ->
  _compatibility_check self = (Err TypeError, self1) /\
  _compatibility_check self1 = (Ok tt, set_bias (Some None) self1) /\
  (forall graph feat edge_weight gen,
     forward self graph feat edge_weight gen = (Err TypeError, (self1, graph, gen))).
Proof.
  intros self1 Hb Hn HS HSb.
  assert (Hc : _compatibility_check self = (Err TypeError, self1)).
  { unfold _compatibility_check, bind, gets, ret, modify, lift, raise; simpl.
    rewrite Hb, Hn, HS, HSb. reflexivity. }
  split; [exact Hc |]. split.
  - unfold _compatibility_check, bind, gets, ret, modify, lift, raise. subst self1.
    cbn. rewrite Hb. cbn. rewrite HS. reflexivity.
  - intros graph feat edge_weight gen. unfold forward. rewrite Hc. reflexivity.
Qed.

End FailedMigration.

(** ** The layout of constructed layers, and further closed forms *)

Section Layout.
Context `{Torch}.

Lemma reset_parameters_layout (self : SAGEConv) (gen : Generator) :
  wp reset_parameters (fun _ s' => layout s'.1 = layout self) (self, gen).
Proof.
  unfold reset_parameters.
  repeat first
    [ wp_step
    | apply wp_sample; intros ? ? ?; cbn [fst snd]
    | apply wp_update; cbn [fst snd]
    | case_decide
    | match goal with
      | |- match ?o with Some _ => _ | None => _ end => destruct o eqn:?
      end ].
  all: unfold layout; simpl in *.
  all: repeat match goal with
         | E : _ = Some _ |- _ => rewrite E
         | E : _ = None |- _ => rewrite E
         end; try reflexivity.
Qed.

Lemma reset_times_layout (n : nat) (self : SAGEConv) (gen : Generator) :
  layout (reset_times n (self, gen)).2.1 = layout self.
Proof.
  revert self gen. induction n as [|n IH]; intros self gen; simpl; [reflexivity |].
  unfold bind. pose proof (reset_parameters_layout self gen) as Hw. unfold wp in Hw.
  destruct (reset_parameters (self, gen)) as [[[]|e] [s' g']]; simpl in *.
  - rewrite IH. exact Hw.
  - exact Hw.
Qed.

(** X8.  A layer built by [__init__], after any number of further calls of
    [reset_parameters], has the configuration it was given and projections
    of these signatures: [fc_neigh] maps [in_src_feats] to [out_feats]
    without a bias; [fc_self], for every variant but gcn, maps
    [in_dst_feats] to [out_feats] without a bias; [fc_pool], for the pool
    variant, maps [in_src_feats] to [in_src_feats] and carries a bias. *)
Theorem constructed_layout (n : nat) (in_feats : nat + nat * nat) (out_feats : nat)
    (tag : string) (p : Qc) (b : bool) nm act (gen : Generator) :
  let self := (reset_times n (__init__ in_feats out_feats tag p b nm act gen).2).2.1 in
  let in_src := (expand_as_pair in_feats).1 in
  let in_dst := (expand_as_pair in_feats).2 in
  layout self =
    ((in_src, in_dst, out_feats, tag),
     ((in_src, out_feats, false),
      (if decide (tag <> "gcn") then Some (in_dst, out_feats, false) else None),
      (if decide (tag = "pool") then Some (in_src, in_src, true) else None))).
Proof.
  intros self in_src in_dst. subst self.
  destruct (__init__ in_feats out_feats tag p b nm act gen) as [r [s0 g0]] eqn:E.
  cbn [snd]. rewrite reset_times_layout.
  assert (Hs : s0 = (__init__ in_feats out_feats tag p b nm act gen).2.1)
    by (rewrite E; reflexivity).
  subst s0. clear E. unfold __init__. subst in_src in_dst.
  destruct (expand_as_pair in_feats) as [in_src in_dst]. cbn [fst snd].
  unfold nn_Linear.
  destruct (decide (tag = "pool")); destruct (decide (tag = "lstm"));
    destruct (decide (tag <> "gcn")).
  all: repeat match goal with
         | |- context [init_weight ?o ?i ?g] => destruct (init_weight o i g)
         | |- context [init_bias ?o ?i ?g] => destruct (init_bias o i g)
         | |- context [nn_LSTM ?o ?i ?g] => destruct (nn_LSTM o i g)
         end.
  all: match goal with
       | |- context [bind ?m ?k (?s, ?g)] =>
           set (run := bind m k (s, g));
           assert (Hrun : run = reset_parameters (s, g) \/
                          run = (Err ValueError, (s, g)))
             by (subst run; unfold bind, lift, nn_Dropout, LSTM_check;
                 repeat destruct (Qclt_le_dec _ _); repeat case_decide; auto);
           destruct Hrun as [-> | ->]
       end.
  all: try match goal with
       | |- layout (reset_parameters (?s, ?g)).2.1 = _ =>
           pose proof (reset_parameters_layout s g) as Hw; unfold wp in Hw;
           cbn [fst] in Hw; rewrite Hw
       end.
  all: reflexivity.
Qed.

End Layout.

Section PoolFormula.
Context `{Torch}.

Lemma update_all_max (g : DGLGraph) (hs : Tensor) :
  srcdata g !! "h" = Some hs ->
  update_all (copy_src "h" "m") (fn_max "m" "neigh") g =
    (Ok tt,
     with_dst_frame
       (<["neigh" :=
            mkT (cols hs)
              (map (fun v => vmax (cols hs) (gathered (in_neighbours g v) (rowsT hs)))
                 (seq 0 (number_of_dst_nodes g)))]> (dstdata g)) g).
Proof.
  intros Hs.
  rewrite (update_all_builtin (fn_max "m" "neigh") g (copy_src "h" "m") None hs (cols hs)
             I Hs (conj eq_refl eq_refl)).
  unfold reduced_messages, edge_messages. cbn [reduce_out reduce_builtin].
  do 4 f_equal. apply map_ext. intros v. rewrite mailbox_gathered. reflexivity.
Qed.

(** X9.  The pool variant in closed form, without edge weights, on a graph
    with at least one edge: with [h = fc_pool(feat_src)], the aggregate of
    every destination node is the neighbour projection of the elementwise
    maximum of [relu(h)] over its incoming neighbours (of zeros for a node
    without incoming edges).  The neighbour projection always follows the
    reduction, whatever the widths. *)
Theorem pool_neighbour_aggregate (self : SAGEConv) (graph : DGLGraph) (feat : feat_t)
    (gen : Generator) (P : Linear) (h : Tensor) :
  let L := fc_neigh self in
  let fs := (prepare self graph feat gen).1 in
  _aggre_type self = "pool" -> bias self <> None ->
  fc_pool self = Some P -> Linear_call P fs.1 = Ok h ->
  nrows fs.1 = number_of_src_nodes graph ->
  lbias L = None -> cols h = in_features L ->
  number_of_edges graph <> 0 ->
  neighbour_aggregate self graph feat None gen =
    Ok (mkT (out_features L)
          (map (fun v => pool_aggregate_row (weight L) (cols h)
                           (gathered (in_neighbours graph v) (rowsT (t_map relu h))))
             (seq 0 (number_of_dst_nodes graph)))).
Proof.
  intros L fs Htag Hbias HP Hh Hn Hb Hc He.
  unfold neighbour_aggregate.
  rewrite (compatibility_check_has_bias self Hbias).
  rewrite edge_setup_spec. fold fs. cbv zeta.
  unfold message_passing. unfold bind at 1. unfold gets at 1.
  rewrite decide_False by exact He.
  change (bind (ret tt) ?k graph) with (k tt graph). cbv beta zeta.
  rewrite decide_False by (rewrite Htag; discriminate).
  rewrite decide_False by (rewrite Htag; discriminate).
  rewrite decide_True by exact Htag.
  unfold pool_branch. rewrite HP, Hh.
  change (bind (lift (Ok ?x)) ?k graph) with (k x graph). cbv beta.
  assert (Hnr : nrows (t_map relu h) = number_of_src_nodes graph).
  { unfold t_map, nrows. cbn [rowsT]. rewrite length_map. fold (nrows h).
    rewrite (nrows_Linear_call _ _ _ Hh). exact Hn. }
  rewrite (bind_ok _ _ _ _ _ (set_srcdata_ok "h" _ graph Hnr)).
  set (g2 := with_src_frame _ graph).
  assert (Hs2 : srcdata g2 !! "h" = Some (t_map relu h)) by apply lookup_insert_eq.
  rewrite (bind_ok _ _ _ _ _ (update_all_max g2 _ Hs2)).
  unfold get_dstdata.
  rewrite (bind_ok _ _ _ _ _ (get_frame_ok dstdata "neigh" _ _
             ltac:(rewrite dstdata_with_dst_frame; apply lookup_insert_eq))).
  unfold lift. cbn [fst].
  rewrite Linear_call_nobias by (try exact Hb; exact Hc).
  cbn [rowsT cols t_map]. rewrite map_map. reflexivity.
Qed.

End PoolFormula.

Section SharedFrame.
Context `{Torch}.

Lemma bind_fst_eq {S A B} (m m' : ST S A) (k : A -> ST S B) (s : S) :
  (m s).1 = (m' s).1 ->
  (forall a, (m s).1 = Ok a -> (m s).2 = (m' s).2) ->
  (bind m k s).1 = (bind m' k s).1.
Proof.
  unfold bind. destruct (m s) as [[a|e] s1], (m' s) as [[a'|e'] s1']; simpl;
    intros Hr Hs; try discriminate.
  - injection Hr as <-. rewrite (Hs a eq_refl). reflexivity.
  - injection Hr as <-. reflexivity.
Qed.

Lemma store_twice_homogeneous (g : DGLGraph) (hs hs' hd : Tensor) :
  gkind g = Homogeneous ->
  with_dst_frame (<["h" := hd]> (dstdata (with_src_frame (<["h" := hs]> (srcdata g)) g)))
    (with_src_frame (<["h" := hs]> (srcdata g)) g) =
  with_dst_frame (<["h" := hd]> (dstdata (with_src_frame (<["h" := hs']> (srcdata g)) g)))
    (with_src_frame (<["h" := hs']> (srcdata g)) g).
Proof.
  intros K. unfold with_dst_frame, dstdata, with_src_frame, srcdata. simpl.
  rewrite K. simpl. rewrite !insert_insert_eq. reflexivity.
Qed.

Lemma gcn_store_pair_homogeneous (self : SAGEConv) (lin : bool) (s s' d fd : Tensor)
    (g : DGLGraph) :
  gkind g = Homogeneous -> lbias (fc_neigh self) = None ->
  cols s = cols s' -> nrows s = nrows s' ->
  (gcn_store self lin (FeatPair s d) s fd g).1 =
    (gcn_store self lin (FeatPair s' d) s' fd g).1 /\
  (forall a, (gcn_store self lin (FeatPair s d) s fd g).1 = Ok a ->
     (gcn_store self lin (FeatPair s d) s fd g).2 =
       (gcn_store self lin (FeatPair s' d) s' fd g).2).
Proof.
  intros K Hb Hc Hn. unfold gcn_store, check_eq_shape. rewrite <- Hc.
  destruct (decide (cols s = cols d)) as [Hsd|Hsd]; [| split; [reflexivity | discriminate]].
  change (bind (lift (Ok tt)) ?k g) with (k tt g). cbv beta.
  assert (Hproj : exists hs hs',
            (if lin then lift (Linear_call (fc_neigh self) s) else ret s) =
              @lift DGLGraph _ (Ok hs) /\
            (if lin then lift (Linear_call (fc_neigh self) s') else ret s') =
              @lift DGLGraph _ (Ok hs') /\
            nrows hs = nrows hs'
          \/ lin = true /\ cols s <> in_features (fc_neigh self)).
  { destruct lin.
    - destruct (decide (cols s = in_features (fc_neigh self))) as [Hi|Hi].
      + do 2 eexists. left.
        rewrite (Linear_call_nobias _ s Hb Hi).
        rewrite (Linear_call_nobias _ s' Hb ltac:(congruence)).
        split; [reflexivity |]. split; [reflexivity |].
        unfold nrows in *. cbn [rowsT]. rewrite !length_map. exact Hn.
      + exists s, s'. right. auto.
    - exists s, s'. left. auto. }
  destruct Hproj as (hs & hs' & [(-> & -> & Hnh) | (-> & Hi)]).
  - change (bind (lift (Ok ?x)) ?k g) with (k x g). cbv beta.
    assert (Hm : forall x, nrows x = nrows hs ->
              (let* _ := set_srcdata "h" x in
               let* hd := (if lin then lift (Linear_call (fc_neigh self) fd) else ret fd) in
               set_dstdata "h" hd) g =
              let g1 := with_src_frame (<["h" := x]> (srcdata g)) g in
              if decide (nrows hs = number_of_src_nodes g) then
                match (if lin then Linear_call (fc_neigh self) fd else Ok fd) with
                | Ok t =>
                    if decide (nrows t = number_of_dst_nodes g)
                    then (Ok tt, with_dst_frame (<["h" := t]> (dstdata g1)) g1)
                    else (Err DGLError, g1)
                | Err e => (Err e, g1)
                end
              else (Err DGLError, g)).
    { intros x Hx. cbv zeta. unfold bind at 1. unfold set_srcdata. rewrite Hx.
      case_decide; [| reflexivity].
      unfold bind. destruct lin; unfold lift, ret;
        [destruct (Linear_call _ _); [| reflexivity] |]; unfold set_dstdata;
        change (number_of_dst_nodes (with_src_frame ?f g)) with (number_of_dst_nodes g);
        reflexivity. }
    rewrite (Hm hs eq_refl), (Hm hs' (eq_sym Hnh)). cbv zeta.
    case_decide; [| split; [reflexivity | discriminate]].
    destruct (if lin then Linear_call (fc_neigh self) fd else Ok fd) as [t|e];
      [| split; [reflexivity | discriminate]].
    case_decide; [| split; [reflexivity | discriminate]].
    cbn [fst snd]. split; [reflexivity |]. intros _ _.
    apply store_twice_homogeneous. exact K.
  - unfold bind, lift, Linear_call.
    rewrite decide_False by exact Hi. rewrite decide_False by congruence.
    split; [reflexivity | discriminate].
Qed.

Lemma message_passing_unfold (self : SAGEConv) msg_fn feat fs fd (g : DGLGraph) :
  message_passing self msg_fn feat fs fd g =
  match (if decide (number_of_edges g = 0)
         then set_dstdata "neigh" (zeros (nrows fd) (_in_src_feats self))
         else ret tt) g with
  | (Ok _, g2) =>
      (if decide (_aggre_type self = "mean") then
         mean_branch self (bool_decide (_out_feats self < _in_src_feats self)) msg_fn fs
       else if decide (_aggre_type self = "gcn") then
         gcn_branch self (bool_decide (_out_feats self < _in_src_feats self)) msg_fn feat fs fd
       else if decide (_aggre_type self = "pool") then pool_branch self msg_fn fs
       else if decide (_aggre_type self = "lstm") then lstm_branch self msg_fn fs
       else raise (KeyError (not_recognized (_aggre_type self)))) g2
  | (Err e, g2) => (Err e, g2)
  end.
Proof. reflexivity. Qed.

(** X10.  On a graph with one node type the source and the destination
    frame are one store, so in the gcn variant the destination features
    written under ['h'] replace the source features written just before:
    with dropout as the identity, the result of [forward] on a feature pair
    does not depend on the values of the source tensor, only on its shape. *)
Theorem gcn_pair_shared_frame (self : SAGEConv) (graph : DGLGraph) (s s' d : Tensor)
    (edge_weight : option Tensor) (gen : Generator) :
  _aggre_type self = "gcn" -> bias self <> None ->
  lbias (fc_neigh self) = None ->
  (forall t g, Dropout_call (feat_drop self) t g = (t, g)) ->
  gkind graph = Homogeneous ->
  cols s = cols s' -> nrows s = nrows s' ->
  (forward self graph (FeatPair s d) edge_weight gen).1 =
    (forward self graph (FeatPair s' d) edge_weight gen).1.
Proof.
  intros Htag Hbias Hb Hdrop K Hc Hn.
  rewrite !forward_unfold, (compatibility_check_has_bias self Hbias). cbv zeta.
  unfold prepare. rewrite !Hdrop. cbn [fst snd].
  rewrite !forward_scope_unfold.
  destruct (edge_setup edge_weight graph) as [[msg_fn|e] g1] eqn:Es; [| reflexivity].
  assert (K1 : gkind g1 = Homogeneous).
  { rewrite edge_setup_spec in Es. destruct edge_weight as [w|].
    - case_decide; [| discriminate]. injection Es as _ <-. exact K.
    - injection Es as _ <-. exact K. }
  enough (Hmp : (message_passing self msg_fn (FeatPair s d) s d g1).1 =
                (message_passing self msg_fn (FeatPair s' d) s' d g1).1).
  { destruct (message_passing self msg_fn (FeatPair s d) s d g1) as [[h|e] g2],
             (message_passing self msg_fn (FeatPair s' d) s' d g1) as [[h'|e'] g2'];
      cbn [fst] in *; congruence. }
  rewrite !message_passing_unfold.
  destruct ((if decide (number_of_edges g1 = 0)
             then set_dstdata "neigh" (zeros (nrows d) (_in_src_feats self))
             else ret tt) g1) as [[[]|e] g2] eqn:Ez; [| reflexivity].
  assert (K2 : gkind g2 = Homogeneous).
  { case_decide.
    - unfold set_dstdata in Ez. case_decide; [| discriminate].
      injection Ez as <-. unfold with_dst_frame, with_src_frame. rewrite K1. reflexivity.
    - injection Ez as <-. exact K1. }
  destruct (decide (_aggre_type self = "mean")) as [E|_];
    [rewrite Htag in E; discriminate |].
  destruct (decide (_aggre_type self = "gcn")) as [_|E]; [| contradiction].
  unfold gcn_branch.
  destruct (gcn_store_pair_homogeneous self
              (bool_decide (_out_feats self < _in_src_feats self)) s s' d d g2 K2 Hb Hc Hn)
    as [H1 H2].
  apply bind_fst_eq; assumption.
Qed.

End SharedFrame.

Section LayerEquation.
Context `{Torch}.

Lemma stretch_singleton {A} (d x : A) (n : nat) : stretch d n [x] = replicate n x.
Proof.
  unfold stretch. case_decide as Hn; [| reflexivity].
  simpl in Hn. subst n. reflexivity.
Qed.

Lemma t_add_row (s : Tensor) (bv : Vec) :
  wfT s -> length bv = cols s ->
  t_add s (row_tensor bv) =
    Ok (mkT (cols s) (map (fun r => zip_with Qcplus r bv) (rowsT s))).
Proof.
  intros Hs Hb. unfold t_add.
  rewrite (t_binop_ok Qcplus s (row_tensor bv) (nrows s) (cols s)).
  - do 2 f_equal. cbn [rowsT row_tensor].
    rewrite stretch_same by reflexivity. rewrite stretch_singleton.
    unfold nrows. rewrite zip_with_replicate_r_eq by reflexivity.
    rewrite <- map_fmap. apply map_ext_Forall.
    unfold wfT in Hs. eapply Forall_impl; [exact Hs |].
    intros r Hr. simpl in Hr. apply vec_binop_same; congruence.
  - apply bdim_1_r.
  - cbn [cols row_tensor]. rewrite Hb. apply bdim_same.
Qed.

(** X11.  The layer equation of the mean variant, without edge weights,
    activation or normalisation, on a graph with at least one edge: the
    output row of every destination node is the self projection of its own
    feature plus the neighbour projection of the mean of its incoming
    neighbours' features, plus the bias when there is one. *)
Theorem forward_mean_equation (self : SAGEConv) (graph : DGLGraph) (feat : feat_t)
    (gen : Generator) (S : Linear) (b : option Vec) :
  let L := fc_neigh self in
  let fs := (prepare self graph feat gen).1 in
  _aggre_type self = "mean" ->
  bias self = Some b -> activation self = None -> norm self = None ->
  match b with Some bv => length bv = out_features L | None => True end ->
  fc_self self = Some S -> lbias S = None ->
  length (weight S) = out_features S -> out_features S = out_features L ->
  wfLinear L -> lbias L = None ->
  wfT fs.1 -> cols fs.1 = in_features L -> nrows fs.1 = number_of_src_nodes graph ->
  cols fs.2 = in_features S -> nrows fs.2 = number_of_dst_nodes graph ->
  edges_in_range graph -> number_of_edges graph <> 0 ->
  (forward self graph feat None gen).1 =
    Ok (mkT (out_features L)
          (map (fun v => sage_mean_row (weight S) (weight L) b (in_features L)
                           (default [] (rowsT fs.2 !! v))
                           (gathered (in_neighbours graph v) (rowsT fs.1)))
             (seq 0 (number_of_dst_nodes graph)))).
Proof.
  intros L fs Htag Hbias Hact Hnm Hbl HS HSb HSw HSo HL Hb Hwf Hc Hn Hcd Hnd Hrange He.
  assert (Hb' : bias self <> None) by (rewrite Hbias; discriminate).
  rewrite (forward_result _ _ _ _ _ Hb'). fold fs.
  unfold neighbour_aggregate.
  rewrite (compatibility_check_has_bias self Hb').
  rewrite edge_setup_spec. fold fs. cbv zeta.
  rewrite (message_passing_mean self graph feat fs.1 fs.2 Htag HL Hb Hwf Hc Hn Hrange He).
  fold L. cbn [rbind].
  unfold combine. rewrite decide_False by (rewrite Htag; discriminate).
  rewrite HS, (Linear_call_nobias S fs.2 HSb Hcd), Hbias, Hact, Hnm. cbn [rbind].
  unfold t_add at 1.
  rewrite t_binop_same.
  - cbn [cols rowsT rbind].
    assert (Hz : map (matvec (weight S)) (rowsT fs.2) =
                 map (fun v => matvec (weight S) (default [] (rowsT fs.2 !! v)))
                   (seq 0 (number_of_dst_nodes graph))).
    { rewrite (list_as_map_seq [] (rowsT fs.2)) at 1.
      fold (nrows fs.2). rewrite Hnd, map_map. reflexivity. }
    rewrite Hz, zip_with_map_seq.
    destruct b as [bv|]; cbn [rbind].
    + rewrite t_add_row.
      * cbn [cols rowsT]. rewrite HSo, map_map. reflexivity.
      * unfold wfT. cbn [cols rowsT]. apply Forall_forall. intros r Hr.
        rewrite map_fmap in Hr. apply list_elem_of_fmap in Hr as [v [-> _]].
        rewrite length_zip_with, matvec_length. unfold mean_aggregate_row.
        rewrite matvec_length. destruct HL as [HLw _]. lia.
      * cbn [cols]. congruence.
    + rewrite HSo. reflexivity.
  - unfold nrows. cbn [rowsT]. rewrite !length_map, length_seq. exact Hnd.
  - cbn [cols]. exact HSo.
  - unfold wfT. cbn [cols rowsT]. apply Forall_forall. intros r Hr.
    rewrite map_fmap in Hr. apply list_elem_of_fmap in Hr as [x [-> _]].
    rewrite matvec_length. exact HSw.
  - unfold wfT. cbn [cols rowsT]. apply Forall_forall. intros r Hr.
    rewrite map_fmap in Hr. apply list_elem_of_fmap in Hr as [x [-> _]].
    unfold mean_aggregate_row. rewrite matvec_length. apply HL.
Qed.

End LayerEquation.

Section WeightedMean.
Context `{Torch}.

Lemma mailbox_weighted (es : list (nat * nat)) (c : nat) (rows wrows : list Vec) (v : nat) :
  Forall (fun r => length r = c) rows ->
  Forall (fun e => e.1 < length rows) es ->
  Forall (fun r => length r = 1) wrows ->
  mailbox es (mkT c (zip_with (vec_binop Qcmult c) (gathered es rows) wrows)) v =
  map (fun p => map (fun a => (a * hd 0%Qc p.2)%Qc) (default [] (rows !! p.1.1)))
      (filter (fun p => p.1.2 = v) (zip es wrows)).
Proof.
  intros Hr. unfold mailbox, gathered. cbn [rowsT]. revert wrows.
  induction es as [|e es IH]; intros [|wr wrows] He Hw; simpl; try reflexivity.
  apply Forall_cons in He as [He1 He]. apply Forall_cons in Hw as [Hw1 Hw].
  rewrite !filter_cons. cbn [fst snd].
  destruct (decide (e.2 = v)); simpl; rewrite (IH wrows He Hw); [| reflexivity].
  f_equal. destruct wr as [|k [|? ?]]; try discriminate. cbn [hd].
  apply vec_binop_scalar.
  destruct (lookup_lt_is_Some_2 rows e.1 He1) as [x Hx]. rewrite Hx. simpl.
  rewrite Forall_forall in Hr. apply Hr. eapply list_elem_of_lookup_2; eauto.
Qed.

(** X12.  The mean variant with one scalar weight per edge: the aggregate of
    a destination node is the neighbour projection of the sum of its
    incoming neighbours' features, each times the weight of its edge, divided
    by the number of incoming edges (not by the sum of the weights). *)
Theorem mean_weighted_aggregate (self : SAGEConv) (graph : DGLGraph) (feat : feat_t)
    (w : Tensor) (gen : Generator) :
  let L := fc_neigh self in
  let fs := (prepare self graph feat gen).1 in
  _aggre_type self = "mean" -> bias self <> None ->
  wfLinear L -> lbias L = None ->
  wfT fs.1 -> cols fs.1 = in_features L -> nrows fs.1 = number_of_src_nodes graph ->
  edges_in_range graph -> number_of_edges graph <> 0 ->
  scalar_edge_weight graph (Some w) ->
  neighbour_aggregate self graph feat (Some w) gen =
    Ok (mkT (out_features L)
          (map (fun v => mean_aggregate_row (weight L) (in_features L)
                           (weighted_neighbours graph w (rowsT fs.1) v))
             (seq 0 (number_of_dst_nodes graph)))).
Proof.
  intros L fs Htag Hbias [HWl HWr] Hb Hwf Hc Hn Hrange He (Hwn & Hwc & Hww).
  unfold neighbour_aggregate.
  rewrite (compatibility_check_has_bias self Hbias).
  rewrite edge_setup_spec, decide_True by exact Hwn. fold fs. cbv zeta.
  set (g1 := with_edge_frame _ graph).
  set (msg_fn := u_mul_e "h" "_edge_weight" "m").
  assert (Hsw : scalar_weighting g1 msg_fn (Some w)).
  { split; [reflexivity |]. split; [apply lookup_insert_eq | exact Hwc]. }
  assert (Hsr : scalar_rows (Some w)).
  { simpl. unfold wfT in Hww. rewrite Hwc in Hww. exact Hww. }
  assert (Hrows : Forall (fun r => length r = in_features L) (rowsT fs.1)).
  { unfold wfT in Hwf. rewrite Hc in Hwf. exact Hwf. }
  assert (Hes : Forall (fun e => e.1 < length (rowsT fs.1)) (edge_list g1)).
  { fold (nrows fs.1). rewrite Hn. exact Hrange. }
  assert (He1 : number_of_edges g1 <> 0) by exact He.
  assert (Hn1 : length (rowsT fs.1) = number_of_src_nodes g1) by exact Hn.
  assert (Hgoal : mean_rows g1 (Some w) (in_features L) (rowsT fs.1) =
                  map (fun v => vscale (Qc_of_nat (Nat.max
                                  (length (weighted_neighbours graph w (rowsT fs.1) v)) 1))
                                  (vsum (in_features L)
                                     (weighted_neighbours graph w (rowsT fs.1) v)))
                    (seq 0 (number_of_dst_nodes graph))).
  { unfold mean_rows. apply map_ext. intros v. unfold edge_messages.
    rewrite (mailbox_weighted _ _ _ _ v Hrows Hes Hsr). reflexivity. }
  assert (Hcore1 := mean_core g1 msg_fn (Some w)
            (mkT (out_features L) (map (matvec (weight L)) (rowsT fs.1)))).
  assert (Hcore2 := mean_core g1 msg_fn (Some w) fs.1).
  unfold nrows in Hcore1, Hcore2. cbn [rowsT cols] in Hcore1.
  rewrite length_map in Hcore1.
  specialize (Hcore1 Hn1 Hsw). specialize (Hcore2 Hn1 Hsw).
  unfold message_passing. fold L.
  unfold bind at 1. unfold gets at 1.
  rewrite decide_False by exact He1.
  change (bind (ret tt) ?k g1) with (k tt g1). cbv beta zeta.
  rewrite decide_True by exact Htag.
  unfold mean_branch. fold L.
  destruct (bool_decide (_out_feats self < _in_src_feats self)).
  - rewrite (Linear_call_nobias L fs.1 Hb Hc).
    change (bind (lift (Ok ?h)) ?k g1) with (k h g1). cbv beta. cbn [negb].
    change (fun h_neigh : Tensor => ret h_neigh)
      with (fun h_neigh : Tensor => @lift DGLGraph _ (Ok h_neigh)).
    rewrite (bind_fst_tail _ _ _ Ok g1 _ Hcore1).
    rewrite <- HWl.
    rewrite (mean_rows_map (weight L) (in_features L) g1 (Some w) _ Hrows Hes Hsr).
    rewrite Hgoal, map_map. reflexivity.
  - change (bind (ret ?h) ?k g1) with (k h g1). cbv beta. cbn [negb].
    rewrite (bind_fst_tail _ _ _ (Linear_call L) g1 _ Hcore2).
    rewrite Linear_call_nobias by (try exact Hb; cbn [cols]; exact Hc).
    cbn [rowsT]. rewrite Hc, Hgoal, map_map. reflexivity.
Qed.

End WeightedMean.

Section LstmFormula.
Context `{Torch}.

Lemma reduce_udf_spec (f : list Vec -> result Vec) (box : nat -> list Vec)
    (r : nat -> Vec) (vs : list nat) :
  (forall v, v ∈ vs -> box v <> [] -> f (box v) = Ok (r v)) ->
  reduce_udf f (map box vs) =
    Ok (map (fun v => if decide (box v = []) then None else Some (r v)) vs).
Proof.
  induction vs as [|v vs IH]; intros Hf; [reflexivity |].
  cbn [map reduce_udf].
  rewrite IH by (intros u Hu; apply Hf; right; exact Hu).
  destruct (box v) as [|m ms] eqn:Eb.
  - rewrite decide_True by reflexivity. reflexivity.
  - rewrite decide_False by discriminate.
    rewrite <- Eb, (Hf v ltac:(left) ltac:(rewrite Eb; discriminate)). reflexivity.
Qed.

Lemma udf_width_spec (box : nat -> list Vec) (r : nat -> Vec) (c : nat) (vs : list nat) :
  (forall v, v ∈ vs -> box v <> [] -> length (r v) = c) ->
  (exists v, v ∈ vs /\ box v <> []) ->
  udf_width (map (fun v => if decide (box v = []) then None else Some (r v)) vs) = c.
Proof.
  unfold udf_width. induction vs as [|v vs IH]; intros Hc (u & Hu & Hne).
  - inversion Hu.
  - cbn [map omap]. destruct (decide (box v = [])) as [Ev|Ev]; cbn.
    + apply IH; [intros x Hx; apply Hc; right; exact Hx |].
      exists u. split; [| exact Hne].
      apply elem_of_cons in Hu as [-> | Hu]; [contradiction | exact Hu].
    + apply Hc; [left | exact Ev].
Qed.

Lemma gathered_nil (es : list (nat * nat)) (rows : list Vec) :
  gathered es rows = [] <-> es = [].
Proof. unfold gathered. destruct es; simpl; split; intros; congruence. Qed.

(** X13.  The lstm variant in closed form, without edge weights, on a graph
    with at least one edge whose edges end at destination nodes: where the
    recurrent unit, started from zero hidden and cell states of width
    [in_src_feats], returns [r v] of the neighbour projection's input width
    on the unprojected features of the incoming neighbours of [v] in edge
    order, the aggregate of [v] is the neighbour projection of [r v], and of
    zeros for a node without incoming edges. *)
Theorem lstm_neighbour_aggregate (self : SAGEConv) (graph : DGLGraph) (feat : feat_t)
    (gen : Generator) (cell : LSTM) (r : nat -> Vec) :
  let L := fc_neigh self in
  let fs := (prepare self graph feat gen).1 in
  let z := replicate (_in_src_feats self) 0%Qc in
  _aggre_type self = "lstm" -> bias self <> None ->
  lstm self = Some cell -> lbias L = None ->
  nrows fs.1 = number_of_src_nodes graph ->
  number_of_edges graph <> 0 ->
  Forall (fun e => e.2 < number_of_dst_nodes graph) (edge_list graph) ->
  (forall v, v < number_of_dst_nodes graph -> in_neighbours graph v <> [] ->
     LSTM_call cell (gathered (in_neighbours graph v) (rowsT fs.1)) z z = Ok (r v) /\
     length (r v) = in_features L) ->
  neighbour_aggregate self graph feat None gen =
    Ok (mkT (out_features L)
          (map (fun v => matvec (weight L)
                           (if decide (in_neighbours graph v = [])
                            then replicate (in_features L) 0%Qc else r v))
             (seq 0 (number_of_dst_nodes graph)))).
Proof.
  intros L fs z Htag Hbias Hcell Hb Hn He Hdst Hr.
  unfold neighbour_aggregate.
  rewrite (compatibility_check_has_bias self Hbias).
  rewrite edge_setup_spec. fold fs. cbv zeta.
  unfold message_passing. unfold bind at 1. unfold gets at 1.
  rewrite decide_False by exact He.
  change (bind (ret tt) ?k graph) with (k tt graph). cbv beta zeta.
  rewrite decide_False by (rewrite Htag; discriminate).
  rewrite decide_False by (rewrite Htag; discriminate).
  rewrite decide_False by (rewrite Htag; discriminate).
  rewrite decide_True by exact Htag.
  unfold lstm_branch.
  rewrite (bind_ok _ _ _ _ _ (set_srcdata_ok "h" _ graph Hn)).
  set (g2 := with_src_frame _ graph).
  assert (Hs2 : srcdata g2 !! "h" = Some fs.1) by apply lookup_insert_eq.
  set (box := fun v => gathered (in_neighbours graph v) (rowsT fs.1)).
  set (rs := map (fun v => if decide (box v = []) then None else Some (r v))
               (seq 0 (number_of_dst_nodes graph))).
  assert (Hin : forall v, v ∈ seq 0 (number_of_dst_nodes graph) ->
                  v < number_of_dst_nodes graph).
  { intros v Hv. apply list_elem_of_In, in_seq in Hv. lia. }
  assert (Hbox : forall v, box v <> [] -> in_neighbours graph v <> []).
  { intros v Hv Hc. apply Hv. apply gathered_nil. exact Hc. }
  assert (Hw : udf_width rs = in_features L).
  { apply udf_width_spec.
    - intros v Hv Hne. apply Hr; [apply Hin; exact Hv | apply Hbox; exact Hne].
    - unfold number_of_edges in He. destruct (edge_list graph) as [|e es] eqn:Ees;
        [contradiction |].
      apply Forall_cons in Hdst as [He2 _].
      exists e.2. split.
      + apply list_elem_of_In, in_seq. lia.
      + unfold box. rewrite gathered_nil. unfold in_neighbours. rewrite Ees.
        rewrite filter_cons, decide_True by reflexivity. discriminate. }
  assert (Hupd : update_all (copy_src "h" "m") (udf "neigh" (_lstm_reducer self)) g2 =
                 (Ok tt,
                  with_dst_frame
                    (<["neigh" := mkT (in_features L)
                                    (map (default (replicate (in_features L) 0%Qc)) rs)]>
                       (dstdata g2)) g2)).
  { unfold update_all.
    assert (Hm : messages (copy_src "h" "m") g2 =
                 (Ok (mkT (cols fs.1) (gathered (edge_list g2) (rowsT fs.1))), g2)).
    { unfold messages, bind, get_srcdata, get_frame, gets, ret. rewrite Hs2. reflexivity. }
    unfold bind at 1. rewrite Hm.
    unfold bind at 1. unfold gets at 1. unfold bind at 1. unfold gets at 1.
    unfold bind at 1. unfold gets at 1. rewrite decide_False by exact He.
    assert (Hboxes : map (mailbox (edge_list g2)
                            (mkT (cols fs.1) (gathered (edge_list g2) (rowsT fs.1))))
                       (seq 0 (number_of_dst_nodes g2)) =
                     map box (seq 0 (number_of_dst_nodes graph))).
    { apply map_ext. intros v. apply mailbox_gathered. }
    rewrite Hboxes.
    rewrite (reduce_udf_spec (_lstm_reducer self) box r).
    - change (bind (lift (Ok ?x)) ?k g2) with (k x g2). cbv beta zeta.
      fold rs. rewrite Hw. apply set_dstdata_ok.
      unfold nrows, rs. cbn [rowsT]. rewrite !length_map, length_seq. reflexivity.
    - intros v Hv Hne. unfold _lstm_reducer. rewrite Hcell.
      apply Hr; [apply Hin; exact Hv | apply Hbox; exact Hne]. }
  rewrite (bind_ok _ _ _ _ _ Hupd).
  unfold get_dstdata.
  rewrite (bind_ok _ _ _ _ _ (get_frame_ok dstdata "neigh" _ _
             ltac:(rewrite dstdata_with_dst_frame; apply lookup_insert_eq))).
  unfold lift. cbn [fst].
  rewrite Linear_call_nobias by (try exact Hb; reflexivity).
  cbn [rowsT]. unfold rs. rewrite !map_map. do 2 f_equal.
  apply map_ext. intros v. unfold box.
  destruct (decide (in_neighbours graph v = [])) as [E|E].
  - rewrite decide_True by (apply gathered_nil; exact E). reflexivity.
  - rewrite decide_False by (rewrite gathered_nil; exact E). reflexivity.
Qed.

End LstmFormula.

(** ** The gcn variant as a mean over the graph with self loops *)

Section SelfLoops.
Context `{Torch}.

Lemma zip_plus_assoc (x y z : Vec) :
  zip_with Qcplus x (zip_with Qcplus y z) = zip_with Qcplus (zip_with Qcplus x y) z.
Proof.
  revert y z. induction x as [|a x IH]; intros [|b y] [|c z]; simpl; try reflexivity.
  rewrite IH. f_equal. ring.
Qed.

Lemma zip_plus_zeros_r (x : Vec) : zip_with Qcplus x (replicate (length x) 0%Qc) = x.
Proof. induction x as [|a x IH]; simpl; [reflexivity |]. rewrite IH. f_equal. ring. Qed.

Lemma zip_plus_zeros_l (x : Vec) : zip_with Qcplus (replicate (length x) 0%Qc) x = x.
Proof. induction x as [|a x IH]; simpl; [reflexivity |]. rewrite IH. f_equal. ring. Qed.

Lemma vsum_snoc (c : nat) (ms : list Vec) (x : Vec) :
  length x = c ->
  vsum c (ms ++ [x]) = zip_with Qcplus (vsum c ms) x.
Proof.
  intros Hx. induction ms as [|m ms IH]; simpl.
  - subst c. rewrite zip_plus_zeros_r, zip_plus_zeros_l. reflexivity.
  - fold (vsum c (ms ++ [x])). fold (vsum c ms). rewrite IH. apply zip_plus_assoc.
Qed.

Lemma filter_self_loops_from (a len v : nat) :
  filter (fun e : nat * nat => e.2 = v) (map (fun u => (u, u)) (seq a len)) =
    if decide (a <= v < a + len) then [(v, v)] else [].
Proof.
  revert a. induction len as [|len IH]; intros a; simpl.
  - rewrite decide_False by lia. reflexivity.
  - rewrite filter_cons, IH. cbn [snd].
    destruct (decide (a = v)) as [->|Hne].
    + rewrite decide_False by lia. rewrite decide_True by lia. reflexivity.
    + destruct (decide (S a <= v < S a + len)).
      * rewrite decide_True by lia. reflexivity.
      * rewrite decide_False by lia. reflexivity.
Qed.

Lemma filter_self_loops (n v : nat) :
  v < n ->
  filter (fun e : nat * nat => e.2 = v) (map (fun u => (u, u)) (seq 0 n)) = [(v, v)].
Proof. intros Hv. rewrite filter_self_loops_from, decide_True by lia. reflexivity. Qed.

Lemma in_neighbours_add_self_loop (g : DGLGraph) (v : nat) :
  v < n_src g ->
  in_neighbours (add_self_loop g) v = in_neighbours g v ++ [(v, v)].
Proof.
  intros Hv. unfold in_neighbours, add_self_loop. cbn [edge_list].
  rewrite filter_app, (filter_self_loops _ _ Hv). reflexivity.
Qed.

Lemma Qc_of_nat_S (d : nat) :
  Qc_of_nat (Nat.max (d + 1) 1) = (Qc_of_nat d + 1)%Qc.
Proof.
  replace (Nat.max (d + 1) 1) with (S d) by lia.
  unfold Qc_of_nat. rewrite Nat2Z.inj_succ. unfold Z.succ.
  apply Qc_is_canon. unfold Qc_of_Z. simpl.
  rewrite !Qred_correct. unfold inject_Z, Qplus, Qeq. simpl. lia.
Qed.

Lemma gcn_row_is_mean_row (W : list Vec) (lin : bool) (n_in : nat) (nb : list Vec)
    (own : Vec) :
  Forall (fun r => length r = n_in) nb -> length own = n_in ->
  gcn_aggregate_row W lin n_in nb own (length nb) =
    mean_aggregate_row W n_in (nb ++ [own]).
Proof.
  intros Hnb Hown. unfold gcn_aggregate_row, mean_aggregate_row.
  rewrite length_app. cbn [length]. rewrite Qc_of_nat_S, (vsum_snoc _ _ _ Hown).
  destruct lin; [| reflexivity].
  rewrite matvec_vscale, matvec_add by (rewrite (vsum_length _ _ Hnb); congruence).
  rewrite (vsum_matvec W n_in nb Hnb). reflexivity.
Qed.

(** X14.  On a graph with one node type and at least one edge, for a single
    feature tensor and without edge weights, the neighbour aggregate of the
    gcn variant is the neighbour aggregate of the mean variant on the graph
    with a self loop added at every node, for layers that share the
    neighbour projection and the dropout rate. *)
Theorem gcn_is_mean_with_self_loops (gcn_layer mean_layer : SAGEConv) (graph : DGLGraph)
    (x : Tensor) (gen : Generator) :
  let L := fc_neigh gcn_layer in
  let fs := (prepare gcn_layer graph (FeatTensor x) gen).1 in
  _aggre_type gcn_layer = "gcn" -> _aggre_type mean_layer = "mean" ->
  bias gcn_layer <> None -> bias mean_layer <> None ->
  fc_neigh mean_layer = L -> feat_drop mean_layer = feat_drop gcn_layer ->
  wfLinear L -> lbias L = None -> _in_src_feats gcn_layer = in_features L ->
  gkind graph = Homogeneous ->
  wfT fs.1 -> cols fs.1 = in_features L -> nrows fs.1 = number_of_src_nodes graph ->
  edges_in_range graph -> number_of_edges graph <> 0 ->
  neighbour_aggregate gcn_layer graph (FeatTensor x) None gen =
    neighbour_aggregate mean_layer (add_self_loop graph) (FeatTensor x) None gen.
Proof.
  intros L fs Hg Hm Hbg Hbm HL Hdrop HW Hb Hin K Hwf Hc Hn Hrange He.
  assert (Hblock : is_block graph = false) by (unfold is_block; rewrite K; reflexivity).
  assert (Hfd : fs.2 = fs.1).
  { subst fs. rewrite prepare_single, Hblock. reflexivity. }
  assert (Hprep : (prepare mean_layer (add_self_loop graph) (FeatTensor x) gen).1 = fs).
  { subst fs. unfold prepare. rewrite Hdrop.
    destruct (Dropout_call _ _ _) as [t g1].
    change (is_block (add_self_loop graph)) with (is_block graph). reflexivity. }
  assert (Hnd : number_of_dst_nodes graph = n_src graph).
  { unfold number_of_dst_nodes. rewrite K. reflexivity. }
  assert (Hrows : Forall (fun r => length r = in_features L) (rowsT fs.1)).
  { unfold wfT in Hwf. rewrite Hc in Hwf. exact Hwf. }
  unfold neighbour_aggregate.
  rewrite (compatibility_check_has_bias gcn_layer Hbg).
  rewrite (compatibility_check_has_bias mean_layer Hbm).
  rewrite !edge_setup_spec. rewrite Hprep. fold fs. cbv zeta.
  rewrite (message_passing_gcn gcn_layer graph (FeatTensor x) fs.1 fs.2 Hg HW Hb Hin
             Hwf Hc Hn); fold L.
  - rewrite (message_passing_mean mean_layer (add_self_loop graph) (FeatTensor x) fs.1 fs.2 Hm);
      rewrite ?HL; try assumption.
    + change (number_of_dst_nodes (add_self_loop graph)) with (number_of_dst_nodes graph).
      do 2 f_equal. apply map_ext_in. intros v Hv. apply in_seq in Hv.
      assert (Hv' : v < n_src graph) by lia.
      rewrite (in_neighbours_add_self_loop graph v Hv').
      unfold gathered at 2. rewrite map_app. cbn [map fst].
      fold (gathered (in_neighbours graph v) (rowsT fs.1)).
      rewrite Hfd.
      assert (Hdeg : in_degree graph v =
                     length (gathered (in_neighbours graph v) (rowsT fs.1))).
      { unfold gathered, in_degree, in_neighbours. rewrite length_map. reflexivity. }
      rewrite Hdeg. apply gcn_row_is_mean_row.
      * apply gathered_wf; [exact Hrows |].
        unfold in_neighbours. apply Forall_forall. intros e Hin_e.
        apply list_elem_of_filter in Hin_e as [_ Hin_e].
        unfold edges_in_range in Hrange. rewrite Forall_forall in Hrange.
        specialize (Hrange e Hin_e). fold (nrows fs.1). rewrite Hn. exact Hrange.
      * assert (Hlt : v < length (rowsT fs.1)).
        { fold (nrows fs.1). rewrite Hn. exact Hv'. }
        destruct (lookup_lt_is_Some_2 _ _ Hlt) as [r Hr]. rewrite Hr. simpl.
        rewrite Forall_forall in Hrows. apply Hrows.
        eapply list_elem_of_lookup_2; eauto.
    + unfold edges_in_range, add_self_loop. cbn [edge_list].
      change (number_of_src_nodes _) with (n_src graph).
      apply Forall_app. split; [exact Hrange |].
      apply Forall_forall. intros e He'. rewrite map_fmap in He'.
      apply list_elem_of_fmap in He' as [u [-> Hu]].
      apply list_elem_of_In, in_seq in Hu. simpl. lia.
    + unfold number_of_edges, add_self_loop. cbn [edge_list].
      rewrite length_app. unfold number_of_edges in He. lia.
  - rewrite Hfd. exact Hwf.
  - rewrite Hfd. exact Hc.
  - rewrite Hfd, Hn, Hnd. reflexivity.
  - exact Hrange.
  - reflexivity.
  - rewrite Hblock. exact Hfd.
Qed.

End SelfLoops.

(** ** Edge weights and graphs without edges in every variant *)

Section BranchSpecs.
Context `{Torch}.

Lemma bind_lift_fst {S A B} (r : result A) (k : A -> ST S B) (s : S) :
  (bind (lift r) k s).1 = rbind r (fun a => (k a s).1).
Proof. unfold bind, lift. destruct r; reflexivity. Qed.

Lemma weighting_src_frame (f : gmap string Tensor) (g : DGLGraph) msg_fn ew h c :
  weighting g msg_fn ew h c -> weighting (with_src_frame f g) msg_fn ew h c.
Proof. destruct ew; exact id. Qed.

Lemma edata_with_dst_frame (f : gmap string Tensor) (g : DGLGraph) :
  edata (with_dst_frame f g) = edata g.
Proof. unfold with_dst_frame, with_src_frame. destruct (gkind g); reflexivity. Qed.

Lemma weighting_dst_frame (f : gmap string Tensor) (g : DGLGraph) msg_fn ew h c :
  weighting g msg_fn ew h c -> weighting (with_dst_frame f g) msg_fn ew h c.
Proof. destruct ew; simpl; rewrite ?edata_with_dst_frame; exact id. Qed.

Lemma weighting_edata (g g' : DGLGraph) msg_fn ew h c :
  edata g' = edata g -> weighting g msg_fn ew h c -> weighting g' msg_fn ew h c.
Proof. intros He. destruct ew; simpl; rewrite ?He; exact id. Qed.

Lemma reduced_messages_topology (rf : reduce_fn) (g g' : DGLGraph) ew c rows :
  same_topology g g' ->
  reduced_messages rf g' ew c rows = reduced_messages rf g ew c rows.
Proof.
  intros Htop. destruct (same_topology_counts _ _ Htop) as (_ & Hd & _ & _).
  unfold reduced_messages. rewrite Hd. destruct Htop as (_ & _ & _ & ->). reflexivity.
Qed.

(** The mean variant: the stored feature is the source feature, projected
    first under [lin_before_mp]; the mean of the messages is projected
    afterwards otherwise. *)
Lemma mean_branch_spec (self : SAGEConv) (lin : bool) msg_fn ew (fs h : Tensor) (c : nat)
    (g : DGLGraph) :
  (if lin then Linear_call (fc_neigh self) fs else Ok fs) = Ok h ->
  nrows fs = number_of_src_nodes g ->
  weighting g msg_fn ew h c ->
  (mean_branch self lin msg_fn fs g).1 =
    let X := reduced_messages (fn_mean "m" "neigh") g ew c (rowsT h) in
    if lin then Ok X else Linear_call (fc_neigh self) X.
Proof.
  intros Hh Hn Hw. unfold mean_branch.
  assert (Hnh : nrows h = number_of_src_nodes g).
  { destruct lin; [rewrite (nrows_Linear_call _ _ _ Hh) | injection Hh as <-]; exact Hn. }
  assert (Hst : (if lin then lift (Linear_call (fc_neigh self) fs) else ret fs) =
                @lift DGLGraph _ (Ok h)).
  { destruct lin; [rewrite Hh | injection Hh as <-]; reflexivity. }
  rewrite Hst. change (bind (lift (Ok ?x)) ?k g) with (k x g). cbv beta.
  rewrite (bind_ok _ _ _ _ _ (set_srcdata_ok "h" h g Hnh)).
  set (g1 := with_src_frame _ g).
  assert (Hs : srcdata g1 !! "h" = Some h) by apply lookup_insert_eq.
  rewrite (bind_ok _ _ _ _ _ (update_all_builtin (fn_mean "m" "neigh") g1 msg_fn ew h c I Hs
             (weighting_src_frame _ g _ _ _ _ Hw))).
  cbn [reduce_out]. unfold get_dstdata.
  rewrite (bind_ok _ _ _ _ _ (get_frame_ok dstdata "neigh" _ _
             ltac:(rewrite dstdata_with_dst_frame; apply lookup_insert_eq))).
  destruct lin; reflexivity.
Qed.

(** The pool variant: the stored feature is [relu(fc_pool(feat_src))]; the
    elementwise maximum of the messages is projected. *)
Lemma pool_branch_spec (self : SAGEConv) msg_fn ew (fs h : Tensor) (c : nat)
    (P : Linear) (g : DGLGraph) :
  fc_pool self = Some P -> Linear_call P fs = Ok h ->
  nrows fs = number_of_src_nodes g ->
  weighting g msg_fn ew (t_map relu h) c ->
  (pool_branch self msg_fn fs g).1 =
    Linear_call (fc_neigh self)
      (reduced_messages (fn_max "m" "neigh") g ew c (rowsT (t_map relu h))).
Proof.
  intros HP Hh Hn Hw. unfold pool_branch. rewrite HP, Hh.
  change (bind (lift (Ok ?x)) ?k g) with (k x g). cbv beta.
  assert (Hnr : nrows (t_map relu h) = number_of_src_nodes g).
  { unfold t_map, nrows. cbn [rowsT]. rewrite length_map. fold (nrows h).
    rewrite (nrows_Linear_call _ _ _ Hh). exact Hn. }
  rewrite (bind_ok _ _ _ _ _ (set_srcdata_ok "h" _ g Hnr)).
  set (g1 := with_src_frame _ g).
  assert (Hs : srcdata g1 !! "h" = Some (t_map relu h)) by apply lookup_insert_eq.
  rewrite (bind_ok _ _ _ _ _ (update_all_builtin (fn_max "m" "neigh") g1 msg_fn ew _ c I Hs
             (weighting_src_frame _ g _ _ _ _ Hw))).
  cbn [reduce_out]. unfold get_dstdata.
  rewrite (bind_ok _ _ _ _ _ (get_frame_ok dstdata "neigh" _ _
             ltac:(rewrite dstdata_with_dst_frame; apply lookup_insert_eq))).
  reflexivity.
Qed.

Lemma reduce_udf_length (f : list Vec -> result Vec) (boxes : list (list Vec))
    (rs : list (option Vec)) :
  reduce_udf f boxes = Ok rs -> length rs = length boxes.
Proof.
  revert rs. induction boxes as [|ms boxes IH]; intros rs; simpl.
  - intros [= <-]. reflexivity.
  - destruct ms as [|m ms].
    + destruct (reduce_udf f boxes) as [rs'|e]; simpl; [| discriminate].
      intros [= <-]. simpl. f_equal. apply IH. reflexivity.
    + destruct (f (m :: ms)) as [r|e]; simpl; [| discriminate].
      destruct (reduce_udf f boxes) as [rs'|e]; simpl; [| discriminate].
      intros [= <-]. simpl. f_equal. apply IH. reflexivity.
Qed.

(** The lstm variant: the stored feature is the source feature; the custom
    reducer runs on the messages of every destination that received some,
    and its results are projected.  On a graph without edges nothing is
    reduced and the value read back is the one stored before. *)
Lemma lstm_branch_spec (self : SAGEConv) msg_fn ew (fs : Tensor) (c : nat) (g : DGLGraph) :
  nrows fs = number_of_src_nodes g ->
  weighting g msg_fn ew fs c ->
  number_of_edges g <> 0 ->
  (lstm_branch self msg_fn fs g).1 =
    rbind (reduce_udf (_lstm_reducer self)
             (map (mailbox (edge_list g)
                     (mkT c (edge_messages (edge_list g) ew c (rowsT fs))))
                (seq 0 (number_of_dst_nodes g))))
          (fun rs => Linear_call (fc_neigh self)
                       (mkT (udf_width rs)
                          (map (default (replicate (udf_width rs) 0%Qc)) rs))).
Proof.
  intros Hn Hw He. unfold lstm_branch.
  rewrite (bind_ok _ _ _ _ _ (set_srcdata_ok "h" fs g Hn)).
  set (g1 := with_src_frame _ g).
  assert (Hs : srcdata g1 !! "h" = Some fs) by apply lookup_insert_eq.
  unfold bind at 1. unfold update_all.
  unfold bind at 1.
  rewrite (messages_weighting g1 msg_fn ew fs c Hs (weighting_src_frame _ g _ _ _ _ Hw)).
  unfold bind at 1. unfold gets at 1. unfold bind at 1. unfold gets at 1.
  unfold bind at 1. unfold gets at 1.
  change (number_of_edges g1) with (number_of_edges g).
  rewrite decide_False by exact He.
  change (edge_list g1) with (edge_list g).
  change (number_of_dst_nodes g1) with (number_of_dst_nodes g).
  unfold bind at 1. unfold lift at 1.
  destruct (reduce_udf _ _) as [rs|e] eqn:Er; cbn [rbind]; [| reflexivity].
  apply reduce_udf_length in Er. rewrite length_map, length_seq in Er.
  unfold set_dstdata.
  change (number_of_dst_nodes g1) with (number_of_dst_nodes g).
  case_decide as Hr.
  - unfold get_dstdata.
    rewrite (bind_ok _ _ _ _ _ (get_frame_ok dstdata "neigh" _ _
               ltac:(rewrite dstdata_with_dst_frame; apply lookup_insert_eq))).
    reflexivity.
  - exfalso. apply Hr. unfold nrows. cbn [rowsT]. rewrite length_map. exact Er.
Qed.

Lemma bind_keeps_edata {A B} (m : M A) (k : A -> M B) :
  (forall g, edata (m g).2 = edata g) ->
  (forall a g, edata (k a g).2 = edata g) ->
  forall g, edata (bind m k g).2 = edata g.
Proof.
  intros Hm Hk g. unfold bind. specialize (Hm g).
  destruct (m g) as [[a|e] g1]; cbn [snd] in *; [rewrite Hk |]; exact Hm.
Qed.

Lemma gcn_store_edata (self : SAGEConv) (lin : bool) feat fs fd (g : DGLGraph) :
  edata (gcn_store self lin feat fs fd g).2 = edata g.
Proof.
  revert g. unfold gcn_store.
  apply bind_keeps_edata; [reflexivity | intros _].
  apply bind_keeps_edata; [destruct lin; reflexivity | intros h].
  apply bind_keeps_edata; [intros g; apply set_srcdata_edges | intros _].
  destruct feat as [t|s d].
  - apply bind_keeps_edata; [reflexivity | intros blk]. destruct blk.
    + apply bind_keeps_edata; [intros g; unfold get_srcdata, get_frame;
                               destruct (_ !! _); reflexivity | intros hs].
      apply bind_keeps_edata; [reflexivity | intros nd].
      intros g; apply set_dstdata_edges.
    + apply bind_keeps_edata; [intros g; unfold get_srcdata, get_frame;
                               destruct (_ !! _); reflexivity | intros hs].
      intros g; apply set_dstdata_edges.
  - apply bind_keeps_edata; [destruct lin; reflexivity | intros hd].
    intros g; apply set_dstdata_edges.
Qed.

(** The gcn variant: the stored features are the source and the destination
    feature, both projected first under [lin_before_mp]; the sum of the
    messages plus the destination's stored feature is divided by in-degree
    + 1, and projected afterwards otherwise. *)
Lemma gcn_branch_spec (self : SAGEConv) (lin : bool) msg_fn ew (g g1 : DGLGraph)
    (feat : feat_t) (fs fd : Tensor) (c : nat) :
  let L := fc_neigh self in
  lbias L = None ->
  cols fs = in_features L -> nrows fs = number_of_src_nodes g ->
  cols fd = in_features L -> nrows fd = number_of_dst_nodes g ->
  check_eq_shape feat = Ok tt ->
  match feat with
  | FeatTensor _ => fd = if is_block g then t_take (number_of_dst_nodes g) fs else fs
  | FeatPair _ _ => gkind g <> Homogeneous
  end ->
  same_topology g g1 ->
  weighting g1 msg_fn ew (projected L lin fs) c ->
  (gcn_branch self lin msg_fn feat fs fd g1).1 =
    rbind (t_add (reduced_messages (fn_sum "m" "neigh") g ew c
                    (rowsT (projected L lin fs)))
                 (projected L lin fd))
      (fun s => rbind (t_div s (col_tensor (map (fun d => (Qc_of_nat d + 1)%Qc)
                                              (in_degrees g))))
         (fun q => if lin then Ok q else Linear_call L q)).
Proof.
  intros L Hb Hcs Hns Hcd Hnd Hchk Hsp Htop Hw.
  destruct (gcn_store_spec self lin g g1 feat fs fd Hb Hcs Hns Hcd Hnd Hchk Hsp Htop)
    as (g3 & Hst & Htop3 & Hsrc & Hdst & Hother).
  fold L in Hsrc, Hdst.
  assert (He3 : edata g3 = edata g1).
  { pose proof (gcn_store_edata self lin feat fs fd g1) as He. rewrite Hst in He.
    exact He. }
  unfold gcn_branch. rewrite (bind_ok _ _ _ _ _ Hst).
  unfold gcn_reduce.
  rewrite (bind_ok _ _ _ _ _ (update_all_builtin (fn_sum "m" "neigh") g3 msg_fn ew _ c I
             Hsrc (weighting_edata g1 g3 _ _ _ _ He3 Hw))).
  cbn [reduce_out]. set (g4 := with_dst_frame _ g3).
  assert (Htop4 : same_topology g g4).
  { eapply same_topology_trans; [exact Htop3 | apply same_topology_dst]. }
  destruct (same_topology_counts _ _ Htop4) as (_ & _ & _ & Hdeg4).
  unfold bind at 1. unfold gets at 1. rewrite Hdeg4.
  unfold get_dstdata.
  rewrite (bind_ok _ _ _ _ _ (get_frame_ok dstdata "neigh" _ g4
             ltac:(unfold g4; rewrite dstdata_with_dst_frame; apply lookup_insert_eq))).
  rewrite (bind_ok _ _ _ _ _ (get_frame_ok dstdata "h" _ g4
             ltac:(unfold g4; rewrite dstdata_with_dst_frame,
                     lookup_insert_ne by discriminate; exact Hdst))).
  rewrite (reduced_messages_topology _ g g3 _ _ _ Htop3).
  rewrite bind_lift_fst.
  destruct (t_add _ _) as [s|e]; cbn [rbind]; [| reflexivity].
  rewrite bind_lift_fst.
  destruct (t_div _ _) as [q|e]; cbn [rbind]; [| reflexivity].
  destruct lin; reflexivity.
Qed.

(** Lines 104-107 and the dispatch: the variant runs on a graph of the same
    topology and with the same edge data, on which, when there is no edge,
    ['neigh'] holds zeros of width [_in_src_feats]. *)
Lemma message_passing_dispatch (self : SAGEConv) msg_fn feat fs fd (g : DGLGraph) :
  nrows fd = number_of_dst_nodes g ->
  exists g2,
    same_topology g g2 /\ edata g2 = edata g /\
    (number_of_edges g = 0 ->
     dstdata g2 !! "neigh" = Some (zeros (number_of_dst_nodes g) (_in_src_feats self))) /\
    message_passing self msg_fn feat fs fd g =
      (if decide (_aggre_type self = "mean") then
         mean_branch self (bool_decide (_out_feats self < _in_src_feats self)) msg_fn fs
       else if decide (_aggre_type self = "gcn") then
         gcn_branch self (bool_decide (_out_feats self < _in_src_feats self)) msg_fn feat fs fd
       else if decide (_aggre_type self = "pool") then pool_branch self msg_fn fs
       else if decide (_aggre_type self = "lstm") then lstm_branch self msg_fn fs
       else raise (KeyError (not_recognized (_aggre_type self)))) g2.
Proof.
  intros Hn. destruct (decide (number_of_edges g = 0)) as [He|He].
  - destruct (message_passing_no_edges self msg_fn feat fs fd g He Hn)
      as (g2 & Htop & Hz & Hmp).
    exists (with_dst_frame
              (<["neigh" := zeros (nrows fd) (_in_src_feats self)]> (dstdata g)) g).
    split; [apply same_topology_dst |]. split; [apply edata_with_dst_frame |].
    split.
    + intros _. rewrite dstdata_with_dst_frame, lookup_insert_eq, Hn. reflexivity.
    + unfold message_passing. unfold bind at 1. unfold gets at 1.
      rewrite decide_True by exact He.
      rewrite (bind_ok _ _ _ _ _ (set_dstdata_ok "neigh" _ g
                 ltac:(rewrite nrows_zeros; exact Hn))).
      reflexivity.
  - exists g. split; [apply same_topology_refl |]. split; [reflexivity |].
    split; [intros; contradiction |].
    unfold message_passing. unfold bind at 1. unfold gets at 1.
    rewrite decide_False by exact He. reflexivity.
Qed.

Lemma edge_messages_lookup (es : list (nat * nat)) (w : Tensor) (c : nat)
    (hrows : list Vec) (i u v : nat) (wi : Vec) :
  es !! i = Some (u, v) -> rowsT w !! i = Some wi ->
  edge_messages es (Some w) c hrows !! i =
    Some (vec_binop Qcmult c (default [] (hrows !! u)) wi).
Proof.
  intros Hi Hwi. unfold edge_messages, gathered.
  rewrite lookup_zip_with, map_fmap, list_lookup_fmap, Hi, Hwi. reflexivity.
Qed.

(** C6.  Edge weights whose row count is not the edge count make [forward]
    raise the assertion's error, whatever the variant.  With one row per
    edge the call is the output stage applied to the neighbour aggregate,
    and the aggregate is reduced from the messages [edge_messages]: the
    message of edge [i] from [u] is the elementwise product of the feature
    stored for [u] and the weight of edge [i].  Per variant, on features
    with one row per node: mean takes the mean of these messages (formed
    from the projected features under [lin_before_mp], the mean being
    projected otherwise); pool takes their elementwise maximum, the stored
    feature being [relu(fc_pool(feat_src))], and projects it; gcn takes
    their sum, adds the destination's own feature and divides by in-degree
    + 1; lstm hands them to the recurrent reducer and projects its
    results. *)
Theorem forward_edge_weight (self : SAGEConv) (graph : DGLGraph) (feat : feat_t)
    (w : Tensor) (gen : Generator) :
  (_compatibility_check self).1 = Ok tt ->
  let self' := (_compatibility_check self).2 in
  let fs := (prepare self' graph feat gen).1 in
  let L := fc_neigh self' in
  let lin := bool_decide (_out_feats self' < _in_src_feats self') in
  let es := edge_list graph in
  let aggregate := neighbour_aggregate self graph feat (Some w) gen in
  (nrows w <> number_of_edges graph ->
   (forward self graph feat (Some w) gen).1 = Err AssertionError) /\
  (nrows w = number_of_edges graph ->
   (forward self graph feat (Some w) gen).1 = rbind aggregate (combine self' fs.2) /\
   (forall h c i u v wi, es !! i = Some (u, v) -> rowsT w !! i = Some wi ->
      edge_messages es (Some w) c (rowsT h) !! i =
        Some (vec_binop Qcmult c (default [] (rowsT h !! u)) wi)) /\
   (nrows fs.1 = number_of_src_nodes graph -> nrows fs.2 = number_of_dst_nodes graph ->
    (_aggre_type self' = "mean" ->
     forall h c, (if lin then Linear_call L fs.1 else Ok fs.1) = Ok h ->
       bdim (cols h) (cols w) = Some c ->
       aggregate =
         let X := reduced_messages (fn_mean "m" "neigh") graph (Some w) c (rowsT h) in
         if lin then Ok X else Linear_call L X) /\
    (_aggre_type self' = "pool" ->
     forall P h c, fc_pool self' = Some P -> Linear_call P fs.1 = Ok h ->
       bdim (cols h) (cols w) = Some c ->
       aggregate =
         Linear_call L (reduced_messages (fn_max "m" "neigh") graph (Some w) c
                          (rowsT (t_map relu h)))) /\
    (_aggre_type self' = "gcn" ->
     forall c, lbias L = None -> cols fs.1 = in_features L -> cols fs.2 = in_features L ->
       check_eq_shape feat = Ok tt -> pair_on_separate_sides graph feat ->
       bdim (cols (projected L lin fs.1)) (cols w) = Some c ->
       aggregate =
         rbind (t_add (reduced_messages (fn_sum "m" "neigh") graph (Some w) c
                         (rowsT (projected L lin fs.1)))
                      (projected L lin fs.2))
           (fun s => rbind (t_div s (col_tensor (map (fun d => (Qc_of_nat d + 1)%Qc)
                                                   (in_degrees graph))))
              (fun q => if lin then Ok q else Linear_call L q))) /\
    (_aggre_type self' = "lstm" -> number_of_edges graph <> 0 ->
     forall c, bdim (cols fs.1) (cols w) = Some c ->
       aggregate =
         rbind (reduce_udf (_lstm_reducer self')
                  (map (mailbox es (mkT c (edge_messages es (Some w) c (rowsT fs.1))))
                     (seq 0 (number_of_dst_nodes graph))))
               (fun rs => Linear_call L
                            (mkT (udf_width rs)
                               (map (default (replicate (udf_width rs) 0%Qc)) rs)))))).
Proof.
  intros Hc self' fs L lin es aggregate.
  assert (Hagg : aggregate =
            match edge_setup (Some w) graph with
            | (Ok msg_fn, g1) => (message_passing self' msg_fn feat fs.1 fs.2 g1).1
            | (Err e, _) => Err e
            end).
  { subst aggregate fs self'. unfold neighbour_aggregate.
    destruct (_compatibility_check self) as [[[]|e] s']; cbn [fst snd] in *;
      [reflexivity | discriminate]. }
  assert (Hfw : (forward self graph feat (Some w) gen).1 =
                rbind aggregate (combine self' fs.2)).
  { rewrite Hagg, forward_unfold. subst fs self'.
    destruct (_compatibility_check self) as [[[]|e] s']; cbn [fst snd] in *;
      [| discriminate]. cbv zeta.
    rewrite forward_scope_unfold.
    destruct (edge_setup (Some w) graph) as [[msg_fn|e] g1]; [| reflexivity].
    destruct (message_passing _ _ _ _ _ _) as [[h|e] g2]; reflexivity. }
  rewrite Hfw, Hagg. clear Hfw Hagg. rewrite edge_setup_spec.
  destruct (decide (nrows w = number_of_edges graph)) as [Hw|Hw];
    [| split; [reflexivity | intros; contradiction]].
  split; [intros; contradiction |]. intros _.
  split; [reflexivity |].
  split; [intros h c i u v wi; apply edge_messages_lookup |].
  intros Hns Hnd.
  set (msg_fn := u_mul_e "h" "_edge_weight" "m").
  set (g1 := with_edge_frame _ graph).
  assert (Htop1 : same_topology graph g1) by (repeat split).
  assert (Hew : edata g1 !! "_edge_weight" = Some w) by apply lookup_insert_eq.
  destruct (message_passing_dispatch self' msg_fn feat fs.1 fs.2 g1 Hnd)
    as (g2 & Htop & Hed & _ & ->).
  assert (Htop2 : same_topology graph g2) by exact (same_topology_trans _ _ _ Htop1 Htop).
  assert (Hwt : forall h c, bdim (cols h) (cols w) = Some c ->
                  weighting g2 msg_fn (Some w) h c).
  { intros h c Hb. split; [reflexivity |]. split; [rewrite Hed; exact Hew | exact Hb]. }
  destruct (same_topology_counts _ _ Htop2) as (Hs2 & Hd2 & He2 & Hdeg2).
  fold lin.
  split; [| split; [| split]].
  - intros Htag h c Hh Hb. rewrite decide_True by exact Htag.
    rewrite (mean_branch_spec self' lin msg_fn (Some w) fs.1 h c g2 Hh
               ltac:(congruence) (Hwt h c Hb)).
    cbv zeta. rewrite (reduced_messages_topology _ graph g2 _ _ _ Htop2). reflexivity.
  - intros Htag P h c HP Hh Hb.
    rewrite decide_False by (rewrite Htag; discriminate).
    rewrite decide_False by (rewrite Htag; discriminate).
    rewrite decide_True by exact Htag.
    rewrite (pool_branch_spec self' msg_fn (Some w) fs.1 h c P g2 HP Hh
               ltac:(congruence) (Hwt _ c Hb)).
    rewrite (reduced_messages_topology _ graph g2 _ _ _ Htop2). reflexivity.
  - intros Htag c Hlb Hcs Hcd Hchk Hpair Hb.
    rewrite decide_False by (rewrite Htag; discriminate).
    rewrite decide_True by exact Htag.
    apply (gcn_branch_spec self' lin msg_fn (Some w) graph g2 feat fs.1 fs.2 c);
      try assumption.
    + destruct feat as [t|s d]; [apply prepare_single | exact Hpair].
    + apply Hwt. exact Hb.
  - intros Htag He c Hb.
    rewrite decide_False by (rewrite Htag; discriminate).
    rewrite decide_False by (rewrite Htag; discriminate).
    rewrite decide_False by (rewrite Htag; discriminate).
    rewrite decide_True by exact Htag.
    rewrite (lstm_branch_spec self' msg_fn (Some w) fs.1 c g2 ltac:(congruence)
               (Hwt _ c Hb) ltac:(congruence)).
    destruct Htop2 as (_ & _ & _ & Hel). rewrite Hel, Hd2. reflexivity.
Qed.

End BranchSpecs.

Section Edgeless.
Context `{Torch}.

Lemma reduce_builtin_nil (rf : reduce_fn) (c : nat) :
  reduce_builtin rf c [] = replicate c 0%Qc.
Proof.
  destruct rf; try reflexivity.
  cbn [reduce_builtin length vsum foldr]. unfold vscale.
  rewrite map_fmap, fmap_replicate. reflexivity.
Qed.

Lemma reduced_no_edges (rf : reduce_fn) (g : DGLGraph) ew c rows :
  number_of_edges g = 0 ->
  reduced_messages rf g ew c rows = zeros (number_of_dst_nodes g) c.
Proof.
  intros He. apply nil_length_inv in He.
  unfold reduced_messages, zeros. rewrite He. f_equal.
  rewrite replicate_as_map_seq. apply map_ext. intros v.
  unfold mailbox. cbn [zip zip_with filter]. apply reduce_builtin_nil.
Qed.

Lemma Linear_call_returns (L : Linear) (x : Tensor) :
  cols x = in_features L ->
  (forall b, lbias L = Some b -> length b = out_features L) ->
  exists h, Linear_call L x = Ok h /\ cols h = out_features L /\ nrows h = nrows x.
Proof.
  intros Hc Hb. unfold Linear_call. rewrite decide_True by exact Hc.
  destruct (lbias L) as [b|] eqn:Eb.
  - set (y := mkT _ _).
    assert (Hr : bdim (nrows y) (nrows (row_tensor b)) = Some (nrows y)) by apply bdim_1_r.
    assert (Hcc : bdim (cols y) (cols (row_tensor b)) = Some (out_features L)).
    { cbn [cols row_tensor y]. rewrite (Hb b eq_refl). apply bdim_same. }
    unfold t_add. rewrite (t_binop_ok _ _ _ _ _ Hr Hcc).
    eexists. split; [reflexivity |]. split; [reflexivity |].
    unfold nrows at 1. cbn [rowsT]. rewrite length_zip_with, !length_stretch, Nat.min_id.
    subst y. unfold nrows. cbn [rowsT]. apply length_map.
  - eexists. split; [reflexivity |]. split; [reflexivity |].
    unfold nrows. cbn [rowsT]. apply length_map.
Qed.

(** On a graph without edges the mean variant yields zeros of the output
    width. *)
Lemma mean_branch_no_edges (self : SAGEConv) msg_fn ew (fs : Tensor) (g : DGLGraph) :
  let L := fc_neigh self in
  let lin := bool_decide (_out_feats self < _in_src_feats self) in
  in_features L = _in_src_feats self -> out_features L = _out_feats self ->
  length (weight L) = _out_feats self -> lbias L = None ->
  number_of_edges g = 0 ->
  nrows fs = number_of_src_nodes g -> cols fs = _in_src_feats self ->
  (forall h, weighting g msg_fn ew h (cols h)) ->
  (mean_branch self lin msg_fn fs g).1 = Ok (zeros (number_of_dst_nodes g) (_out_feats self)).
Proof.
  intros L lin Hi Ho HW Hb He Hn Hc Hw.
  destruct lin eqn:El.
  - rewrite (mean_branch_spec self true msg_fn ew fs _ _ g
               (Linear_call_nobias L fs Hb ltac:(congruence)) Hn (Hw _)).
    cbv zeta. rewrite reduced_no_edges by exact He. cbn [cols]. rewrite Ho. reflexivity.
  - rewrite (mean_branch_spec self false msg_fn ew fs fs _ g eq_refl Hn (Hw _)).
    cbv zeta. rewrite reduced_no_edges by exact He. fold L.
    rewrite Hc, <- Hi, Linear_call_zeros by (try exact Hb; congruence).
    rewrite Ho. reflexivity.
Qed.

(** On a graph without edges the pool variant yields zeros of the output
    width. *)
Lemma pool_branch_no_edges (self : SAGEConv) msg_fn ew (fs : Tensor) (P : Linear)
    (g : DGLGraph) :
  let L := fc_neigh self in
  in_features L = _in_src_feats self -> out_features L = _out_feats self ->
  length (weight L) = _out_feats self -> lbias L = None ->
  fc_pool self = Some P -> in_features P = _in_src_feats self ->
  out_features P = _in_src_feats self ->
  (forall b, lbias P = Some b -> length b = _in_src_feats self) ->
  number_of_edges g = 0 ->
  nrows fs = number_of_src_nodes g -> cols fs = _in_src_feats self ->
  (forall h, weighting g msg_fn ew h (cols h)) ->
  (pool_branch self msg_fn fs g).1 = Ok (zeros (number_of_dst_nodes g) (_out_feats self)).
Proof.
  intros L Hi Ho HW Hb HP HPi HPo HPb He Hn Hc Hw.
  destruct (Linear_call_returns P fs ltac:(congruence)
              ltac:(intros b Eb; rewrite HPo; exact (HPb b Eb))) as (h & Hh & Hch & _).
  rewrite (pool_branch_spec self msg_fn ew fs h _ P g HP Hh Hn (Hw _)).
  rewrite reduced_no_edges by exact He. fold L. cbn [cols t_map].
  rewrite Hch, HPo, <- Hi, Linear_call_zeros by (try exact Hb; congruence).
  rewrite Ho. reflexivity.
Qed.

(** On a graph without edges the custom reducer of the lstm variant stores
    nothing: the value read back is the one the fallback stored. *)
Lemma lstm_branch_no_edges (self : SAGEConv) msg_fn ew (fs : Tensor) (g : DGLGraph) :
  let L := fc_neigh self in
  in_features L = _in_src_feats self -> out_features L = _out_feats self ->
  length (weight L) = _out_feats self -> lbias L = None ->
  number_of_edges g = 0 ->
  nrows fs = number_of_src_nodes g ->
  (forall h, weighting g msg_fn ew h (cols h)) ->
  dstdata g !! "neigh" = Some (zeros (number_of_dst_nodes g) (_in_src_feats self)) ->
  (lstm_branch self msg_fn fs g).1 = Ok (zeros (number_of_dst_nodes g) (_out_feats self)).
Proof.
  intros L Hi Ho HW Hb He Hn Hw Hz. unfold lstm_branch.
  rewrite (bind_ok _ _ _ _ _ (set_srcdata_ok "h" fs g Hn)).
  set (g1 := with_src_frame _ g).
  assert (Hs : srcdata g1 !! "h" = Some fs) by apply lookup_insert_eq.
  assert (Hz1 : dstdata g1 !! "neigh" =
                Some (zeros (number_of_dst_nodes g) (_in_src_feats self))).
  { subst g1. rewrite dstdata_with_src_frame. unfold dstdata, srcdata in *.
    destruct (gkind g); [| exact Hz | exact Hz].
    rewrite lookup_insert_ne by discriminate. exact Hz. }
  assert (Hup : update_all msg_fn (udf "neigh" (_lstm_reducer self)) g1 = (Ok tt, g1)).
  { unfold update_all. unfold bind at 1.
    rewrite (messages_weighting g1 msg_fn ew fs _ Hs (weighting_src_frame _ g _ _ _ _ (Hw fs))).
    unfold bind at 1. unfold gets at 1. unfold bind at 1. unfold gets at 1.
    unfold bind at 1. unfold gets at 1.
    change (number_of_edges g1) with (number_of_edges g).
    rewrite decide_True by exact He. reflexivity. }
  rewrite (bind_ok _ _ _ _ _ Hup).
  unfold get_dstdata. rewrite (bind_ok _ _ _ _ _ (get_frame_ok dstdata "neigh" _ g1 Hz1)).
  unfold lift. cbn [fst]. fold L. rewrite <- Hi, Linear_call_zeros by (try exact Hb; congruence).
  rewrite Ho. reflexivity.
Qed.

Lemma nrows_projected (L : Linear) (lin : bool) (t : Tensor) :
  nrows (projected L lin t) = nrows t.
Proof. unfold projected, nrows. destruct lin; [| reflexivity]. cbn [rowsT]. apply length_map. Qed.

(** On a graph without edges the gcn variant returns one row of the output
    width per destination node. *)
Lemma gcn_branch_no_edges (self : SAGEConv) msg_fn ew feat (fs fd : Tensor) (g : DGLGraph) :
  let L := fc_neigh self in
  let lin := bool_decide (_out_feats self < _in_src_feats self) in
  in_features L = _in_src_feats self -> out_features L = _out_feats self ->
  lbias L = None ->
  number_of_edges g = 0 ->
  nrows fs = number_of_src_nodes g -> cols fs = _in_src_feats self ->
  nrows fd = number_of_dst_nodes g -> cols fd = _in_src_feats self ->
  check_eq_shape feat = Ok tt ->
  match feat with
  | FeatTensor _ => fd = if is_block g then t_take (number_of_dst_nodes g) fs else fs
  | FeatPair _ _ => gkind g <> Homogeneous
  end ->
  (forall h, weighting g msg_fn ew h (cols h)) ->
  exists a, (gcn_branch self lin msg_fn feat fs fd g).1 = Ok a /\
            nrows a = number_of_dst_nodes g /\ cols a = _out_feats self.
Proof.
  intros L lin Hi Ho Hb He Hns Hcs Hnd Hcd Hchk Hsp Hw.
  rewrite (gcn_branch_spec self lin msg_fn ew g g feat fs fd _ Hb
             ltac:(fold L; congruence) Hns ltac:(fold L; congruence) Hnd Hchk Hsp
             (same_topology_refl g) (Hw _)).
  fold L. rewrite reduced_no_edges by exact He.
  assert (Hcp : cols (projected L lin fd) = cols (projected L lin fs)).
  { unfold projected. destruct lin; cbn [cols]; congruence. }
  assert (Hr1 : bdim (nrows (zeros (number_of_dst_nodes g) (cols (projected L lin fs))))
                     (nrows (projected L lin fd)) = Some (number_of_dst_nodes g)).
  { rewrite nrows_zeros, nrows_projected, Hnd. apply bdim_same. }
  assert (Hc1 : bdim (cols (zeros (number_of_dst_nodes g) (cols (projected L lin fs))))
                     (cols (projected L lin fd)) = Some (cols (projected L lin fs))).
  { cbn [cols zeros]. rewrite Hcp. apply bdim_same. }
  unfold t_add. rewrite (t_binop_ok _ _ _ _ _ Hr1 Hc1). cbn [rbind].
  set (s := mkT _ _).
  assert (Hns' : nrows s = number_of_dst_nodes g).
  { subst s. unfold nrows at 1. cbn [rowsT].
    rewrite length_zip_with, !length_stretch, Nat.min_id. reflexivity. }
  set (dg := col_tensor _).
  assert (Hr2 : bdim (nrows s) (nrows dg) = Some (number_of_dst_nodes g)).
  { rewrite Hns'. subst dg. unfold nrows, col_tensor, in_degrees. cbn [rowsT].
    rewrite !length_map, length_seq. apply bdim_same. }
  assert (Hc2 : bdim (cols s) (cols dg) = Some (cols (projected L lin fs))) by apply bdim_1_r.
  unfold t_div. rewrite (t_binop_ok _ _ _ _ _ Hr2 Hc2). cbn [rbind].
  set (q := mkT _ _).
  assert (Hnq : nrows q = number_of_dst_nodes g).
  { subst q. unfold nrows at 1. cbn [rowsT].
    rewrite length_zip_with, !length_stretch, Nat.min_id. reflexivity. }
  destruct lin eqn:El.
  - exists q. split; [reflexivity |]. split; [exact Hnq |].
    subst q. cbn [cols projected]. exact Ho.
  - destruct (Linear_call_returns L q ltac:(subst q; cbn [cols projected]; congruence)
                ltac:(intros b Eb; congruence)) as (a & Ha & Hca & Hna).
    exists a. split; [exact Ha |]. split; congruence.
Qed.

(** Lines 147-170 return on an aggregate of the output width with one row
    per destination node. *)
Lemma combine_returns (self : SAGEConv) (fd a : Tensor) :
  well_formed self -> epilogue_returns self ->
  cols fd = _in_dst_feats self ->
  nrows a = nrows fd -> cols a = _out_feats self ->
  exists t, combine self fd a = Ok t.
Proof.
  intros (Hbias & Hbl & _ & Hself & _) (Hact & Hnorm) Hcd Hna Hca.
  unfold combine.
  assert (H1 : exists r, (if decide (_aggre_type self = "gcn") then Ok a
                          else match fc_self self with
                               | Some L => rbind (Linear_call L fd) (fun x => t_add x a)
                               | None => Err AttributeError
                               end) = Ok r /\ cols r = _out_feats self).
  { destruct (decide (_aggre_type self = "gcn")) as [E|E]; [eauto |].
    destruct (Hself E) as (S & -> & HSi & HSo & HSb).
    destruct (Linear_call_returns S fd ltac:(congruence) ltac:(intros b Eb; congruence))
      as (x & -> & Hcx & Hnx).
    cbn [rbind]. unfold t_add.
    rewrite (t_binop_ok _ x a (nrows x) (_out_feats self))
      by (rewrite ?Hnx, ?Hna, ?Hcx, ?HSo, ?Hca; apply bdim_same).
    eexists. split; reflexivity. }
  destruct H1 as (r & -> & Hcr). cbn [rbind].
  assert (H2 : exists r', match bias self with
                          | Some (Some b) => t_add r (row_tensor b)
                          | Some None => Ok r
                          | None => Err AttributeError
                          end = Ok r').
  { destruct (bias self) as [[b|]|] eqn:Eb; [| eauto | contradiction].
    unfold t_add.
    rewrite (t_binop_ok _ r (row_tensor b) (nrows r) (_out_feats self)).
    - eauto.
    - apply bdim_1_r.
    - cbn [cols row_tensor]. rewrite Hcr, (Hbl b eq_refl). apply bdim_same. }
  destruct H2 as (r' & ->). cbn [rbind].
  assert (H3 : exists r'', match activation self with
                           | Some act => act r'
                           | None => Ok r'
                           end = Ok r'').
  { destruct (activation self) as [act|] eqn:Ea; [apply (Hact act eq_refl) | eauto]. }
  destruct H3 as (r'' & ->). cbn [rbind].
  destruct (norm self) as [nm|] eqn:En; [apply (Hnorm nm eq_refl) | eauto].
Qed.

(** Lines 96-107 on a graph without edges: the edge weights, one scalar per
    edge, pass the assert, and the variant runs on the graph on which
    ['neigh'] holds zeros of width [_in_src_feats]. *)
Lemma no_edges_dispatch (self : SAGEConv) (graph : DGLGraph) (feat : feat_t)
    (fs fd : Tensor) (edge_weight : option Tensor) :
  number_of_edges graph = 0 ->
  scalar_edge_weight graph edge_weight ->
  nrows fd = number_of_dst_nodes graph ->
  exists msg_fn g1,
    let g2 := with_dst_frame
                (<["neigh" := zeros (number_of_dst_nodes graph) (_in_src_feats self)]>
                   (dstdata g1)) g1 in
    edge_setup edge_weight graph = (Ok msg_fn, g1) /\
    message_passing self msg_fn feat fs fd g1 = variant_branch self msg_fn feat fs fd g2 /\
    same_topology graph g2 /\
    (forall h, weighting g2 msg_fn edge_weight h (cols h)) /\
    dstdata g2 !! "neigh" =
      Some (zeros (number_of_dst_nodes g2) (_in_src_feats self)).
Proof.
  intros He Hew Hnd.
  assert (Hset : exists msg_fn g1,
            edge_setup edge_weight graph = (Ok msg_fn, g1) /\ same_topology graph g1 /\
            scalar_weighting g1 msg_fn edge_weight).
  { rewrite edge_setup_spec. destruct edge_weight as [w|].
    - destruct Hew as (Hw & Hc & _). rewrite decide_True by exact Hw.
      do 2 eexists. split; [reflexivity |]. split; [repeat split |].
      split; [reflexivity |]. split; [apply lookup_insert_eq | exact Hc].
    - do 2 eexists. split; [reflexivity |]. split; [apply same_topology_refl | reflexivity]. }
  destruct Hset as (msg_fn & g1 & Hes & Htop1 & Hsw).
  destruct (same_topology_counts _ _ Htop1) as (Hs1 & Hd1 & He1 & _).
  exists msg_fn, g1. intros g2.
  assert (Htop2 : same_topology graph g2).
  { exact (same_topology_trans _ _ _ Htop1 (same_topology_dst _ g1)). }
  destruct (same_topology_counts _ _ Htop2) as (_ & Hd2 & _ & _).
  split; [exact Hes |]. split; [| split; [exact Htop2 | split]].
  - rewrite message_passing_unfold. rewrite decide_True by congruence.
    rewrite set_dstdata_ok by (rewrite nrows_zeros; congruence).
    rewrite Hnd. reflexivity.
  - intros h. apply weighting_dst_frame, scalar_weighting_weighting, Hsw.
  - rewrite Hd2. apply dstdata_set_dstdata.
Qed.

Lemma no_edges_zero_core (self : SAGEConv) (graph : DGLGraph) (feat : feat_t)
    (edge_weight : option Tensor) (gen : Generator) :
  let fs := (prepare self graph feat gen).1 in
  let L := fc_neigh self in
  bias self <> None ->
  _aggre_type self = "mean" \/ _aggre_type self = "lstm" \/
  (_aggre_type self = "pool" /\
   exists P, fc_pool self = Some P /\ in_features P = _in_src_feats self /\
             out_features P = _in_src_feats self /\
             forall b, lbias P = Some b -> length b = _in_src_feats self) ->
  in_features L = _in_src_feats self -> out_features L = _out_feats self ->
  length (weight L) = _out_feats self -> lbias L = None ->
  number_of_edges graph = 0 ->
  scalar_edge_weight graph edge_weight ->
  nrows fs.1 = number_of_src_nodes graph -> cols fs.1 = _in_src_feats self ->
  nrows fs.2 = number_of_dst_nodes graph ->
  neighbour_aggregate self graph feat edge_weight gen =
    Ok (zeros (number_of_dst_nodes graph) (_out_feats self)).
Proof.
  intros fs L Hbias Htag Hi Ho HW Hb He Hew Hns Hcs Hnd.
  destruct (no_edges_dispatch self graph feat fs.1 fs.2 edge_weight He Hew Hnd)
    as (msg_fn & g1 & Hes & Hmp & Htop2 & Hw2 & Hz2).
  set (g2 := with_dst_frame _ g1) in *.
  destruct (same_topology_counts _ _ Htop2) as (Hs2 & Hd2 & He2 & _).
  unfold neighbour_aggregate.
  rewrite (compatibility_check_has_bias self Hbias). fold fs. cbv zeta.
  rewrite Hes, Hmp. unfold variant_branch. rewrite <- Hd2.
  destruct Htag as [Htag | [Htag | [Htag (P & HP & HPi & HPo & HPb)]]].
  - rewrite decide_True by exact Htag.
    apply (mean_branch_no_edges self msg_fn edge_weight fs.1 g2 Hi Ho HW Hb);
      try exact Hw2; congruence.
  - rewrite decide_False by (rewrite Htag; discriminate).
    rewrite decide_False by (rewrite Htag; discriminate).
    rewrite decide_False by (rewrite Htag; discriminate).
    rewrite decide_True by exact Htag.
    apply (lstm_branch_no_edges self msg_fn edge_weight fs.1 g2 Hi Ho HW Hb);
      try exact Hw2; try exact Hz2; congruence.
  - rewrite decide_False by (rewrite Htag; discriminate).
    rewrite decide_False by (rewrite Htag; discriminate).
    rewrite decide_True by exact Htag.
    apply (pool_branch_no_edges self msg_fn edge_weight fs.1 P g2 Hi Ho HW Hb HP HPi HPo HPb);
      try exact Hw2; congruence.
Qed.

(** X2.  On a graph without edges (edge weights absent or with zero rows),
    for the mean, the lstm and the pool variant, with a bias-free neighbour
    projection from [in_src_feats] to [out_feats] (and, for pool, a pooling
    projection from [in_src_feats] to [in_src_feats]) and source features of
    width [in_src_feats], one row per node: the neighbour aggregate is the
    zero tensor with one row per destination node and [out_feats] columns. *)
Theorem no_edges_zero_aggregate (self : SAGEConv) (graph : DGLGraph) (feat : feat_t)
    (edge_weight : option Tensor) (gen : Generator) :
  let fs := (prepare self graph feat gen).1 in
  let L := fc_neigh self in
  bias self <> None ->
  _aggre_type self = "mean" \/ _aggre_type self = "lstm" \/
  (_aggre_type self = "pool" /\
   exists P, fc_pool self = Some P /\ in_features P = _in_src_feats self /\
             out_features P = _in_src_feats self /\
             forall b, lbias P = Some b -> length b = _in_src_feats self) ->
  in_features L = _in_src_feats self -> out_features L = _out_feats self ->
  length (weight L) = _out_feats self -> lbias L = None ->
  number_of_edges graph = 0 ->
  scalar_edge_weight graph edge_weight ->
  nrows fs.1 = number_of_src_nodes graph -> cols fs.1 = _in_src_feats self ->
  nrows fs.2 = number_of_dst_nodes graph ->
  neighbour_aggregate self graph feat edge_weight gen =
    Ok (zeros (number_of_dst_nodes graph) (_out_feats self)).
Proof. exact (no_edges_zero_core self graph feat edge_weight gen). Qed.

(** C3.  On a graph without edges, for each of the four variants, on a
    layer of the current layout with the projections the constructor gives
    it, an activation and a normaliser that return, edge weights absent or
    with zero rows, and working features of the layer's widths with one row
    per node: [forward] stores zeros of width [in_src_feats], one row per
    destination node, under ['neigh'] before the variant runs (so before any
    projection); the neighbour aggregate has one row per destination node
    and [out_feats] columns, and is the zero tensor for mean, pool and lstm;
    and the call returns a tensor. *)
Theorem forward_no_edges_returns (self : SAGEConv) (graph : DGLGraph) (feat : feat_t)
    (edge_weight : option Tensor) (gen : Generator) :
  let fs := (prepare self graph feat gen).1 in
  let nd := number_of_dst_nodes graph in
  let aggregate := neighbour_aggregate self graph feat edge_weight gen in
  recognized (_aggre_type self) ->
  well_formed self -> epilogue_returns self ->
  number_of_edges graph = 0 ->
  scalar_edge_weight graph edge_weight ->
  well_shaped self graph feat fs.1 fs.2 ->
  (exists msg_fn g1,
     edge_setup edge_weight graph = (Ok msg_fn, g1) /\
     message_passing self msg_fn feat fs.1 fs.2 g1 =
       variant_branch self msg_fn feat fs.1 fs.2
         (with_dst_frame (<["neigh" := zeros nd (_in_src_feats self)]> (dstdata g1)) g1)) /\
  (exists a, aggregate = Ok a /\ nrows a = nd /\ cols a = _out_feats self /\
             (_aggre_type self <> "gcn" -> a = zeros nd (_out_feats self))) /\
  (forward self graph feat edge_weight gen).1 = rbind aggregate (combine self fs.2) /\
  exists t, (forward self graph feat edge_weight gen).1 = Ok t.
Proof.
  intros fs nd aggregate Htag Hwf Hep He Hew (Hns & Hcs & Hnd & Hcd & Hgcn).
  pose proof Hwf as (Hbias & _ & (Hi & Ho & HW & Hb) & _ & Hpool).
  destruct (no_edges_dispatch self graph feat fs.1 fs.2 edge_weight He Hew Hnd)
    as (msg_fn & g1 & Hes & Hmp & Htop2 & Hw2 & Hz2).
  fold nd in Hmp, Htop2, Hw2, Hz2.
  set (g2 := with_dst_frame _ g1) in *.
  destruct (same_topology_counts _ _ Htop2) as (Hs2 & Hd2 & He2 & _).
  assert (Hres : exists a, aggregate = Ok a /\ nrows a = nd /\ cols a = _out_feats self /\
                   (_aggre_type self <> "gcn" -> a = zeros nd (_out_feats self))).
  { destruct (decide (_aggre_type self = "gcn")) as [Hg|Hg].
    - assert (Hagg : aggregate = (variant_branch self msg_fn feat fs.1 fs.2 g2).1).
      { subst aggregate. unfold neighbour_aggregate.
        rewrite (compatibility_check_has_bias self Hbias). fold fs. cbv zeta.
        rewrite Hes, Hmp. reflexivity. }
      rewrite Hagg. unfold variant_branch.
      rewrite decide_False by (rewrite Hg; discriminate).
      rewrite decide_True by exact Hg.
      destruct (Hgcn Hg) as (Hio & Hchk & Hpair).
      destruct (gcn_branch_no_edges self msg_fn edge_weight feat fs.1 fs.2 g2 Hi Ho Hb)
        as (a & Ha & Hna & Hca); try exact Hw2; try congruence.
      + destruct feat as [t|s d].
        * subst fs. rewrite (prepare_single self graph t gen), Hd2.
          unfold is_block. destruct Htop2 as (-> & _). reflexivity.
        * destruct Htop2 as (-> & _). exact Hpair.
      + exists a. split; [exact Ha |]. split; [rewrite Hna; exact Hd2 |].
        split; [exact Hca |]. intros Hn. contradiction.
    - exists (zeros nd (_out_feats self)).
      split; [| split; [apply nrows_zeros | split; reflexivity]].
      apply (no_edges_zero_core self graph feat edge_weight gen); try assumption.
      destruct Htag as [Ht | [Ht | [Ht | Ht]]]; [auto | contradiction | | auto].
      right; right. split; [exact Ht | exact (Hpool Ht)]. }
  split; [exists msg_fn, g1; split; [exact Hes | exact Hmp] |].
  split; [exact Hres |].
  pose proof (forward_result self graph feat edge_weight gen Hbias) as Hfw.
  fold fs in Hfw. fold aggregate in Hfw.
  split; [exact Hfw |].
  rewrite Hfw. destruct Hres as (a & -> & Hna & Hca & _). cbn [rbind].
  apply (combine_returns self fs.2 a Hwf Hep Hcd); [rewrite Hna, Hnd; reflexivity | exact Hca].
Qed.

End Edgeless.

(** ** The layer at concrete inputs *)

(** The star graph with scalar features 1, 4, 7 and edge weights 2, 3: the
    centre's aggregate is (2*4 + 3*7 + 1) / 3 with the weights and
    (4 + 7 + 1) / 3 without. *)
Example gcn_star_values :
  values (neighbour_aggregate gcn_1_1 star (FeatTensor x_3x1) (Some w_2x1) 0)
    = Some [[(10, 1%positive)]; [(4, 1%positive)]; [(7, 1%positive)]]%Z /\
  values (neighbour_aggregate gcn_1_1 star (FeatTensor x_3x1) None 0)
    = Some [[(4, 1%positive)]; [(4, 1%positive)]; [(7, 1%positive)]]%Z.
Proof. vm_compute. split; reflexivity. Qed.

(** C1, as worded, fails: when edge weights are given, the sum runs over the
    weighted features. *)
Lemma gcn_aggregate_weighted :
  ~ gcn_aggregate_as_worded gcn_1_1 star (FeatTensor x_3x1) (Some w_2x1) 0.
Proof.
  unfold gcn_aggregate_as_worded. intros Hc.
  apply (f_equal values) in Hc. vm_compute in Hc. discriminate Hc.
Qed.

Lemma gcn_neighbour_aggregate_witness :
  gcn_aggregate_as_worded gcn_3_2 star (FeatTensor x_3x3) None 0.
Proof.
  apply (gcn_neighbour_aggregate gcn_3_2 star (FeatTensor x_3x3) 0).
  - reflexivity.
  - vm_compute. discriminate.
  - split; [reflexivity | repeat constructor].
  - reflexivity.
  - reflexivity.
  - repeat constructor.
  - reflexivity.
  - reflexivity.
  - repeat constructor.
  - reflexivity.
  - reflexivity.
  - unfold edges_in_range. repeat constructor.
  - reflexivity.
  - exact I.
Defined.

Lemma mean_projection_commutes_witness :
  exists msg_fn g1 t,
    edge_setup (Some w_2x1) star = (Ok msg_fn, g1) /\
    (mean_branch mean_3_2 true msg_fn x_3x3 g1).1 = Ok t /\
    (mean_branch mean_3_2 false msg_fn x_3x3 g1).1 = Ok t.
Proof.
  apply (mean_projection_commutes mean_3_2 star x_3x3 (Some w_2x1)).
  - split; [reflexivity | repeat constructor].
  - reflexivity.
  - repeat constructor.
  - reflexivity.
  - reflexivity.
  - unfold edges_in_range. repeat constructor.
  - split; [reflexivity | split; [reflexivity | repeat constructor]].
Defined.

(** C5, as worded, fails: when only the self projection carries a bias, it
    is neither folded into the unified bias nor cleared. *)
Lemma migration_leaves_self_bias : ~ migrates_as_worded legacy_self_bias_only.
Proof.
  unfold migrates_as_worded. intros Hc. destruct (Hc eq_refl) as [Hb _].
  vm_compute in Hb. discriminate Hb.
Qed.

Lemma compatibility_check_migrates_witness :
  _compatibility_check legacy_both_biases =
    (Ok tt, set_bias (Some (Some [(2 + 1)%Qc]))
              (set_fc_self (Some (set_lbias None (mkLinear 1 1 [[1%Qc]] (Some [1%Qc]))))
                 (set_fc_neigh (set_lbias None (fc_neigh legacy_both_biases))
                    legacy_both_biases))).
Proof.
  exact (proj1 (proj2 (compatibility_check_migrates legacy_both_biases))
           [2%Qc] eq_refl eq_refl [1%Qc] [(2 + 1)%Qc] eq_refl eq_refl).
Defined.

Lemma forward_unrecognized_tag_witness :
  (forward sum_3_2 star (FeatTensor x_3x3) None 0).1 =
    Err (KeyError "Aggregator type sum not recognized.").
Proof.
  apply (forward_unrecognized_tag sum_3_2 star (FeatTensor x_3x3) None 0).
  - unfold recognized. vm_compute. intros [Hx|[Hx|[Hx|Hx]]]; discriminate Hx.
  - reflexivity.
  - exact I.
  - left. vm_compute. discriminate.
Defined.

Lemma forward_output_order_witness :
  (forward mean_3_2_full star (FeatTensor x_3x3) None 0).1 =
    rbind (neighbour_aggregate mean_3_2_full star (FeatTensor x_3x3) None 0)
          (output_combiner mean_3_2_full x_3x3) /\
  (forall h_self h_neigh,
     output_combiner mean_3_2_full h_self h_neigh =
       rbind (rbind (rbind (rbind (Linear_call (mkLinear 3 2 (replicate 2 (replicate 3 1%Qc)) None)
                                     h_self)
                              (fun a => t_add a h_neigh))
                       (fun rst => t_add rst (row_tensor [0%Qc; 0%Qc])))
                (fun rst => Ok (t_map relu rst)))
         (fun rst => Ok rst)).
Proof.
  split.
  - exact (proj1 (forward_output_order mean_3_2_full star (FeatTensor x_3x3) None 0)).
  - intros h_self h_neigh.
    refine (proj1 (proj2 (forward_output_order mean_3_2_full star (FeatTensor x_3x3) None 0))
              h_self h_neigh _ _ _ _ _ eq_refl eq_refl eq_refl eq_refl).
    vm_compute. discriminate.
Defined.

(** Construction raises [ValueError] for a dropout rate outside [0, 1] and
    for a recurrent unit of width 0. *)
Example init_rejects_arguments :
  (__init__ (inl 3) 2 "mean" 2%Qc false None None 0).1 = Err ValueError /\
  (__init__ (inl 0) 2 "lstm" 0%Qc false None None 0).1 = Err ValueError /\
  (__init__ (inl 0) 2 "mean" 1%Qc false None None 0).1 = Ok tt.
Proof. vm_compute. repeat split. Qed.

Lemma init_allocates_variant_parameters_witness :
  let self := (__init__ (inl 2) 3 "pool" 0%Qc true None None 0).2.1 in
  (is_Some (fc_pool self) <-> "pool" = "pool") /\
  (is_Some (lstm self) <-> "pool" = "lstm") /\
  (is_Some (fc_self self) <-> "pool" <> "gcn") /\
  in_features (fc_neigh self) = 2 /\
  out_features (fc_neigh self) = 3 /\
  bias self = Some (Some (replicate 3 0%Qc)).
Proof.
  apply (@init_allocates_variant_parameters det_torch (inl 2) 3 "pool" 0%Qc true None None 0).
  vm_compute. reflexivity.
Defined.

(** One node without edges, features 1, 2, 3 and weights all ones: the
    output is the self projection for mean, the projected own feature for
    gcn, 6 in both columns. *)
Example no_edges_values :
  values (forward mean_3_2 isolated_node (FeatTensor x_1x3) None 0).1
    = Some [[(6, 1%positive); (6, 1%positive)]]%Z /\
  values (forward gcn_3_2 isolated_node (FeatTensor x_1x3) None 0).1
    = Some [[(6, 1%positive); (6, 1%positive)]]%Z /\
  values (neighbour_aggregate mean_3_2 isolated_node (FeatTensor x_1x3) None 0)
    = Some [[(0, 1%positive); (0, 1%positive)]]%Z /\
  values (forward mean_3_2 isolated_node (FeatTensor x_1x3) (Some (mkT 1 [])) 0).1
    = Some [[(6, 1%positive); (6, 1%positive)]]%Z.
Proof. vm_compute. repeat split. Qed.

(** The same for the pool and the lstm variant, from 2 to 3 features. *)
Example no_edges_values_pool_lstm :
  values (forward pool_2_3 isolated_node (FeatTensor x_1x2) None 0).1
    = Some [[(3, 1%positive); (3, 1%positive); (3, 1%positive)]]%Z /\
  values (forward lstm_2_3 isolated_node (FeatTensor x_1x2) None 0).1
    = Some [[(3, 1%positive); (3, 1%positive); (3, 1%positive)]]%Z.
Proof. vm_compute. repeat split. Qed.

Lemma forward_no_edges_returns_witness :
  exists t, (forward mean_3_2 isolated_node (FeatTensor x_1x3) None 0).1 = Ok t.
Proof.
  refine (proj2 (proj2 (proj2
            (forward_no_edges_returns mean_3_2 isolated_node (FeatTensor x_1x3) None 0
               _ _ _ _ _ _)))).
  - left. reflexivity.
  - split; [vm_compute; discriminate |].
    split; [intros b Hb; vm_compute in Hb; discriminate Hb |].
    split; [repeat split |].
    split.
    + intros _. eexists. split; [reflexivity |]. repeat split.
    + intros Hp. vm_compute in Hp. discriminate Hp.
  - split; intros f Hf; vm_compute in Hf; discriminate Hf.
  - reflexivity.
  - exact I.
  - repeat split.
Defined.

Lemma forward_edge_weight_witness :
  (forward mean_3_2 star (FeatTensor x_3x3) (Some w_1x1) 0).1 = Err AssertionError /\
  exists h,
    Linear_call (fc_neigh mean_3_2) x_3x3 = Ok h /\
    neighbour_aggregate mean_3_2 star (FeatTensor x_3x3) (Some w_2x1) 0 =
      Ok (reduced_messages (fn_mean "m" "neigh") star (Some w_2x1) 2 (rowsT h)).
Proof.
  split.
  - apply (proj1 (forward_edge_weight mean_3_2 star (FeatTensor x_3x3) w_1x1 0 eq_refl)).
    vm_compute. discriminate.
  - eexists. split; [vm_compute; reflexivity |].
    pose proof (forward_edge_weight mean_3_2 star (FeatTensor x_3x3) w_2x1 0 eq_refl) as Hw.
    cbv zeta in Hw. destruct Hw as [_ Hw].
    destruct (Hw eq_refl) as (_ & _ & Hv).
    destruct (Hv eq_refl eq_refl) as (Hmean & _).
    apply (Hmean eq_refl _ 2).
    + vm_compute. reflexivity.
    + reflexivity.
Defined.

(** The weighted mean at the centre of the star: (2 * 15 + 3 * 25) / 2. *)
Example weighted_mean_values :
  values (neighbour_aggregate mean_3_2 star (FeatTensor x_3x3) (Some w_2x1) 0)
    = Some [[(105, 2%positive); (105, 2%positive)];
            [(0, 1%positive); (0, 1%positive)];
            [(0, 1%positive); (0, 1%positive)]]%Z.
Proof. vm_compute. reflexivity. Qed.

(** ** The closed forms and edge cases at concrete inputs *)

Lemma mean_neighbour_aggregate_witness :
  neighbour_aggregate mean_3_2 star (FeatTensor x_3x3) None 0 =
    Ok (mkT 2 (map (fun v => mean_aggregate_row (weight (fc_neigh mean_3_2)) 3
                               (gathered (in_neighbours star v) (rowsT x_3x3)))
                 (seq 0 3))).
Proof.
  apply (mean_neighbour_aggregate mean_3_2 star (FeatTensor x_3x3) 0).
  - reflexivity.
  - vm_compute. discriminate.
  - split; [reflexivity | repeat constructor].
  - reflexivity.
  - repeat constructor.
  - reflexivity.
  - reflexivity.
  - unfold edges_in_range. repeat constructor.
  - vm_compute. discriminate.
Defined.

Lemma no_edges_zero_aggregate_witness :
  neighbour_aggregate mean_2_3 isolated_node (FeatTensor x_1x2) None 0 = Ok (zeros 1 3).
Proof.
  apply (no_edges_zero_aggregate mean_2_3 isolated_node (FeatTensor x_1x2) None 0).
  - vm_compute. discriminate.
  - left. reflexivity.
  - reflexivity.
  - reflexivity.
  - reflexivity.
  - reflexivity.
  - reflexivity.
  - exact I.
  - reflexivity.
  - reflexivity.
  - reflexivity.
Defined.

Lemma gcn_pair_width_mismatch_witness :
  (forward gcn_3_2 isolated_node (FeatPair x_1x3 x_1x2) None 0).1 = Err DGLError.
Proof.
  apply (gcn_pair_width_mismatch gcn_3_2 isolated_node x_1x3 x_1x2 None 0).
  - reflexivity.
  - vm_compute. discriminate.
  - exact I.
  - vm_compute. lia.
Defined.

Lemma compatibility_check_half_migrates_witness :
  let self1 := set_fc_neigh (set_lbias None (fc_neigh legacy_neigh_bias_only))
                 legacy_neigh_bias_only in
  _compatibility_check legacy_neigh_bias_only = (Err TypeError, self1) /\
  _compatibility_check self1 = (Ok tt, set_bias (Some None) self1) /\
  (forall graph feat edge_weight gen,
     forward legacy_neigh_bias_only graph feat edge_weight gen =
       (Err TypeError, (self1, graph, gen))).
Proof.
  apply (compatibility_check_half_migrates legacy_neigh_bias_only [2%Qc]
           (mkLinear 1 1 [[1%Qc]] None)); reflexivity.
Defined.

Lemma pool_neighbour_aggregate_witness :
  exists h,
    Linear_call (mkLinear 2 2 [[1%Qc; 1%Qc]; [1%Qc; 1%Qc]] (Some [0%Qc; 0%Qc])) x_3x2 = Ok h /\
    neighbour_aggregate pool_2_3 star (FeatTensor x_3x2) None 0 =
      Ok (mkT 3 (map (fun v => pool_aggregate_row (weight (fc_neigh pool_2_3)) (cols h)
                                 (gathered (in_neighbours star v) (rowsT (t_map relu h))))
                   (seq 0 3))).
Proof.
  eexists. split; [vm_compute; reflexivity |].
  apply (pool_neighbour_aggregate pool_2_3 star (FeatTensor x_3x2) 0
           (mkLinear 2 2 [[1%Qc; 1%Qc]; [1%Qc; 1%Qc]] (Some [0%Qc; 0%Qc]))).
  - reflexivity.
  - vm_compute. discriminate.
  - reflexivity.
  - vm_compute. reflexivity.
  - reflexivity.
  - reflexivity.
  - reflexivity.
  - vm_compute. discriminate.
Defined.

Lemma gcn_pair_shared_frame_witness :
  (forward gcn_2_3 one_edge (FeatPair x_2x2 x_2x2) None 0).1 =
  (forward gcn_2_3 one_edge (FeatPair y_2x2 x_2x2) None 0).1.
Proof.
  apply (gcn_pair_shared_frame gcn_2_3 one_edge x_2x2 y_2x2 x_2x2 None 0).
  - reflexivity.
  - vm_compute. discriminate.
  - reflexivity.
  - intros t g. reflexivity.
  - reflexivity.
  - reflexivity.
  - reflexivity.
Defined.

Lemma forward_mean_equation_witness :
  (forward mean_3_2_bias star (FeatTensor x_3x3) None 0).1 =
    Ok (mkT 2 (map (fun v => sage_mean_row [[1%Qc; 1%Qc; 1%Qc]; [1%Qc; 1%Qc; 1%Qc]]
                               (weight (fc_neigh mean_3_2_bias)) (Some [0%Qc; 0%Qc]) 3
                               (default [] (rowsT x_3x3 !! v))
                               (gathered (in_neighbours star v) (rowsT x_3x3)))
                 (seq 0 3))).
Proof.
  apply (forward_mean_equation mean_3_2_bias star (FeatTensor x_3x3) 0
           (mkLinear 3 2 [[1%Qc; 1%Qc; 1%Qc]; [1%Qc; 1%Qc; 1%Qc]] None)
           (Some [0%Qc; 0%Qc])).
  - reflexivity.
  - reflexivity.
  - reflexivity.
  - reflexivity.
  - reflexivity.
  - reflexivity.
  - reflexivity.
  - reflexivity.
  - reflexivity.
  - split; [reflexivity | repeat constructor].
  - reflexivity.
  - repeat constructor.
  - reflexivity.
  - reflexivity.
  - reflexivity.
  - reflexivity.
  - unfold edges_in_range. repeat constructor.
  - vm_compute. discriminate.
Defined.

Lemma mean_weighted_aggregate_witness :
  neighbour_aggregate mean_3_2 star (FeatTensor x_3x3) (Some w_2x1) 0 =
    Ok (mkT 2 (map (fun v => mean_aggregate_row (weight (fc_neigh mean_3_2)) 3
                               (weighted_neighbours star w_2x1 (rowsT x_3x3) v))
                 (seq 0 3))).
Proof.
  apply (mean_weighted_aggregate mean_3_2 star (FeatTensor x_3x3) w_2x1 0).
  - reflexivity.
  - vm_compute. discriminate.
  - split; [reflexivity | repeat constructor].
  - reflexivity.
  - repeat constructor.
  - reflexivity.
  - reflexivity.
  - unfold edges_in_range. repeat constructor.
  - vm_compute. discriminate.
  - split; [reflexivity |]. split; [reflexivity | repeat constructor].
Defined.

Lemma lstm_neighbour_aggregate_witness :
  let r := fun v => foldr (zip_with Qcplus) (replicate 2 0%Qc)
                      (gathered (in_neighbours one_edge v) (rowsT x_2x2)) in
  neighbour_aggregate lstm_2_3 one_edge (FeatTensor x_2x2) None 0 =
    Ok (mkT 3 (map (fun v => matvec (weight (fc_neigh lstm_2_3))
                               (if decide (in_neighbours one_edge v = [])
                                then replicate 2 0%Qc else r v))
                 (seq 0 2))).
Proof.
  intros r.
  apply (lstm_neighbour_aggregate lstm_2_3 one_edge (FeatTensor x_2x2) 0 tt r).
  - reflexivity.
  - vm_compute. discriminate.
  - reflexivity.
  - reflexivity.
  - reflexivity.
  - vm_compute. discriminate.
  - repeat constructor.
  - intros v Hv Hne. split; [reflexivity |].
    destruct v as [|[|v]]; [contradiction | reflexivity |].
    vm_compute in Hv. lia.
Defined.

Lemma gcn_is_mean_with_self_loops_witness :
  neighbour_aggregate gcn_3_2 star (FeatTensor x_3x3) None 0 =
    neighbour_aggregate mean_3_2 (add_self_loop star) (FeatTensor x_3x3) None 0.
Proof.
  apply (gcn_is_mean_with_self_loops gcn_3_2 mean_3_2 star x_3x3 0).
  - reflexivity.
  - reflexivity.
  - vm_compute. discriminate.
  - vm_compute. discriminate.
  - reflexivity.
  - reflexivity.
  - split; [reflexivity | repeat constructor].
  - reflexivity.
  - reflexivity.
  - reflexivity.
  - repeat constructor.
  - reflexivity.
  - reflexivity.
  - unfold edges_in_range. repeat constructor.
  - vm_compute. discriminate.
Defined.
